(** * ollama-terminal: the chat loop of the terminal client

    A shallow embedding of the two [main] programs of the repository

    - [src/main.go]: the single-prompt variant ([client.Generate]), which
      keeps no history and renders the model's reasoning text in place;
    - [src/unnamed/part_000]: the history-keeping variant ([client.Chat]),
      which sends the whole conversation on every call.

    Go strings are byte sequences; they are modelled by [string], whose
    characters ([ascii]) are the bytes.  The parts of the Go standard
    library the programs rely on ([strings.TrimSpace], [strings.ToLower],
    the UTF-8 decoder behind them) are embedded first, then the two
    programs over an explicit world (the terminal streams, the cancellation
    scopes, the calls issued to the model server). *)

From Stdlib Require Import String Ascii List ZArith Lia Bool Arith.
From Stdlib Require Import DecimalString.
Import ListNotations.

Open Scope string_scope.

(** ** Bytes and byte strings *)

(** The numeric value of a byte. *)
Definition b2z (c : ascii) : Z := Z.of_nat (nat_of_ascii c).

(** The byte of a numeric value (Go's [byte(x)] conversion). *)
Definition z2b (x : Z) : ascii := ascii_of_nat (Z.to_nat (x mod 256)).

(** A string given by its byte values. *)
Definition bytes (l : list Z) : string :=
  fold_right (fun x s => String (z2b x) s) "" l.

(** Go's [s[lo:hi]]. *)
Definition slice (s : string) (lo hi : nat) : string :=
  substring lo (hi - lo) s.

(** Go's [s[lo:]]. *)
Fixpoint drop (n : nat) (s : string) : string :=
  match n, s with
  | O, _ => s
  | S _, "" => ""
  | S n', String _ s' => drop n' s'
  end.

(** Go's [s[i]] as a number; the programs never index out of range, where
    Go would panic, and the model answers 0 there. *)
Definition byteAt (s : string) (i : nat) : Z :=
  match get i s with
  | Some c => b2z c
  | None => 0%Z
  end.

(** ** Package [unicode/utf8] *)

Module utf8.

Definition RuneError : Z := 0xFFFD.
Definition RuneSelf : Z := 0x80.
Definition UTFMax : nat := 4.

Definition maskx : Z := 0x3F.
Definition mask2 : Z := 0x1F.
Definition mask3 : Z := 0x0F.
Definition mask4 : Z := 0x07.
Definition locb : Z := 0x80.
Definition hicb : Z := 0xBF.

(** The table [first]: information about the first byte of a sequence.
    [0xF0] ([as]) is ASCII, [0xF1] ([xx]) is an invalid first byte; otherwise
    the low three bits are the length of the sequence and the high four bits
    index [acceptRanges]. *)
Definition first (s0 : Z) : Z :=
  (if s0 <? 0x80 then 0xF0
   else if s0 <? 0xC2 then 0xF1
   else if s0 <? 0xE0 then 0x02
   else if s0 =? 0xE0 then 0x13
   else if s0 <? 0xED then 0x03
   else if s0 =? 0xED then 0x23
   else if s0 <? 0xF0 then 0x03
   else if s0 =? 0xF0 then 0x34
   else if s0 <? 0xF4 then 0x04
   else if s0 =? 0xF4 then 0x44
   else 0xF1)%Z.

(** The table [acceptRanges]: the range of valid second bytes. *)
Definition acceptRanges (i : Z) : Z * Z :=
  (match i with
   | 0 => (locb, hicb)
   | 1 => (0xA0, hicb)
   | 2 => (locb, 0x9F)
   | 3 => (0x90, hicb)
   | 4 => (locb, 0x8F)
   | _ => (0, 0)
   end)%Z.

(** [utf8.DecodeRuneInString]: the first rune of [s] and its width in bytes.
    An empty string gives [(RuneError, 0)], an invalid encoding
    [(RuneError, 1)].  Running out of bytes is Go's test [n < sz]. *)
Definition DecodeRuneInString (s : string) : Z * nat :=
  match s with
  | "" => (RuneError, 0)
  | String c0 r0 =>
    let s0 := b2z c0 in
    let x := first s0 in
    if (0xF0 <=? x)%Z then
      ((if Z.odd x then RuneError else s0), 1)
    else
      let sz := Z.land x 7 in
      let accept := acceptRanges (Z.shiftr x 4) in
      match r0 with
      | "" => (RuneError, 1)
      | String c1 r1 =>
        let s1 := b2z c1 in
        if ((s1 <? fst accept) || (snd accept <? s1))%Z then (RuneError, 1)
        else if (sz <=? 2)%Z then
          (Z.lor (Z.shiftl (Z.land s0 mask2) 6) (Z.land s1 maskx), 2)
        else
          match r1 with
          | "" => (RuneError, 1)
          | String c2 r2 =>
            let s2 := b2z c2 in
            if ((s2 <? locb) || (hicb <? s2))%Z then (RuneError, 1)
            else if (sz <=? 3)%Z then
              (Z.lor (Z.lor (Z.shiftl (Z.land s0 mask3) 12)
                            (Z.shiftl (Z.land s1 maskx) 6))
                     (Z.land s2 maskx), 3)
            else
              match r2 with
              | "" => (RuneError, 1)
              | String c3 _ =>
                let s3 := b2z c3 in
                if ((s3 <? locb) || (hicb <? s3))%Z then (RuneError, 1)
                else
                  (Z.lor (Z.lor (Z.lor (Z.shiftl (Z.land s0 mask4) 18)
                                       (Z.shiftl (Z.land s1 maskx) 12))
                                (Z.shiftl (Z.land s2 maskx) 6))
                         (Z.land s3 maskx), 4)
              end
          end
      end
  end.

(** [utf8.RuneStart]: the byte is not a continuation byte. *)
Definition RuneStart (b : Z) : bool :=
  negb (Z.land b 0xC0 =? 0x80)%Z.

(** The loop [for start--; start >= lim; start--] of
    [DecodeLastRuneInString], run for at most [fuel] steps from [start + 1]:
    it stops on the first rune start at or above [lim], and otherwise leaves
    [start] one below [lim] ([None] stands for -1). *)
Fixpoint findStart (fuel : nat) (s : string) (lim start1 : nat) : option nat :=
  match fuel with
  | O => None
  | S fuel' =>
    match start1 with
    | O => None
    | S start =>
      if (start <? lim)%nat then Some start
      else if RuneStart (byteAt s start) then Some start
      else findStart fuel' s lim start
    end
  end.

(** [utf8.DecodeLastRuneInString]: the last rune of [s] and its width. *)
Definition DecodeLastRuneInString (s : string) : Z * nat :=
  let e := String.length s in
  match e with
  | O => (RuneError, 0)
  | S start =>
    let r := byteAt s start in
    if (r <? RuneSelf)%Z then (r, 1)
    else
      let lim := e - UTFMax in
      let start' :=
        match findStart (S UTFMax) s lim start with
        | Some i => i
        | None => 0          (* if start < 0 { start = 0 } *)
        end in
      let '(r', size) := DecodeRuneInString (slice s start' e) in
      if (start' + size =? e)%nat then (r', size) else (RuneError, 1)
  end.

(** [utf8.AppendRune] on an empty buffer: the UTF-8 encoding of a rune;
    surrogates and values out of range are encoded as [RuneError]. *)
Definition EncodeRune (r : Z) : string :=
  (if (0 <=? r) && (r <=? 0x7F) then bytes [r]
   else if (0 <=? r) && (r <=? 0x7FF) then
     bytes [Z.lor 0xC0 (Z.shiftr r 6); Z.lor 0x80 (Z.land r maskx)]
   else if (r <? 0) || (0x10FFFF <? r) || ((0xD800 <=? r) && (r <=? 0xDFFF)) then
     bytes [0xEF; 0xBF; 0xBD]
   else if r <=? 0xFFFF then
     bytes [Z.lor 0xE0 (Z.shiftr r 12);
            Z.lor 0x80 (Z.land (Z.shiftr r 6) maskx);
            Z.lor 0x80 (Z.land r maskx)]
   else
     bytes [Z.lor 0xF0 (Z.shiftr r 18);
            Z.lor 0x80 (Z.land (Z.shiftr r 12) maskx);
            Z.lor 0x80 (Z.land (Z.shiftr r 6) maskx);
            Z.lor 0x80 (Z.land r maskx)])%Z.

End utf8.

(** ** Package [unicode] *)

Module unicode.

Definition MaxLatin1 : Z := 0xFF.

(** The range table [White_Space], as (Lo, Hi) pairs of stride 1; its first
    [LatinOffset] entries lie in Latin-1. *)
Definition White_Space : list (Z * Z) :=
  [ (0x0009, 0x000d); (0x0020, 0x0020); (0x0085, 0x0085); (0x00a0, 0x00a0);
    (0x1680, 0x1680); (0x2000, 0x200a); (0x2028, 0x2029); (0x202f, 0x202f);
    (0x205f, 0x205f); (0x3000, 0x3000) ]%Z.

Definition LatinOffset : nat := 4.

(** [isExcludingLatin]: membership in the ranges beyond Latin-1. *)
Definition isExcludingLatin (tab : list (Z * Z)) (off : nat) (r : Z) : bool :=
  existsb (fun '(lo, hi) => (lo <=? r) && (r <=? hi))%Z (skipn off tab).

(** [unicode.IsSpace]. *)
Definition IsSpace (r : Z) : bool :=
  if ((0 <=? r) && (r <=? MaxLatin1))%Z then
    (match r with
     | 0x09 | 0x0A | 0x0B | 0x0C | 0x0D | 0x20 | 0x85 | 0xA0 => true
     | _ => false
     end)%Z
  else isExcludingLatin White_Space LatinOffset r.

End unicode.

(** ** Package [strings] *)

Module strings.

(** The table [asciiSpace]. *)
Definition asciiSpace (c : Z) : bool :=
  (match c with
   | 0x09 | 0x0A | 0x0B | 0x0C | 0x0D | 0x20 => true
   | _ => false
   end)%Z.

(** [indexFunc]: the index of the first rune [r] of [rest] with
    [f r = truth], [rest] being [s[i:]]; [None] is Go's -1.  The loop is
    [for i, r := range s], which decodes like [DecodeRuneInString]. *)
Fixpoint indexFunc (fuel : nat) (f : Z -> bool) (truth : bool)
    (rest : string) (i : nat) : option nat :=
  match fuel with
  | O => None
  | S fuel' =>
    match rest with
    | "" => None
    | _ =>
      let '(r, size) := utf8.DecodeRuneInString rest in
      if Bool.eqb (f r) truth then Some i
      else indexFunc fuel' f truth (drop size rest) (i + size)
    end
  end.

(** [lastIndexFunc]: the loop [for i := len(s); i > 0; ]. *)
Fixpoint lastIndexFunc (fuel : nat) (f : Z -> bool) (truth : bool)
    (s : string) (i : nat) : option nat :=
  match fuel with
  | O => None
  | S fuel' =>
    if (i =? 0)%nat then None
    else
      let '(r, size) := utf8.DecodeLastRuneInString (slice s 0 i) in
      let i' := i - size in
      if Bool.eqb (f r) truth then Some i'
      else lastIndexFunc fuel' f truth s i'
  end.

(** [strings.TrimLeftFunc]. *)
Definition TrimLeftFunc (s : string) (f : Z -> bool) : string :=
  match indexFunc (String.length s) f false s 0 with
  | None => ""
  | Some i => drop i s
  end.

(** [strings.TrimRightFunc]. *)
Definition TrimRightFunc (s : string) (f : Z -> bool) : string :=
  match lastIndexFunc (String.length s) f false s (String.length s) with
  | Some i =>
    if (utf8.RuneSelf <=? byteAt s i)%Z then
      let '(_, wid) := utf8.DecodeRuneInString (drop i s) in
      slice s 0 (i + wid)
    else slice s 0 (i + 1)
  | None => slice s 0 0
  end.

(** [strings.TrimFunc]. *)
Definition TrimFunc (s : string) (f : Z -> bool) : string :=
  TrimRightFunc (TrimLeftFunc s f) f.

(** First loop of [TrimSpace], over [rest = s[start:]]: the index where it
    stops, and whether it stopped on a non-ASCII byte. *)
Fixpoint scanStart (rest : string) (start : nat) : nat * bool :=
  match rest with
  | "" => (start, false)
  | String c rest' =>
    if (utf8.RuneSelf <=? b2z c)%Z then (start, true)
    else if asciiSpace (b2z c) then scanStart rest' (S start)
    else (start, false)
  end.

(** Second loop of [TrimSpace], [for ; stop > start; stop--]. *)
Fixpoint scanStop (s : string) (start stop : nat) : nat * bool :=
  match stop with
  | O => (O, false)
  | S stop' =>
    if (stop <=? start)%nat then (stop, false)
    else
      let c := byteAt s stop' in
      if (utf8.RuneSelf <=? c)%Z then (stop, true)
      else if asciiSpace c then scanStop s start stop'
      else (stop, false)
  end.

(** [strings.TrimSpace]: the ASCII fast path, which falls back to the
    Unicode-aware functions on the first non-ASCII byte it meets. *)
Definition TrimSpace (s : string) : string :=
  let '(start, nonASCII) := scanStart s 0 in
  if nonASCII then TrimFunc (drop start s) unicode.IsSpace
  else
    let '(stop, nonASCII') := scanStop s start (String.length s) in
    if nonASCII' then TrimRightFunc (slice s start stop) unicode.IsSpace
    else slice s start stop.

(** The ASCII loops of [strings.ToLower]. *)
Fixpoint isASCII (s : string) : bool :=
  match s with
  | "" => true
  | String c s' => (b2z c <? utf8.RuneSelf)%Z && isASCII s'
  end.

Definition isUpper (c : Z) : bool := ((0x41 <=? c) && (c <=? 0x5A))%Z.

Fixpoint hasUpper (s : string) : bool :=
  match s with
  | "" => false
  | String c s' => isUpper (b2z c) || hasUpper s'
  end.

(** [c += 'a' - 'A'] on the upper-case letters. *)
Definition lowerByte (c : ascii) : ascii :=
  if isUpper (b2z c) then z2b (b2z c + (0x61 - 0x41)) else c.

Fixpoint lowerASCII (s : string) : string :=
  match s with
  | "" => ""
  | String c s' => String (lowerByte c) (lowerASCII s')
  end.

(** [strings.Map]: every rune of [s] is replaced by its image, negative
    images being dropped.  Go copies the longest prefix of unchanged valid
    runes verbatim; that is what encoding them again gives. *)
Fixpoint Map (fuel : nat) (mapping : Z -> Z) (rest : string) : string :=
  match fuel with
  | O => ""
  | S fuel' =>
    match rest with
    | "" => ""
    | _ =>
      let '(c, width) := utf8.DecodeRuneInString rest in
      let r := mapping c in
      ((if (0 <=? r)%Z then utf8.EncodeRune r else "")
       ++ Map fuel' mapping (drop width rest))
    end
  end.

(** [strings.ToLower].  The case tables of package [unicode] are not part of
    this repository: [unicode_ToLower] stands for [unicode.ToLower]. *)
Definition ToLower (unicode_ToLower : Z -> Z) (s : string) : string :=
  if isASCII s then
    if negb (hasUpper s) then s else lowerASCII s
  else Map (String.length s) unicode_ToLower s.

End strings.

(** ** Package [fmt] and string constants *)

Definition LF : string := String "010"%char "".
Definition CR : string := String "013"%char "".
Definition ESC : string := String "027"%char "".

(** [strconv.Itoa] on a non-negative integer, as [%d] prints it. *)
Definition Itoa (n : nat) : string := NilEmpty.string_of_uint (Nat.to_uint n).

(** [fmt.Sprintln]: the operands separated by spaces, then a newline. *)
Definition Sprintln (args : list string) : string := String.concat " " args ++ LF.

(** The colour constants of both programs. *)
Definition Reset : string := ESC ++ "[0m".
Definition Green : string := ESC ++ "[32m".
Definition Blue : string := ESC ++ "[34m".
Definition Cyan : string := ESC ++ "[36m".
Definition Yellow : string := ESC ++ "[33m".
Definition Red : string := ESC ++ "[31m".
Definition Purple : string := ESC ++ "[35m".

(** Erase to the end of the line, [\033[K]. *)
Definition EraseLine : string := ESC ++ "[K".

(** ** Package [api] of the model server: the fields the programs use *)

Module api.

Module Message.
Record t := mk { Role : string; Content : string; Thinking : string }.
End Message.

Module ChatRequest.
Record t := mk { Model : string; Messages : list Message.t; Think : string }.
End ChatRequest.

Module ChatResponse.
Record t := mk { Message : Message.t; DoneReason : string }.
End ChatResponse.

Module GenerateRequest.
Record t := mk { Model : string; Prompt : string; System : string; Think : string }.
End GenerateRequest.

Module GenerateResponse.
Record t := mk { Response : string; Thinking : string }.
End GenerateResponse.

End api.

(** A message as the programs build it, [api.Message{Role: r, Content: c}]. *)
Definition message (role content : string) : api.Message.t :=
  api.Message.mk role content "".

(** ** The world of the programs *)

(** A Go [error] is modelled by its message. *)
Inductive result (A : Type) : Type :=
| Ok (a : A)
| Err (e : string).
Arguments Ok {A} a.
Arguments Err {A} e.

(** A [context.Context]: the background context, or a cancellation scope
    made by [context.WithTimeout]. *)
Inductive Ctx : Type :=
| Background
| Scope (id : nat).

(** The calls to the model server. *)
Inductive Request : Type :=
| Heartbeat
| Version
| List
| Pull (model : string)
| Embed (model input : string)
| Show (model : string)
| Chat (req : api.ChatRequest.t)
| Generate (req : api.GenerateRequest.t).

(** What the programs do to the outside, in the order they do it. *)
Inductive Event : Type :=
| Stdout (s : string)                  (* fmt.Print, fmt.Println, fmt.Printf *)
| Stderr (s : string)                  (* fmt.Fprintf(os.Stderr, ...) *)
| Log (s : string)                     (* package log: standard error, after a time stamp *)
| ReadFile (name : string)             (* os.ReadFile *)
| ReadStdin                            (* reader.ReadString('\n') *)
| WithTimeout (id : nat) (seconds : Z) (* context.WithTimeout(context.Background(), d) *)
| Cancel (id : nat)                    (* the CancelFunc of scope id *)
| Call (ctx : Ctx) (req : Request).    (* a method of the client *)

Record World : Type := mkWorld {
  trace : list Event;      (* the events so far, oldest first *)
  scopes : nat;            (* the number of scopes created *)
  deferred : list nat      (* the deferred cancel calls of main, last first *)
}.

Definition World0 : World := mkWorld [] 0 [].

(** How a computation ends: with a value, by [os.Exit], by a run-time panic,
    or blocked on standard input once the script of inputs is used up. *)
Inductive Outcome (A : Type) : Type :=
| Ret (a : A)
| Exit (code : Z)
| Panic (msg : string)
| Await.
Arguments Ret {A} a.
Arguments Exit {A} code.
Arguments Panic {A} msg.
Arguments Await {A}.

Definition M (A : Type) : Type := World -> Outcome A * World.

Definition ret {A} (a : A) : M A := fun w => (Ret a, w).

Definition bind {A B} (m : M A) (k : A -> M B) : M B :=
  fun w =>
    match m w with
    | (Ret a, w') => k a w'
    | (Exit c, w') => (Exit c, w')
    | (Panic e, w') => (Panic e, w')
    | (Await, w') => (Await, w')
    end.

Declare Scope go_scope.
Delimit Scope go_scope with go.
Notation "x <- m ;; k" := (bind m (fun x => k))
  (at level 61, m at next level, right associativity) : go_scope.
Notation "m ;; k" := (bind m (fun _ => k))
  (at level 61, right associativity) : go_scope.
Open Scope go_scope.

Definition emit (e : Event) : M unit :=
  fun w => (Ret tt, mkWorld (trace w ++ [e])%list (scopes w) (deferred w)).

Definition Print (s : string) : M unit := emit (Stdout s).
Definition Println (args : list string) : M unit := emit (Stdout (Sprintln args)).
Definition Eprint (s : string) : M unit := emit (Stderr s).
Definition osExit (code : Z) : M unit := fun w => (Exit code, w).

(** [log.Printf]: the logger ends the line. *)
Definition logPrintf (s : string) : M unit := emit (Log (s ++ LF)).

(** [log.Fatalln]: [Println] to the logger, then [os.Exit(1)]; the deferred
    calls do not run. *)
Definition logFatalln {A} (args : list string) : M A :=
  fun w => (Exit 1%Z, mkWorld (trace w ++ [Log (Sprintln args)])%list (scopes w) (deferred w)).

(** [context.WithTimeout(context.Background(), seconds)]: a fresh scope. *)
Definition contextWithTimeout (seconds : Z) : M nat :=
  fun w => (Ret (scopes w),
            mkWorld (trace w ++ [WithTimeout (scopes w) seconds])%list
                    (S (scopes w)) (deferred w)).

(** [cancel()]. *)
Definition cancel (id : nat) : M unit := emit (Cancel id).

(** [defer cancel()]: runs when [main] returns. *)
Definition deferCancel (id : nat) : M unit :=
  fun w => (Ret tt, mkWorld (trace w) (scopes w) (id :: deferred w)).

(** The deferred calls, run last first when [main] returns. *)
Fixpoint runCancels (ids : list nat) : M unit :=
  match ids with
  | [] => ret tt
  | id :: ids' => cancel id ;; runCancels ids'
  end.

Definition runDeferred : M unit :=
  fun w => runCancels (deferred w) (mkWorld (trace w) (scopes w) []).

(** The body of [main] with its deferred calls: they run when the body
    returns and when it panics, not on [os.Exit]. *)
Definition withDeferred (body : M unit) : M unit :=
  fun w =>
    match body w with
    | (Ret _, w') => runDeferred w'
    | (Panic e, w') => (Panic e, snd (runDeferred w'))
    | (Exit c, w') => (Exit c, w')
    | (Await, w') => (Await, w')
    end.

(** A call of the client that answers at once. *)
Definition call {A} (ctx : Ctx) (req : Request) (answer : A) : M A :=
  emit (Call ctx req) ;; ret answer.

(** A streaming call: the client hands the fragments to the callback [fn] in
    the order they arrive; it stops on the first error the callback returns,
    and otherwise returns the error of the call itself, if any. *)
Fixpoint deliver {R S} (fn : R -> S -> M (S * option string))
    (frags : list R) (err : option string) (st : S) : M (S * option string) :=
  match frags with
  | [] => ret (st, err)
  | g :: frags' =>
    r <- fn g st ;;
    match r with
    | (st', Some e) => ret (st', Some e)
    | (st', None) => deliver fn frags' err st'
    end
  end.

Definition stream {R S} (ctx : Ctx) (req : Request)
    (fn : R -> S -> M (S * option string))
    (frags : list R) (err : option string) (st : S) : M (S * option string) :=
  emit (Call ctx req) ;; deliver fn frags err st.

(** The scopes created and not cancelled, oldest first. *)
Fixpoint held (t : list Event) (acc : list nat) : list nat :=
  match t with
  | [] => acc
  | WithTimeout id _ :: t' => held t' (acc ++ [id])%list
  | Cancel id :: t' => held t' (remove Nat.eq_dec id acc)
  | _ :: t' => held t' acc
  end.

Definition heldScopes (w : World) : list nat := held (trace w) [].

(** ** What both programs share *)

(** A [float32], by its 32 bits; the programs only count the components of
    an embedding. *)
Definition float32 : Type := Z.

(** What the outside answers during start-up. *)
Record Startup : Type := mkStartup {
  clientFromEnvironment : option string;     (* the error, if any *)
  readFile : string -> result string;        (* the file system *)
  heartbeatResult : option string;
  versionResult : result string;
  listResult : result (list string);         (* the names of the models *)
  pullResult : list string * option string;  (* the progress statuses, the error *)
  embedResult : result (list (list float32)); (* the embeddings *)
  showResult : result (list string)          (* the capabilities *)
}.

(** [loadSystemMessage]. *)
Definition loadSystemMessage (env : Startup) (filename : string) : M (result string) :=
  emit (ReadFile filename) ;;
  match readFile env filename with
  | Err e => ret (Err e)
  | Ok data => ret (Ok (strings.TrimSpace data))
  end.

(** [NewOllamaClient]. *)
Definition NewOllamaClient (env : Startup) : M unit :=
  match clientFromEnvironment env with
  | Some e => logFatalln [Red ++ "[ERROR]" ++ Reset; "Failed to create Ollama client:"; e]
  | None => ret tt
  end.

Definition fallbackSystemMessage : string := "You are a helpful assistant.".

(** Lines 47 to 51 of [main]: the system message the session is seeded
    with. *)
Definition seedSystemMessage (env : Startup) : M string :=
  r <- loadSystemMessage env "system.txt" ;;
  match r with
  | Err e =>
    logPrintf ("Could not load system message: " ++ e) ;;
    ret fallbackSystemMessage
  | Ok systemMsg => ret systemMsg
  end.

Definition defaultModel : string := "gpt-oss:20b".
Definition embeddingModel : string := "nomic-embed-text".

(** The listing of the models, [for i, m := range listRes.Models]. *)
Fixpoint printModels (i : nat) (models : list string) : M unit :=
  match models with
  | [] => ret tt
  | name :: models' =>
    let prefix :=
      if (name =? defaultModel)%string
      then "  " ++ Green ++ "★" ++ Reset ++ " " else "  " in
    Print (prefix ++ Itoa i ++ ": " ++ Cyan ++ name ++ Reset ++ LF) ;;
    printModels (S i) models'
  end.

(** [for _, cap := range showRes.Capabilities]. *)
Fixpoint printCapabilities (caps : list string) : M unit :=
  match caps with
  | [] => ret tt
  | c :: caps' => Print ("  - " ++ c ++ LF) ;; printCapabilities caps'
  end.

(** Lines 59 to 68 of [src/main.go]: version and models, under the context
    [ctx] of the caller. *)
Definition versionAndModels (env : Startup) (ctx : Ctx) : M unit :=
  v <- call ctx Version (versionResult env) ;;
  match v with
  | Err e => logFatalln [Red ++ "[ERROR]" ++ Reset; "Failed to get version:"; e]
  | Ok clientVersion =>
    Print (Yellow ++ "📋 Client Version:" ++ Reset ++ " " ++ clientVersion ++ LF ++ LF) ;;
    l <- call ctx List (listResult env) ;;
    match l with
    | Err e => logFatalln [Red ++ "[ERROR]" ++ Reset; "Failed to list models:"; e]
    | Ok models =>
      Print (Yellow ++ "📦 Available Models:" ++ Reset ++ LF) ;;
      printModels 0 models ;;
      Print (LF ++ Yellow ++ "💬 Default Chat Model:" ++ Reset ++ " " ++ defaultModel ++ LF) ;;
      Print (Yellow ++ "🧩 Embedding Model:" ++ Reset ++ " " ++ embeddingModel ++ LF)
    end
  end.

(** The capabilities of the default model, under the context [ctx]. *)
Definition showCapabilities (env : Startup) (ctx : Ctx) : M unit :=
  r <- call ctx (Show defaultModel) (showResult env) ;;
  match r with
  | Err e => logFatalln [Red ++ "[ERROR]" ++ Reset; "Show failed:"; e]
  | Ok caps =>
    Print (LF ++ Yellow ++ "⚙️  Capabilities of " ++ defaultModel ++ ":" ++ Reset ++ LF) ;;
    printCapabilities caps
  end.

(** The exit test of both loops,
    [strings.ToLower(text) == "exit" || text == "quit"]. *)
Definition isExitCommand (unicode_ToLower : Z -> Z) (text : string) : bool :=
  (strings.ToLower unicode_ToLower text =? "exit")%string || (text =? "quit")%string.

(** What one turn of a loop does to the loop. *)
Inductive Flow : Type := Continue | Break.

(** What the callback of a streaming call keeps between fragments. *)
Record Stream : Type := mkStream {
  fullResponse : string;      (* the strings.Builder *)
  thinkingDone : bool
}.

(** The script of one turn of a loop: what [ReadString] returns, and what the
    server would stream back if it is called on that turn: the fragments,
    then the error of the call, if it fails. *)
Record Turn (R : Type) : Type := mkTurn {
  line : result string;
  frags : list R;
  callError : option string
}.
Arguments mkTurn {R} line frags callError.
Arguments line {R} t.
Arguments frags {R} t.
Arguments callError {R} t.

(** The loop [for { ... }] over the script of the turns: it ends on [Break],
    and is blocked on standard input when the script is used up. *)
Fixpoint forever {R S} (body : S -> Turn R -> M (Flow * S))
    (st : S) (turns : list (Turn R)) : M S :=
  match turns with
  | [] => fun w => (Await, w)
  | t :: turns' =>
    r <- body st t ;;
    match r with
    | (Break, st') => ret st'
    | (Continue, st') => forever body st' turns'
    end
  end.

(** ** [src/main.go]: the single-prompt variant *)

Module GenerateVariant.

Import api.GenerateResponse.

Section Program.

Variable unicode_ToLower : Z -> Z.

Definition maxLen : nat := 100.

(** What is shown of the reasoning text [g.Thinking]. *)
Definition currentThinking (thinking : string) : string :=
  if (maxLen <? String.length thinking)%nat
  then slice thinking 0 maxLen ++ "..."
  else thinking.

(** The line that shows the reasoning, written over the one before it. *)
Definition thinkingLine (thinking : string) : string :=
  CR ++ Yellow ++ "🧠 Thinking..." ++ Reset ++ " " ++ currentThinking thinking ++ EraseLine.

(** The line that ends the display of the reasoning. *)
Definition thoughtComplete : string :=
  CR ++ Green ++ "✅ Thought process complete." ++ Reset ++ EraseLine ++ LF ++ LF.

(** The callback handed to [client.Generate] (lines 158 to 187). *)
Definition callback (g : api.GenerateResponse.t) (st : Stream) : M (Stream * option string) :=
  (if negb (Thinking g =? "")%string && negb (thinkingDone st)
   then Print (thinkingLine (Thinking g))
   else ret tt) ;;
  st1 <- (if negb (Response g =? "")%string && negb (thinkingDone st)
          then Print thoughtComplete ;; ret (mkStream (fullResponse st) true)
          else ret st) ;;
  st2 <- (if negb (Response g =? "")%string
          then Print (Blue ++ Response g ++ Reset) ;;
               ret (mkStream (fullResponse st1 ++ Response g) (thinkingDone st1))
          else ret st1) ;;
  ret (st2, None).

(** [client.Generate] with that callback, from an empty builder. *)
Definition generate (longerCtx : nat) (req : api.GenerateRequest.t)
    (t : Turn api.GenerateResponse.t) : M (Stream * option string) :=
  stream (Scope longerCtx) (Generate req) callback (frags t) (callError t)
         (mkStream "" false).

(** One turn of the loop (lines 127 to 196). *)
Definition iteration (systemMsg : string) (t : Turn api.GenerateResponse.t) : M Flow :=
  Print (LF ++ Green ++ "📝 You: " ++ Reset) ;;
  emit ReadStdin ;;
  match line t with
  | Err e =>
    Println [Red ++ "❌ Error reading input:" ++ Reset; e] ;;
    ret Continue
  | Ok text =>
    let text := strings.TrimSpace text in
    if (text =? "")%string then ret Continue
    else if isExitCommand unicode_ToLower text then
      Println [Blue ++ "👋 Goodbye! Stay safe." ++ Reset] ;;
      ret Break
    else
      longerCtx <- contextWithTimeout 30 ;;
      deferCancel longerCtx ;;
      r <- generate longerCtx
             (api.GenerateRequest.mk defaultModel text systemMsg "low") t ;;
      match snd r with
      | Some e =>
        Print (LF ++ Red ++ "❌ Generation failed:" ++ Reset ++ " " ++ e ++ Reset ++ LF) ;;
        ret Continue
      | None =>
        Println [] ;;
        ret Continue
      end
  end.

(** The loop; it has no state of its own. *)
Definition chatLoop (systemMsg : string) (turns : list (Turn api.GenerateResponse.t)) : M unit :=
  forever (fun (_ : unit) t => f <- iteration systemMsg t ;; ret (f, tt)) tt turns.

(** The connectivity check (lines 53 to 57). *)
Definition connect (env : Startup) (ctx : Ctx) : M unit :=
  Println [Cyan ++ "🔌 Connecting to Ollama..." ++ Reset] ;;
  hb <- call ctx Heartbeat (heartbeatResult env) ;;
  match hb with
  | Some e => logFatalln [Red ++ "[ERROR]" ++ Reset; "Is Ollama running? Connect failed:"; e]
  | None => Println [Green ++ "✅ Connected successfully!" ++ Reset]
  end.

(** [pullProgressFn]. *)
Definition pullProgressFn (status : string) (_ : unit) : M (unit * option string) :=
  (if (status =? "success")%string
   then Print (Green ++ "✅ Pulled model: " ++ status ++ Reset ++ LF)
   else Print ("   " ++ status ++ LF)) ;;
  ret (tt, None).

(** Pulling the embedding model (lines 85 to 98), under
    [context.Background()]. *)
Definition pullEmbeddingModel (env : Startup) : M unit :=
  Print (LF ++ Cyan ++ "🔽 Pulling embedding model:" ++ Reset ++ " "
         ++ embeddingModel ++ "..." ++ Reset ++ LF) ;;
  r <- stream Background (Pull embeddingModel) pullProgressFn
         (fst (pullResult env)) (snd (pullResult env)) tt ;;
  match snd r with
  | Some e => logFatalln [Red ++ "[ERROR]" ++ Reset; "Pull failed:"; e]
  | None => ret tt
  end.

Definition embedInput : string := "Mary had a little lamb".

(** The test embedding (lines 100 to 110); [embedRes.Embeddings[0]] panics
    on an empty answer. *)
Definition testEmbedding (env : Startup) (ctx : Ctx) : M unit :=
  r <- call ctx (Embed embeddingModel embedInput) (embedResult env) ;;
  match r with
  | Err e => logFatalln [Red ++ "[ERROR]" ++ Reset; "Embedding failed:"; e]
  | Ok [] => fun w => (Panic "index out of range [0] with length 0", w)
  | Ok (e0 :: _) =>
    Print (LF ++ Purple ++ "🧮 Generated embedding for:" ++ Reset ++ " '" ++ embedInput
           ++ "' → " ++ Itoa (List.length e0) ++ " dimensions" ++ LF)
  end.

(** Lines 42 to 125: everything before the loop; the result is the context
    [ctx] and the system message. *)
Definition startup (env : Startup) : M (nat * string) :=
  ctx <- contextWithTimeout 5 ;;
  deferCancel ctx ;;
  NewOllamaClient env ;;
  systemMsg <- seedSystemMessage env ;;
  connect env (Scope ctx) ;;
  versionAndModels env (Scope ctx) ;;
  pullEmbeddingModel env ;;
  testEmbedding env (Scope ctx) ;;
  showCapabilities env (Scope ctx) ;;
  Println [LF ++ Blue ++ "🗨️  Start chatting with your AI (type 'exit' to quit)" ++ Reset] ;;
  ret (ctx, systemMsg).

(** [main] of [src/main.go]. *)
Definition main (env : Startup) (turns : list (Turn api.GenerateResponse.t)) : M unit :=
  withDeferred (s <- startup env ;; chatLoop (snd s) turns).

End Program.

End GenerateVariant.

(** ** [src/unnamed/part_000]: the history-keeping variant *)

Module ChatVariant.

Import api.Message api.ChatResponse.

Section Program.

Variable unicode_ToLower : Z -> Z.

(** The callback handed to [client.Chat] (lines 149 to 165); the two tests
    on the reasoning have empty bodies. *)
Definition callback (resp : api.ChatResponse.t) (st : Stream) : M (Stream * option string) :=
  (if (DoneReason resp =? "")%string && (Content (Message resp) =? "")%string
      && negb (thinkingDone st)
   then ret tt else ret tt) ;;
  (if negb (Thinking (Message resp) =? "")%string && negb (thinkingDone st)
   then ret tt else ret tt) ;;
  st1 <- (if negb (Content (Message resp) =? "")%string
          then Print (Blue ++ Content (Message resp) ++ Reset) ;;
               ret (mkStream (fullResponse st ++ Content (Message resp)) (thinkingDone st))
          else ret st) ;;
  ret (st1, None).

(** [client.Chat] with that callback, from an empty builder. *)
Definition chat (longerCtx : nat) (req : api.ChatRequest.t)
    (t : Turn api.ChatResponse.t) : M (Stream * option string) :=
  stream (Scope longerCtx) (Chat req) callback (frags t) (callError t)
         (mkStream "" false).

(** One turn of the loop (lines 113 to 181) on the history [messages]. *)
Definition iteration (messages : list api.Message.t) (t : Turn api.ChatResponse.t)
    : M (Flow * list api.Message.t) :=
  Print (LF ++ Green ++ "📝 You: " ++ Reset) ;;
  emit ReadStdin ;;
  match line t with
  | Err _ => ret (Continue, messages)
  | Ok text =>
    let text := strings.TrimSpace text in
    if (text =? "")%string then ret (Continue, messages)
    else if isExitCommand unicode_ToLower text then
      Println [Blue ++ "👋 Goodbye! Stay safe." ++ Reset] ;;
      ret (Break, messages)
    else
      let messages := (messages ++ [message "user" text])%list in
      longerCtx <- contextWithTimeout 30 ;;
      r <- chat longerCtx (api.ChatRequest.mk defaultModel messages "low") t ;;
      let messages := (messages ++ [message "assistant" (fullResponse (fst r))])%list in
      (match snd r with
       | Some e =>
         Print (LF ++ Red ++ "❌ Generation failed:" ++ Reset ++ " " ++ e ++ Reset ++ LF)
       | None => ret tt
       end) ;;
      Println [] ;;
      cancel longerCtx ;;
      ret (Continue, messages)
  end.

(** The loop, on the history. *)
Definition chatLoop (messages : list api.Message.t) (turns : list (Turn api.ChatResponse.t))
    : M (list api.Message.t) :=
  forever iteration messages turns.

(** The connectivity check (lines 53 to 63). *)
Definition connect (env : Startup) (ctx : Ctx) : M unit :=
  Println [Cyan ++ "🔌 Connecting to Ollama..." ++ Reset] ;;
  hb <- call ctx Heartbeat (heartbeatResult env) ;;
  match hb with
  | Some _ =>
    Eprint (LF ++ Red ++ "❌  OLLAMA CONNECTION FAILED" ++ Reset ++ LF) ;;
    Eprint ("────────────────────────────────────" ++ LF) ;;
    Eprint ("📡  Could not reach Ollama at http://127.0.0.1:11434" ++ LF) ;;
    Eprint ("💡  Tip: Start Ollama with: " ++ Yellow ++ "ollama serve" ++ Reset ++ LF) ;;
    Eprint ("📦  Get Ollama: https://ollama.com/download" ++ LF) ;;
    Eprint ("────────────────────────────────────" ++ LF ++ LF) ;;
    osExit 1
  | None => Println [Green ++ "✅ Connected successfully!" ++ Reset]
  end.

(** Lines 42 to 111: everything before the loop; the result is the context
    [ctx] and the initial history. *)
Definition startup (env : Startup) : M (nat * list api.Message.t) :=
  ctx <- contextWithTimeout 5 ;;
  deferCancel ctx ;;
  NewOllamaClient env ;;
  systemMsg <- seedSystemMessage env ;;
  connect env (Scope ctx) ;;
  versionAndModels env (Scope ctx) ;;
  showCapabilities env (Scope ctx) ;;
  Println [LF ++ Blue ++ "🗨️  Start chatting with your AI (type 'exit' to quit)" ++ Reset] ;;
  ret (ctx, [message "system" systemMsg]).

(** [main] of [src/unnamed/part_000]. *)
Definition main (env : Startup) (turns : list (Turn api.ChatResponse.t)) : M unit :=
  withDeferred (s <- startup env ;; chatLoop (snd s) turns ;; ret tt).

End Program.

End ChatVariant.

(** * The vocabulary of the properties *)

(** ** Texts, events and worlds *)

(** The text of a stream: the visible texts of its fragments, joined in the
    order of arrival. *)
Definition concatText (texts : list string) : string :=
  fold_right append "" texts.

(** The test [s != ""] of the callbacks. *)
Definition nonEmpty (s : string) : bool := negb (s =? "")%string.

(** The lower-case ASCII letters. *)
Definition isLower (c : Z) : bool := ((0x61 <=? c) && (c <=? 0x7A))%Z.

(** Two bytes are the same letter up to case: they are equal, or they are
    the upper-case and the lower-case form of one ASCII letter. *)
Definition sameLetter (a b : ascii) : bool :=
  (a =? b)%char
  || ((strings.isUpper (b2z a) && isLower (b2z b) && (b2z a + 32 =? b2z b)%Z)
      || (isLower (b2z a) && strings.isUpper (b2z b) && (b2z b + 32 =? b2z a)%Z)).

(** Two strings match case-insensitively. *)
Fixpoint caseInsensitiveEq (s t : string) : bool :=
  match s, t with
  | "", "" => true
  | String a s', String b t' => sameLetter a b && caseInsensitiveEq s' t'
  | _, _ => false
  end.

(** The world after some more events. *)
Definition after (w : World) (evs : list Event) : World :=
  mkWorld (trace w ++ evs)%list (scopes w) (deferred w).

(** What the answer text of a stream prints: a non-empty text in blue. *)
Definition answerEvents (texts : list string) : list Event :=
  flat_map (fun c => if (c =? "")%string then [] else [Stdout (Blue ++ c ++ Reset)]) texts.

(** What is printed when a completion call fails. *)
Definition failureLine (e : string) : string :=
  LF ++ Red ++ "❌ Generation failed:" ++ Reset ++ " " ++ e ++ Reset ++ LF.

(** The prompt of both loops. *)
Definition promptLine : string := LF ++ Green ++ "📝 You: " ++ Reset.

(** The farewell of both loops, as [fmt.Println] writes it. *)
Definition goodbyeLine : string := Blue ++ "👋 Goodbye! Stay safe." ++ Reset ++ LF.

(** The events that write to the standard error stream. *)
Definition toStderr (e : Event) : bool :=
  match e with
  | Stderr _ | Log _ => true
  | _ => false
  end.

(** The events that are calls to the model server. *)
Definition isCall (e : Event) : bool :=
  match e with
  | Call _ _ => true
  | _ => false
  end.

(** The events that show the reasoning text: what starts like
    [thinkingLine]. *)
Definition showsThinking (e : Event) : bool :=
  match e with
  | Stdout s => prefix (CR ++ Yellow ++ "🧠 Thinking...") s
  | _ => false
  end.

(** The events that make, cancel or use a context. *)
Definition isContextEvent (e : Event) : bool :=
  match e with
  | WithTimeout _ _ | Cancel _ | Call _ _ => true
  | _ => false
  end.

(** The visible texts of the fragments of a chat answer. *)
Definition contents (frags : list api.ChatResponse.t) : list string :=
  map (fun resp => api.Message.Content (api.ChatResponse.Message resp)) frags.

(** The visible texts of the fragments of a generated answer. *)
Definition responses (frags : list api.GenerateResponse.t) : list string :=
  map api.GenerateResponse.Response frags.

(** What the callback prints for one fragment, [done] being [thinkingDone]
    when the fragment arrives. *)
Definition rendering (done : bool) (g : api.GenerateResponse.t) : list Event :=
  ((if negb (api.GenerateResponse.Thinking g =? "")%string && negb done
    then [Stdout (GenerateVariant.thinkingLine (api.GenerateResponse.Thinking g))] else [])
   ++ (if negb (api.GenerateResponse.Response g =? "")%string && negb done
       then [Stdout GenerateVariant.thoughtComplete] else [])
   ++ answerEvents [api.GenerateResponse.Response g])%list.

(** What the callback prints for the fragments of a call, one after the
    other. *)
Fixpoint renderings (done : bool) (frags : list api.GenerateResponse.t) : list Event :=
  match frags with
  | [] => []
  | g :: frags' =>
    (rendering done g ++ renderings (done || nonEmpty (api.GenerateResponse.Response g)) frags')%list
  end.

(** A stand-in for [unicode.ToLower] where only ASCII text is lowered. *)
Definition idRune (r : Z) : Z := r.

(** A fragment of a chat answer with the visible text [text]. *)
Definition chatFragment (text : string) : api.ChatResponse.t :=
  api.ChatResponse.mk (message "assistant" text) "".

(** The events of a world that another one does not have yet. *)
Definition newEvents (w w' : World) : list Event :=
  skipn (List.length (trace w)) (trace w').

(** A failed completion call is reported on the standard error stream, the
    history keeps what was appended, and the loop goes on: the sentence of
    the specification, for the history-keeping variant. *)
Definition failureReportedOnStderr : Prop :=
  forall (f : Z -> Z) (messages : list api.Message.t) (t : Turn api.ChatResponse.t)
         (w : World) (input e : string),
    line t = Ok input ->
    strings.TrimSpace input <> "" ->
    isExitCommand f (strings.TrimSpace input) = false ->
    callError t = Some e ->
    existsb toStderr (newEvents w (snd (ChatVariant.iteration f messages t w))) = true
    /\ fst (ChatVariant.iteration f messages t w)
       = Ret (Continue,
              (messages
               ++ [message "user" (strings.TrimSpace input);
                   message "assistant" (concatText (contents (frags t)))])%list).

(** A turn whose line is a new user turn: read without error, not empty
    once trimmed, and not an exit command. *)
Definition isUserTurn {R : Type} (f : Z -> Z) (t : Turn R) : Prop :=
  exists input : string,
    line t = Ok input
    /\ strings.TrimSpace input <> ""
    /\ isExitCommand f (strings.TrimSpace input) = false.

(** The scopes held each time a line is read from the standard input. *)
Fixpoint heldAtReads (t : list Event) (acc : list nat) : list (list nat) :=
  match t with
  | [] => []
  | ReadStdin :: t' => acc :: heldAtReads t' acc
  | WithTimeout id _ :: t' => heldAtReads t' (acc ++ [id])%list
  | Cancel id :: t' => heldAtReads t' (remove Nat.eq_dec id acc)
  | _ :: t' => heldAtReads t' acc
  end.

(** The script of a line typed at the terminal, to which the server would
    stream nothing back. *)
Definition say {R : Type} (text : string) : Turn R :=
  mkTurn (Ok (text ++ LF)) [] None.

(** A model server that is up, with the two models of the programs. *)
Definition serverUp : Startup :=
  mkStartup None
            (fun _ => Err "open system.txt: no such file or directory")
            None
            (Ok "0.11.4")
            (Ok ["gpt-oss:20b"; "nomic-embed-text"])
            (["pulling manifest"; "success"], None)
            (Ok [[0x3C23D70A; 0xBD4CCCCD; 0x3E19999A]%Z])
            (Ok ["completion"; "thinking"]).

(** [runs m a evs]: from any world, [m] returns [a], and the context events
    among what it does are [evs]. *)
Definition runs {A} (m : M A) (a : A) (evs : list Event) : Prop :=
  forall w : World,
  exists all : list Event,
    m w = (Ret a, after w all) /\ filter isContextEvent all = evs.

(** The answers with which the start-up of [src/main.go] reaches the loop. *)
Definition reachesLoop (env : Startup) : Prop :=
  clientFromEnvironment env = None
  /\ heartbeatResult env = None
  /\ (exists v, versionResult env = Ok v)
  /\ (exists models, listResult env = Ok models)
  /\ snd (pullResult env) = None
  /\ (exists e0 es, embedResult env = Ok (e0 :: es))
  /\ (exists caps, showResult env = Ok caps).

(** The scope of 5 seconds bounds the connectivity check only: no other call
    of the start-up is made under it.  The sentence of the specification,
    for [src/main.go]. *)
Definition shortScopeGuardsHeartbeatOnly : Prop :=
  forall (env : Startup) (w : World) (id : nat) (ctx : Ctx) (req : Request),
    let evs := newEvents w (snd (GenerateVariant.startup env w)) in
    In (WithTimeout id 5) evs ->
    In (Call ctx req) evs ->
    req <> Heartbeat ->
    ctx <> Scope id.

(** ** Byte strings and white space *)

(** Go's [s[:n]]. *)
Fixpoint take (n : nat) (s : string) : string :=
  match n, s with
  | O, _ => ""
  | S _, "" => ""
  | S n', String c s' => String c (take n' s')
  end.

(** The [n] numbers from [lo] on, and the numbers from [lo] to [hi]. *)
Fixpoint upFrom (lo : Z) (n : nat) : list Z :=
  match n with
  | O => []
  | S n' => lo :: upFrom (lo + 1) n'
  end.

Definition range (lo hi : Z) : list Z := upFrom lo (Z.to_nat (hi + 1 - lo)).

(** The white space characters of Unicode. *)
Definition spaceRunes : list Z :=
  [0x09; 0x0A; 0x0B; 0x0C; 0x0D; 0x20; 0x85; 0xA0; 0x1680;
   0x2000; 0x2001; 0x2002; 0x2003; 0x2004; 0x2005; 0x2006; 0x2007; 0x2008;
   0x2009; 0x200A; 0x2028; 0x2029; 0x202F; 0x205F; 0x3000]%Z.

(** The rune of two, three and four bytes. *)
Definition rune2 (s0 s1 : Z) : Z :=
  Z.lor (Z.shiftl (Z.land s0 utf8.mask2) 6) (Z.land s1 utf8.maskx).

Definition rune3 (s0 s1 s2 : Z) : Z :=
  Z.lor (Z.lor (Z.shiftl (Z.land s0 utf8.mask3) 12)
               (Z.shiftl (Z.land s1 utf8.maskx) 6))
        (Z.land s2 utf8.maskx).

Definition rune4 (s0 s1 s2 s3 : Z) : Z :=
  Z.lor (Z.lor (Z.lor (Z.shiftl (Z.land s0 utf8.mask4) 18)
                      (Z.shiftl (Z.land s1 utf8.maskx) 12))
               (Z.shiftl (Z.land s2 utf8.maskx) 6))
        (Z.land s3 utf8.maskx).

(** What [DecodeRuneInString] can answer, by the width of the rune. *)
Inductive decoded : string -> Z -> nat -> Prop :=
| decoded_empty : decoded "" utf8.RuneError 0
| decoded_ascii c t :
    (b2z c < 0x80)%Z -> decoded (String c t) (b2z c) 1
| decoded_invalid c t :
    (0x80 <= b2z c)%Z -> decoded (String c t) utf8.RuneError 1
| decoded_two c0 c1 t :
    (0xC2 <= b2z c0 <= 0xDF)%Z -> (0x80 <= b2z c1 <= 0xBF)%Z ->
    decoded (String c0 (String c1 t)) (rune2 (b2z c0) (b2z c1)) 2
| decoded_three c0 c1 c2 t :
    (0xE0 <= b2z c0 <= 0xEF)%Z -> (0x80 <= b2z c1 <= 0xBF)%Z ->
    (b2z c0 = 0xE0 -> 0xA0 <= b2z c1)%Z ->
    (0x80 <= b2z c2 <= 0xBF)%Z ->
    decoded (String c0 (String c1 (String c2 t)))
            (rune3 (b2z c0) (b2z c1) (b2z c2)) 3
| decoded_four c0 c1 c2 c3 t :
    (0xF0 <= b2z c0 <= 0xF4)%Z -> (0x80 <= b2z c1 <= 0xBF)%Z ->
    (b2z c0 = 0xF0 -> 0x90 <= b2z c1)%Z ->
    decoded (String c0 (String c1 (String c2 (String c3 t))))
            (rune4 (b2z c0) (b2z c1) (b2z c2) (b2z c3)) 4.

(** A string of white space only: the encodings of white space characters,
    one after the other. *)
Inductive Whitespace : string -> Prop :=
| Whitespace_empty : Whitespace ""
| Whitespace_rune (r : Z) (s : string) :
    unicode.IsSpace r = true -> Whitespace s -> Whitespace (utf8.EncodeRune r ++ s).

(** A string with nothing left to trim: it is empty, or neither its first
    nor its last rune is white space. *)
Definition Trimmed (t : string) : Prop :=
  t = ""
  \/ (unicode.IsSpace (fst (utf8.DecodeRuneInString t)) = false
      /\ unicode.IsSpace (fst (utf8.DecodeLastRuneInString t)) = false).

(** No white space character is encoded at either end of the string. *)
Definition noSpaceAtEnds (t : string) : Prop :=
  forall (r : Z) (u : string),
    unicode.IsSpace r = true ->
    t <> utf8.EncodeRune r ++ u /\ t <> u ++ utf8.EncodeRune r.

(** The system message of a session: the trimmed contents of [system.txt]
    when the file can be read, the fallback otherwise. *)
Definition seededMessage (env : Startup) : string :=
  match readFile env "system.txt" with
  | Ok data => strings.TrimSpace data
  | Err _ => fallbackSystemMessage
  end.

(** The answers [env], but with a file [system.txt] of contents [data]. *)
Definition withSystemFile (env : Startup) (data : string) : Startup :=
  mkStartup (clientFromEnvironment env)
            (fun name => if (name =? "system.txt")%string then Ok data
                         else readFile env name)
            (heartbeatResult env) (versionResult env) (listResult env)
            (pullResult env) (embedResult env) (showResult env).

(** ** Turns, loops and the start-up *)

(** What a turn of either loop is, by the line it reads. *)
Inductive TurnKind : Type :=
| ReadFailed (e : string)
| BlankLine
| ExitCommand
| UserTurn (text : string).

Definition turnKind {R : Type} (f : Z -> Z) (t : Turn R) : TurnKind :=
  match line t with
  | Err e => ReadFailed e
  | Ok input =>
    let text := strings.TrimSpace input in
    if (text =? "")%string then BlankLine
    else if isExitCommand f text then ExitCommand
    else UserTurn text
  end.

Definition isExitTurn {R : Type} (f : Z -> Z) (t : Turn R) : bool :=
  match turnKind f t with
  | ExitCommand => true
  | _ => false
  end.

Definition isUserKind {R : Type} (f : Z -> Z) (t : Turn R) : bool :=
  match turnKind f t with
  | UserTurn _ => true
  | _ => false
  end.

(** The turns before the first exit command. *)
Fixpoint untilExit {R : Type} (f : Z -> Z) (turns : list (Turn R)) : list (Turn R) :=
  match turns with
  | [] => []
  | t :: turns' => if isExitTurn f t then [] else t :: untilExit f turns'
  end.

(** The script has an exit command. *)
Definition hasExit {R : Type} (f : Z -> Z) (turns : list (Turn R)) : bool :=
  existsb (isExitTurn f) turns.

(** What a turn adds to the history. *)
Definition exchange (f : Z -> Z) (t : Turn api.ChatResponse.t) : list api.Message.t :=
  match turnKind f t with
  | UserTurn text =>
    [message "user" text; message "assistant" (concatText (contents (frags t)))]
  | _ => []
  end.

(** What a user turn of the history-keeping variant does: scope [c],
    history [history] with the user turn. *)
Definition chatTurnEvents (c : nat) (history : list api.Message.t)
    (t : Turn api.ChatResponse.t) : list Event :=
  ([Stdout promptLine; ReadStdin; WithTimeout c 30;
    Call (Scope c) (Chat (api.ChatRequest.mk defaultModel history "low"))]
   ++ answerEvents (contents (frags t))
   ++ match callError t with
      | Some e => [Stdout (failureLine e)]
      | None => []
      end
   ++ [Stdout LF; Cancel c])%list.

(** What a user turn of the single-prompt variant does. *)
Definition generateTurnEvents (c : nat) (systemMsg text : string)
    (t : Turn api.GenerateResponse.t) : list Event :=
  ([Stdout promptLine; ReadStdin; WithTimeout c 30;
    Call (Scope c) (Generate (api.GenerateRequest.mk defaultModel text systemMsg "low"))]
   ++ renderings false (frags t)
   ++ [match callError t with
       | Some e => Stdout (failureLine e)
       | None => Stdout LF
       end])%list.

(** What is printed when a line cannot be read, in [src/main.go]. *)
Definition readErrorLine (e : string) : string :=
  Sprintln [Red ++ "❌ Error reading input:" ++ Reset; e].

(** The number of user turns before the first exit command. *)
Definition userTurns {R : Type} (f : Z -> Z) (turns : list (Turn R)) : nat :=
  List.length (filter (isUserKind f) (untilExit f turns)).

(** What the loop of the history-keeping variant does on a script, from
    the scope counter [c] and the history [messages]. *)
Fixpoint chatLoopEvents (f : Z -> Z) (c : nat) (messages : list api.Message.t)
    (turns : list (Turn api.ChatResponse.t)) : list Event :=
  match turns with
  | [] => []
  | t :: turns' =>
    match turnKind f t with
    | ReadFailed _ | BlankLine =>
      ([Stdout promptLine; ReadStdin] ++ chatLoopEvents f c messages turns')%list
    | ExitCommand => [Stdout promptLine; ReadStdin; Stdout goodbyeLine]
    | UserTurn text =>
      (chatTurnEvents c (messages ++ [message "user" text]) t
       ++ chatLoopEvents f (S c) (messages ++ exchange f t) turns')%list
    end
  end.

(** What the loop of the single-prompt variant does on a script. *)
Fixpoint generateLoopEvents (f : Z -> Z) (c : nat) (systemMsg : string)
    (turns : list (Turn api.GenerateResponse.t)) : list Event :=
  match turns with
  | [] => []
  | t :: turns' =>
    match turnKind f t with
    | ReadFailed e =>
      ([Stdout promptLine; ReadStdin; Stdout (readErrorLine e)]
       ++ generateLoopEvents f c systemMsg turns')%list
    | BlankLine =>
      ([Stdout promptLine; ReadStdin] ++ generateLoopEvents f c systemMsg turns')%list
    | ExitCommand => [Stdout promptLine; ReadStdin; Stdout goodbyeLine]
    | UserTurn text =>
      (generateTurnEvents c systemMsg text t
       ++ generateLoopEvents f (S c) systemMsg turns')%list
    end
  end.

(** User and assistant turns, in pairs. *)
Fixpoint inPairs (history : list api.Message.t) : bool :=
  match history with
  | [] => true
  | u :: rest =>
    match rest with
    | [] => false
    | a :: rest' =>
      (api.Message.Role u =? "user")%string
      && (api.Message.Role a =? "assistant")%string
      && inPairs rest'
    end
  end.

(** A history as the loop keeps it: the system turn, then user and assistant
    turns in pairs. *)
Definition wellFormed (history : list api.Message.t) : bool :=
  match history with
  | [] => false
  | s :: rest => (api.Message.Role s =? "system")%string && inPairs rest
  end.

(** The events that read a line. *)
Definition isRead (e : Event) : bool :=
  match e with
  | ReadStdin => true
  | _ => false
  end.

(** The number of lines a loop reads on a script: those before the first
    exit command, and the exit command. *)
Definition linesRead {R : Type} (f : Z -> Z) (turns : list (Turn R)) : nat :=
  List.length (untilExit f turns) + (if hasExit f turns then 1 else 0).

(** The events that print the line "Thought process complete". *)
Definition isThoughtComplete (e : Event) : bool :=
  match e with
  | Stdout s => (s =? GenerateVariant.thoughtComplete)%string
  | _ => false
  end.

(** What the start-up does once its scope is made: it prints, logs, reads
    the file of the system message and calls the server, but not for a
    completion. *)
Definition isStartupEvent (e : Event) : bool :=
  match e with
  | Stdout _ | Stderr _ | Log _ | ReadFile _ => true
  | Call _ (Chat _) | Call _ (Generate _) => false
  | Call _ _ => true
  | ReadStdin | WithTimeout _ _ | Cancel _ => false
  end.

(** What belongs to the session: reading a line, and a completion call. *)
Definition isSessionEvent (e : Event) : bool :=
  match e with
  | ReadStdin => true
  | Call _ (Chat _) | Call _ (Generate _) => true
  | _ => false
  end.

(** [block m ok pn]: from any world, [m] does start-up events only; it
    returns exactly when [ok], panics exactly when [pn], and otherwise exits
    with status 1. *)
Definition block {A : Type} (m : M A) (ok pn : Prop) : Prop :=
  forall w : World,
  exists evs : list Event,
    snd (m w) = after w evs
    /\ forallb isStartupEvent evs = true
    /\ match fst (m w) with
       | Ret _ => ok /\ ~ pn
       | Exit c => c = 1%Z /\ ~ ok /\ ~ pn
       | Panic _ => pn /\ ~ ok
       | Await => False
       end.

(** [yields m a]: from any world, [m] does start-up events only and
    returns [a]. *)
Definition yields {A : Type} (m : M A) (a : A) : Prop :=
  forall w : World,
  exists evs : list Event,
    m w = (Ret a, after w evs) /\ forallb isStartupEvent evs = true.

(** The answers with which the start-up of [src/unnamed/part_000] reaches
    the loop. *)
Definition chatReachesLoop (env : Startup) : Prop :=
  clientFromEnvironment env = None
  /\ heartbeatResult env = None
  /\ (exists v, versionResult env = Ok v)
  /\ (exists models, listResult env = Ok models)
  /\ (exists caps, showResult env = Ok caps).

(** The answers with which the start-up of [src/main.go] gets an answer
    without embeddings to its test embedding. *)
Definition emptyEmbedding (env : Startup) : Prop :=
  clientFromEnvironment env = None
  /\ heartbeatResult env = None
  /\ (exists v, versionResult env = Ok v)
  /\ (exists models, listResult env = Ok models)
  /\ snd (pullResult env) = None
  /\ embedResult env = Ok [].

(** A model server that does not answer. *)
Definition serverDown : Startup :=
  mkStartup None
            (fun _ => Err "open system.txt: no such file or directory")
            (Some "dial tcp 127.0.0.1:11434: connect: connection refused")
            (Err "unreachable") (Err "unreachable") ([], Some "unreachable")
            (Err "unreachable") (Err "unreachable").

(** [returnsOnly m Q]: whatever [m] returns satisfies [Q]. *)
Definition returnsOnly {A : Type} (m : M A) (Q : A -> Prop) : Prop :=
  forall (w : World) (a : A) (w' : World), m w = (Ret a, w') -> Q a.

(** * Properties *)

(** ** The model on some inputs *)

Example TrimSpace_ascii :
  strings.TrimSpace ("  hello  world " ++ String "009"%char "" ++ CR ++ LF) = "hello  world".
Proof. reflexivity. Qed.

Example TrimSpace_no_break_space :
  strings.TrimSpace (bytes [0xC2; 0xA0]%Z ++ " exit" ++ bytes [0xE3; 0x80; 0x80]%Z ++ LF)
  = "exit".
Proof. reflexivity. Qed.

Example TrimSpace_keeps_invalid_bytes :
  strings.TrimSpace (" a" ++ bytes [0xE2; 0x80]%Z ++ " " ++ bytes [0xE2; 0x80; 0x8A]%Z)
  = "a" ++ bytes [0xE2; 0x80]%Z.
Proof. reflexivity. Qed.

Example ToLower_ascii : strings.ToLower idRune "ExIT Now" = "exit now".
Proof. reflexivity. Qed.

Example DecodeRune_cross_mark :
  utf8.DecodeRuneInString "❌ Generation failed:" = (0x274C%Z, 3).
Proof. reflexivity. Qed.

Example DecodeLastRune_em_space :
  utf8.DecodeLastRuneInString ("a" ++ bytes [0xE2; 0x80; 0x83]%Z) = (0x2003%Z, 3).
Proof. reflexivity. Qed.

Example isExitCommand_examples :
  isExitCommand idRune "Exit" = true
  /\ isExitCommand idRune "quit" = true
  /\ isExitCommand idRune "Quit" = false
  /\ isExitCommand idRune "exit now" = false.
Proof. repeat split. Qed.

Example chat_session :
  fst (ChatVariant.chatLoop idRune [message "system" fallbackSystemMessage]
         [mkTurn (Ok ("hello" ++ LF)) [chatFragment "Hi"; chatFragment " there"] None;
          mkTurn (Ok LF) [] None;
          mkTurn (Err "EOF") [] None;
          mkTurn (Ok ("why?" ++ LF)) [chatFragment "Be"] (Some "timeout");
          mkTurn (Ok ("EXIT" ++ LF)) [] None]
         World0)
  = Ret [message "system" fallbackSystemMessage;
         message "user" "hello"; message "assistant" "Hi there";
         message "user" "why?"; message "assistant" "Be"].
Proof. reflexivity. Qed.

(** ** Byte strings *)

Lemma append_empty_r (s : string) : s ++ "" = s.
Proof. induction s as [|c s IH]; simpl; [reflexivity | now rewrite IH]. Qed.

Lemma append_assoc (a b c : string) : (a ++ b) ++ c = a ++ (b ++ c).
Proof. induction a as [|x a IH]; simpl; [reflexivity | now rewrite IH]. Qed.

Lemma length_append (a b : string) :
  String.length (a ++ b) = String.length a + String.length b.
Proof. induction a as [|x a IH]; simpl; [reflexivity | now rewrite IH]. Qed.

Lemma b2z_range (c : ascii) : (0 <= b2z c < 256)%Z.
Proof. unfold b2z. pose proof (nat_ascii_bounded c). lia. Qed.

Lemma z2b_b2z (c : ascii) : z2b (b2z c) = c.
Proof.
  unfold z2b. pose proof (b2z_range c).
  rewrite Z.mod_small by lia. unfold b2z.
  rewrite Nat2Z.id. apply ascii_nat_embedding.
Qed.

Lemma b2z_inj (a b : ascii) : b2z a = b2z b -> a = b.
Proof. intros H. rewrite <- (z2b_b2z a), <- (z2b_b2z b). now rewrite H. Qed.

Lemma concatText_nonEmpty (texts : list string) :
  concatText (filter nonEmpty texts) = concatText texts.
Proof.
  induction texts as [|x texts IH]; simpl; [reflexivity|].
  unfold nonEmpty at 1. destruct (String.eqb_spec x "") as [->|_]; simpl.
  - exact IH.
  - now rewrite IH.
Qed.

Lemma length_substring (s : string) :
  forall n m : nat,
  n + m <= String.length s -> String.length (substring n m s) = m.
Proof.
  induction s as [|c s IH]; intros n m H; simpl in *.
  - destruct n, m; simpl; lia.
  - destruct n as [|n].
    + destruct m as [|m]; simpl; [reflexivity|].
      rewrite IH by lia. reflexivity.
    + apply IH. lia.
Qed.

(** ** Decoding UTF-8 and trimming white space *)

Lemma substring_0 (s : string) : forall n, substring 0 n s = take n s.
Proof.
  induction s as [|c s IH]; intros [|n]; simpl; try reflexivity.
  now rewrite IH.
Qed.

Lemma substring_drop (s : string) : forall n m, substring n m s = take m (drop n s).
Proof.
  induction s as [|c s IH]; intros [|n] m; simpl.
  - destruct m; reflexivity.
  - destruct m; reflexivity.
  - rewrite <- substring_0. reflexivity.
  - apply IH.
Qed.

Lemma slice_take_drop (s : string) (lo hi : nat) : slice s lo hi = take (hi - lo) (drop lo s).
Proof. apply substring_drop. Qed.

Lemma take_drop (s : string) : forall n, take n s ++ drop n s = s.
Proof.
  induction s as [|c s IH]; intros [|n]; simpl; try reflexivity.
  now rewrite IH.
Qed.

Lemma take_all (s : string) : forall n, String.length s <= n -> take n s = s.
Proof.
  induction s as [|c s IH]; intros [|n] H; simpl in *; try reflexivity; try lia.
  rewrite IH by lia. reflexivity.
Qed.

Lemma length_take (s : string) : forall n, n <= String.length s -> String.length (take n s) = n.
Proof.
  induction s as [|c s IH]; intros [|n] H; simpl in *; try reflexivity; try lia.
  rewrite IH by lia. reflexivity.
Qed.

Lemma length_drop (s : string) : forall n, String.length (drop n s) = String.length s - n.
Proof.
  induction s as [|c s IH]; intros [|n]; simpl; try reflexivity.
  apply IH.
Qed.

Lemma drop_app (a b : string) : drop (String.length a) (a ++ b) = b.
Proof. induction a as [|c a IH]; simpl; [reflexivity | exact IH]. Qed.

Lemma take_app (a b : string) : take (String.length a) (a ++ b) = a.
Proof. induction a as [|c a IH]; simpl; [destruct b; reflexivity | now rewrite IH]. Qed.

Lemma drop_drop (s : string) : forall n m, drop n (drop m s) = drop (m + n) s.
Proof.
  induction s as [|c s IH]; intros n [|m]; simpl; try reflexivity.
  - destruct n; reflexivity.
  - apply IH.
Qed.

Lemma byteAt_drop (s : string) : forall i, byteAt s i = byteAt (drop i s) 0.
Proof.
  unfold byteAt.
  induction s as [|c s IH]; intros [|i]; simpl; try reflexivity.
  apply IH.
Qed.

Lemma in_upFrom (n : nat) :
  forall lo z : Z, (lo <= z < lo + Z.of_nat n)%Z -> In z (upFrom lo n).
Proof.
  induction n as [|n IH]; intros lo z H; [lia|].
  simpl. destruct (Z.eq_dec lo z) as [E|N]; [left; exact E|].
  right. apply IH. lia.
Qed.

Lemma in_range (lo hi z : Z) : (lo <= z <= hi)%Z -> In z (range lo hi).
Proof. intros H. unfold range. apply in_upFrom. lia. Qed.

Lemma forall_range (P : Z -> bool) (lo hi : Z) :
  forallb P (range lo hi) = true ->
  forall z : Z, (lo <= z <= hi)%Z -> P z = true.
Proof.
  intros H z Hz. rewrite forallb_forall in H. apply H. now apply in_range.
Qed.

Lemma IsSpace_spaceRunes (r : Z) :
  unicode.IsSpace r = true <-> In r spaceRunes.
Proof.
  split.
  - intros H.
    destruct (Z_lt_le_dec r 0) as [Neg|Pos].
    { exfalso. unfold unicode.IsSpace in H.
      replace (0 <=? r)%Z with false in H by (symmetry; apply Z.leb_gt; lia).
      cbn in H.
      repeat (match type of H with
              | context [(?a <=? r)%Z] =>
                replace (a <=? r)%Z with false in H by (symmetry; apply Z.leb_gt; lia)
              end; cbn in H).
      discriminate. }
    destruct (Z_le_gt_dec r 0x3000) as [Le|Gt].
    + assert (C : forallb (fun z => if unicode.IsSpace z
                                    then existsb (Z.eqb z) spaceRunes else true)
                          (range 0 0x3000) = true) by (vm_compute; reflexivity).
      pose proof (forall_range _ _ _ C r (conj Pos Le)) as Hr.
      cbv beta in Hr. rewrite H in Hr.
      apply existsb_exists in Hr. destruct Hr as (x & Hx & E).
      apply Z.eqb_eq in E. now subst x.
    + exfalso. unfold unicode.IsSpace in H.
      replace (r <=? unicode.MaxLatin1)%Z with false in H
        by (symmetry; apply Z.leb_gt; unfold unicode.MaxLatin1; lia).
      rewrite andb_false_r in H. cbn in H.
      repeat (match type of H with
              | context [(r <=? ?a)%Z] =>
                replace (r <=? a)%Z with false in H by (symmetry; apply Z.leb_gt; lia)
              end; rewrite ?andb_false_r in H; cbn in H).
      discriminate.
  - intros H. cbn in H.
    repeat (destruct H as [<-|H]; [reflexivity|]). contradiction.
Qed.

(** A white space character is decoded from its encoding, whatever
    follows. *)
Lemma decode_encoded_space (r : Z) (t : string) :
  unicode.IsSpace r = true ->
  utf8.DecodeRuneInString (utf8.EncodeRune r ++ t)
  = (r, String.length (utf8.EncodeRune r)).
Proof.
  intros H. apply IsSpace_spaceRunes in H. cbn in H.
  repeat (destruct H as [<-|H]; [reflexivity|]). contradiction.
Qed.

Lemma encoded_space_length (r : Z) :
  unicode.IsSpace r = true -> 1 <= String.length (utf8.EncodeRune r) <= 3.
Proof.
  intros H. apply IsSpace_spaceRunes in H. cbn in H.
  repeat (destruct H as [<-|H]; [cbn; lia|]). contradiction.
Qed.

Ltac split_first s0 :=
  unfold utf8.first;
  repeat match goal with
         | |- context [(s0 <? ?a)%Z] => destruct (Z.ltb_spec s0 a)
         | |- context [(s0 =? ?a)%Z] => destruct (Z.eqb_spec s0 a)
         end.

(** Evaluate the tests on the entry of the table [first]. *)
Ltac eval_closed :=
  repeat match goal with
         | |- context [Z.shiftr (Zpos ?p) 4] =>
           let v := eval vm_compute in (Z.shiftr (Zpos p) 4) in
           change (Z.shiftr (Zpos p) 4) with v
         | |- context [Z.land (Zpos ?p) 7] =>
           let v := eval vm_compute in (Z.land (Zpos p) 7) in
           change (Z.land (Zpos p) 7) with v
         | |- context [Z.odd (Zpos ?p)] =>
           let v := eval vm_compute in (Z.odd (Zpos p)) in
           change (Z.odd (Zpos p)) with v
         | |- context [Z.leb (Zpos ?p) (Zpos ?q)] =>
           let v := eval vm_compute in (Z.leb (Zpos p) (Zpos q)) in
           change (Z.leb (Zpos p) (Zpos q)) with v
         end;
  cbn [utf8.acceptRanges fst snd].

(** The test of a byte against a range of continuation bytes. *)
Ltac split_range :=
  match goal with
  | |- context [((?x <? ?a) || (?b <? ?x))%Z] =>
    destruct (Z.ltb_spec x a); [cbn [orb]|destruct (Z.ltb_spec b x); cbn [orb]]
  end.

Lemma decode_decoded (s : string) :
  decoded s (fst (utf8.DecodeRuneInString s)) (snd (utf8.DecodeRuneInString s)).
Proof.
  destruct s as [|c0 r0]; [constructor|].
  unfold utf8.DecodeRuneInString. cbv zeta.
  pose proof (b2z_range c0) as R0.
  split_first (b2z c0); eval_closed; try (constructor; lia).
  all: destruct r0 as [|c1 r1]; [cbn [fst snd]; constructor; lia|].
  all: pose proof (b2z_range c1) as R1.
  all: unfold utf8.locb, utf8.hicb.
  all: split_range; try (cbn [fst snd]; constructor; lia).
  all: try (apply decoded_two; lia).
  all: destruct r1 as [|c2 r2]; [cbn [fst snd]; constructor; lia|].
  all: pose proof (b2z_range c2) as R2.
  all: split_range; try (cbn [fst snd]; constructor; lia).
  all: try (apply decoded_three; lia).
  all: destruct r2 as [|c3 r3]; [cbn [fst snd]; constructor; lia|].
  all: pose proof (b2z_range c3) as R3.
  all: split_range; try (cbn [fst snd]; constructor; lia).
  all: apply decoded_four; lia.
Qed.

Lemma bytes_one (c : ascii) : bytes [b2z c] = String c "".
Proof. unfold bytes; simpl. now rewrite z2b_b2z. Qed.

Lemma lor_above (a b : Z) :
  (0 <= a)%Z -> (0 <= b)%Z -> (2 ^ 16 <= a)%Z -> (2 ^ 16 <= Z.lor a b)%Z.
Proof.
  intros Ha Hb H.
  assert (Hl : (0 <= Z.lor a b)%Z) by (apply Z.lor_nonneg; split; assumption).
  assert (La : (16 <= Z.log2 a)%Z) by (apply Z.log2_le_pow2; lia).
  assert (Ll : (16 <= Z.log2 (Z.lor a b))%Z) by (rewrite Z.log2_lor by assumption; lia).
  destruct (Z.eq_dec (Z.lor a b) 0) as [E|N].
  - rewrite E in Ll. cbn in Ll. lia.
  - apply Z.log2_le_pow2; lia.
Qed.

Lemma rune4_not_space (s0 s1 s2 s3 : Z) :
  (0xF0 <= s0 <= 0xF4)%Z -> (0x80 <= s1 <= 0xBF)%Z ->
  (s0 = 0xF0 -> 0x90 <= s1)%Z ->
  (0 <= s2)%Z -> (0 <= s3)%Z ->
  unicode.IsSpace (rune4 s0 s1 s2 s3) = false.
Proof.
  intros H0 H1 H01 H2 H3.
  assert (C : forallb (fun a => forallb (fun b =>
                implb (negb ((a =? 0xF0) && (b <? 0x90)))
                      (2 ^ 16 <=? Z.lor (Z.shiftl (Z.land a utf8.mask4) 18)
                                        (Z.shiftl (Z.land b utf8.maskx) 12)))%Z
                (range 0x80 0xBF)) (range 0xF0 0xF4) = true)
    by (vm_compute; reflexivity).
  pose proof (forall_range _ _ _ C s0 H0) as C0. cbv beta in C0.
  pose proof (forall_range _ _ _ C0 s1 H1) as C1. cbv beta in C1.
  replace ((s0 =? 0xF0) && (s1 <? 0x90))%Z with false in C1.
  2:{ symmetry. apply andb_false_iff.
      destruct (Z.eqb_spec s0 0xF0) as [E|N]; [right; apply Z.ltb_ge; auto | left; reflexivity]. }
  cbn [negb implb] in C1. apply Z.leb_le in C1.
  assert (N2 : (0 <= Z.shiftl (Z.land s2 utf8.maskx) 6)%Z)
    by (apply Z.shiftl_nonneg, Z.land_nonneg; left; exact H2).
  assert (N3 : (0 <= Z.land s3 utf8.maskx)%Z) by (apply Z.land_nonneg; left; exact H3).
  assert (B : (2 ^ 16 <= rune4 s0 s1 s2 s3)%Z).
  { unfold rune4. apply lor_above; [|exact N3|].
    - apply Z.lor_nonneg. split; [|exact N2]. lia.
    - apply lor_above; [lia|exact N2|exact C1]. }
  destruct (unicode.IsSpace (rune4 s0 s1 s2 s3)) eqn:E; [|reflexivity].
  apply IsSpace_spaceRunes in E. exfalso. cbn in E.
  change (2 ^ 16)%Z with 65536%Z in B.
  repeat (destruct E as [E|E]; [lia|]). contradiction.
Qed.

(** A white space character is decoded from its encoding only. *)
Lemma decode_space (s : string) (r : Z) (size : nat) :
  utf8.DecodeRuneInString s = (r, size) ->
  unicode.IsSpace r = true ->
  s = utf8.EncodeRune r ++ drop size s /\ size = String.length (utf8.EncodeRune r).
Proof.
  intros D Hs. pose proof (decode_decoded s) as Hd. rewrite D in Hd. cbn [fst snd] in Hd.
  inversion Hd; subst; try (cbn in Hs; discriminate).
  - (* ASCII *)
    pose proof (b2z_range c) as R. unfold utf8.EncodeRune.
    replace ((0 <=? b2z c) && (b2z c <=? 0x7F))%Z with true
      by (symmetry; apply andb_true_iff; split; apply Z.leb_le; lia).
    rewrite bytes_one. split; reflexivity.
  - (* two bytes *)
    assert (C : forallb (fun a => forallb (fun b =>
                  if unicode.IsSpace (rune2 a b)
                  then (utf8.EncodeRune (rune2 a b) =? bytes [a; b])%string
                  else true)
                  (range 0x80 0xBF)) (range 0xC2 0xDF) = true)
      by (vm_compute; reflexivity).
    pose proof (forall_range _ _ _ C _ H) as C0. cbv beta in C0.
    pose proof (forall_range _ _ _ C0 _ H0) as C1. cbv beta in C1.
    rewrite Hs in C1. apply String.eqb_eq in C1.
    rewrite C1. unfold bytes; cbn [fold_right]. rewrite !z2b_b2z.
    split; reflexivity.
  - (* three bytes *)
    assert (C : forallb (fun a => forallb (fun b => forallb (fun c =>
                  if unicode.IsSpace (rune3 a b c)
                     && negb ((a =? 0xE0) && (b <? 0xA0))%Z
                  then (utf8.EncodeRune (rune3 a b c) =? bytes [a; b; c])%string
                  else true)
                  (range 0x80 0xBF)) (range 0x80 0xBF)) (range 0xE0 0xEF) = true)
      by (vm_compute; reflexivity).
    pose proof (forall_range _ _ _ C _ H) as C0. cbv beta in C0.
    pose proof (forall_range _ _ _ C0 _ H0) as C1. cbv beta in C1.
    pose proof (forall_range _ _ _ C1 _ H2) as C2. cbv beta in C2.
    rewrite Hs in C2.
    replace ((b2z c0 =? 0xE0) && (b2z c1 <? 0xA0))%Z with false in C2.
    2:{ symmetry. apply andb_false_iff.
        destruct (Z.eqb_spec (b2z c0) 0xE0) as [E|N];
          [right; apply Z.ltb_ge; auto | left; reflexivity]. }
    cbn [negb andb] in C2. apply String.eqb_eq in C2.
    rewrite C2. unfold bytes; cbn [fold_right]. rewrite !z2b_b2z.
    split; reflexivity.
  - (* four bytes *)
    pose proof (b2z_range c2). pose proof (b2z_range c3).
    rewrite rune4_not_space in Hs by (auto; lia). discriminate.
Qed.

Lemma Whitespace_app (a b : string) :
  Whitespace a -> Whitespace b -> Whitespace (a ++ b).
Proof.
  intros Ha Hb. induction Ha as [|r s Hr Hs IH]; [exact Hb|].
  rewrite append_assoc. now constructor.
Qed.

Lemma Whitespace_one (r : Z) :
  unicode.IsSpace r = true -> Whitespace (utf8.EncodeRune r).
Proof.
  intros H. rewrite <- (append_empty_r (utf8.EncodeRune r)).
  constructor; [exact H | constructor].
Qed.

Lemma decode_width (s : string) :
  s <> "" ->
  1 <= snd (utf8.DecodeRuneInString s) <= String.length s.
Proof.
  intros Hne. pose proof (decode_decoded s) as Hd.
  inversion Hd as [E| | | | |]; simpl; try lia.
  symmetry in E. contradiction.
Qed.

Lemma indexFunc_step (fuel : nat) (f : Z -> bool) (truth : bool) (rest : string) (i : nat) :
  rest <> "" ->
  strings.indexFunc (S fuel) f truth rest i
  = let '(r, size) := utf8.DecodeRuneInString rest in
    if Bool.eqb (f r) truth then Some i
    else strings.indexFunc fuel f truth (drop size rest) (i + size).
Proof. destruct rest; [contradiction | reflexivity]. Qed.

Lemma indexFunc_spec (fuel : nat) :
  forall (rest : string) (i : nat),
  String.length rest <= fuel ->
  match strings.indexFunc fuel unicode.IsSpace false rest i with
  | None => Whitespace rest
  | Some j =>
    exists pre rest' : string,
      rest = pre ++ rest' /\ Whitespace pre /\ j = i + String.length pre
      /\ rest' <> "" /\ unicode.IsSpace (fst (utf8.DecodeRuneInString rest')) = false
  end.
Proof.
  induction fuel as [|fuel IH]; intros rest i Hlen.
  - destruct rest; [constructor | simpl in Hlen; lia].
  - destruct rest as [|c rest0]; [constructor|].
    remember (String c rest0) as rest eqn:Erest.
    assert (Hne : rest <> "") by (subst rest; discriminate).
    rewrite indexFunc_step by exact Hne.
    destruct (utf8.DecodeRuneInString rest) as [r size] eqn:D.
    destruct (unicode.IsSpace r) eqn:Hs; cbn [Bool.eqb].
    + destruct (decode_space rest r size D Hs) as [Hrest Hsize].
      pose proof (encoded_space_length r Hs) as Hl.
      assert (Hlen' : String.length (drop size rest) <= fuel).
      { rewrite length_drop. lia. }
      specialize (IH (drop size rest) (i + size) Hlen').
      destruct (strings.indexFunc fuel unicode.IsSpace false (drop size rest) (i + size))
        as [j|].
      * destruct IH as (pre & rest' & E & Wp & Ej & Hne' & Hns).
        exists (utf8.EncodeRune r ++ pre), rest'. repeat split.
        -- rewrite append_assoc, <- E. exact Hrest.
        -- now constructor.
        -- rewrite length_append. lia.
        -- exact Hne'.
        -- exact Hns.
      * rewrite Hrest. now constructor.
    + exists "", rest. repeat split.
      * constructor.
      * simpl. lia.
      * exact Hne.
      * rewrite D. exact Hs.
Qed.

(** The left trim removes white space only, and all of it. *)
Lemma TrimLeftFunc_spec (s : string) :
  exists pre : string,
    s = pre ++ strings.TrimLeftFunc s unicode.IsSpace
    /\ Whitespace pre
    /\ (strings.TrimLeftFunc s unicode.IsSpace = ""
        \/ unicode.IsSpace
             (fst (utf8.DecodeRuneInString (strings.TrimLeftFunc s unicode.IsSpace)))
           = false).
Proof.
  unfold strings.TrimLeftFunc.
  pose proof (indexFunc_spec (String.length s) s 0 (le_n _)) as H.
  destruct (strings.indexFunc (String.length s) unicode.IsSpace false s 0) as [j|].
  - destruct H as (pre & rest' & E & Wp & Ej & Hne & Hns).
    simpl in Ej. subst j. exists pre.
    rewrite E at 2 3 4. rewrite drop_app. repeat split; auto.
  - exists s. rewrite append_empty_r. repeat split; auto.
Qed.

Lemma slice_0 (s : string) (n : nat) : slice s 0 n = take n s.
Proof. unfold slice. rewrite Nat.sub_0_r. apply substring_0. Qed.

Lemma slice_to_end (s : string) (lo : nat) :
  slice s lo (String.length s) = drop lo s.
Proof.
  rewrite slice_take_drop. apply take_all. rewrite length_drop. lia.
Qed.

Lemma drop_all (s : string) : forall n, String.length s <= n -> drop n s = "".
Proof.
  induction s as [|c s IH]; intros [|n] H; simpl in *; try reflexivity; try lia.
  apply IH. lia.
Qed.

Lemma length_one (e : string) :
  String.length e = 1 -> exists c, e = String c "".
Proof.
  destruct e as [|c [|c' e]]; simpl; intros H; try discriminate.
  now exists c.
Qed.

Lemma findStart_below (fuel : nat) (s : string) (lim : nat) :
  forall start1 i : nat, utf8.findStart fuel s lim start1 = Some i -> i < start1.
Proof.
  induction fuel as [|fuel IH]; intros start1 i; simpl; [discriminate|].
  destruct start1 as [|start]; [discriminate|].
  destruct (start <? lim)%nat; [intros E; injection E as <-; lia|].
  destruct (utf8.RuneStart (byteAt s start)); [intros E; injection E as <-; lia|].
  intros E. apply IH in E. lia.
Qed.

Lemma drop_nonempty (s : string) (n : nat) : n < String.length s -> drop n s <> "".
Proof.
  intros H C. pose proof (length_drop s n) as L. rewrite C in L. simpl in L. lia.
Qed.

(** The last rune is an ASCII byte, an invalid byte, or a rune of several
    bytes that the last bytes of the string decode to. *)
Lemma decodeLast_cases (p : string) (r : Z) (size : nat) :
  p <> "" ->
  utf8.DecodeLastRuneInString p = (r, size) ->
  1 <= size <= String.length p
  /\ ((size = 1
       /\ ((byteAt p (String.length p - 1) < 0x80 /\ r = byteAt p (String.length p - 1))
           \/ (0x80 <= byteAt p (String.length p - 1) /\ r = utf8.RuneError))%Z)
      \/ (2 <= size
          /\ utf8.DecodeRuneInString (drop (String.length p - size) p) = (r, size))).
Proof.
  intros Hne. unfold utf8.DecodeLastRuneInString.
  destruct (String.length p) as [|start] eqn:Hlen.
  { destruct p; [contradiction | discriminate]. }
  cbv zeta. replace (S start - 1) with start by lia.
  unfold utf8.RuneSelf.
  destruct (Z.ltb_spec (byteAt p start) 0x80) as [Lt|Ge].
  - intros E. injection E as <- <-. split; [lia|]. left. split; [reflexivity|].
    left. split; [exact Lt | reflexivity].
  - set (start' := match utf8.findStart (S utf8.UTFMax) p (S start - utf8.UTFMax) start with
                   | Some i => i
                   | None => 0
                   end).
    assert (Hs' : start' <= start).
    { unfold start'.
      destruct (utf8.findStart (S utf8.UTFMax) p (S start - utf8.UTFMax) start) as [i|] eqn:F;
        [apply findStart_below in F|]; lia. }
    clearbody start'.
    destruct (utf8.DecodeRuneInString (slice p start' (S start))) as [r' size'] eqn:D.
    destruct (Nat.eqb_spec (start' + size') (S start)) as [E|N].
    + intros E'. injection E' as <- <-.
      rewrite <- Hlen, slice_to_end in D.
      assert (Hd : drop start' p <> "") by (apply drop_nonempty; lia).
      pose proof (decode_width _ Hd) as W. rewrite D in W. cbn [snd] in W.
      split; [lia|].
      destruct (Nat.eq_dec size' 1) as [One|More].
      * left. split; [exact One|]. right. split; [exact Ge|].
        pose proof (decode_decoded (drop start' p)) as Hdec.
        rewrite D in Hdec. cbn [fst snd] in Hdec. subst size'.
        assert (Es : start' = start) by lia. rewrite Es in Hdec.
        rewrite byteAt_drop in Ge.
        remember (drop start p) as e eqn:Ee. clear - Hdec Ge.
        inversion Hdec as [|c t Hc| | | |]; subst; [|reflexivity].
        exfalso. unfold byteAt in Ge. simpl in Ge. lia.
      * right. split; [lia|].
        replace (S start - size') with start' by lia. exact D.
    + intros E'. injection E' as <- <-. split; [lia|]. left. split; [reflexivity|].
      right. split; [exact Ge | reflexivity].
Qed.

Lemma ascii_encoded (c : ascii) :
  (b2z c < 0x80)%Z -> utf8.EncodeRune (b2z c) = String c "".
Proof.
  intros H. pose proof (b2z_range c) as R. unfold utf8.EncodeRune.
  replace ((0 <=? b2z c) && (b2z c <=? 0x7F))%Z with true
    by (symmetry; apply andb_true_iff; split; apply Z.leb_le; lia).
  apply bytes_one.
Qed.

Lemma drop_last_byte (p : string) (c : ascii) :
  String.length p <> 0 ->
  drop (String.length p - 1) p = String c "" ->
  byteAt p (String.length p - 1) = b2z c.
Proof. intros _ H. rewrite byteAt_drop, H. reflexivity. Qed.

(** A white space character at the end of a string: the string ends with
    its encoding. *)
Lemma decodeLast_space (p : string) (r : Z) (size : nat) :
  p <> "" ->
  utf8.DecodeLastRuneInString p = (r, size) ->
  unicode.IsSpace r = true ->
  size <= String.length p
  /\ size = String.length (utf8.EncodeRune r)
  /\ p = take (String.length p - size) p ++ utf8.EncodeRune r.
Proof.
  intros Hne D Hs.
  destruct (decodeLast_cases p r size Hne D) as [Hsize Hc].
  split; [lia|].
  assert (He : drop (String.length p - size) p = utf8.EncodeRune r
               /\ size = String.length (utf8.EncodeRune r)).
  { destruct Hc as [[One [[Lt Er]|[Ge Er]]]|[Two Dec]].
    - subst size.
      destruct (length_one (drop (String.length p - 1) p)) as [c Ec].
      { rewrite length_drop. lia. }
      rewrite (drop_last_byte p c) in Lt, Er by (auto; lia).
      subst r. rewrite ascii_encoded by exact Lt. split; [exact Ec | reflexivity].
    - subst r. cbn in Hs. discriminate.
    - destruct (decode_space _ _ _ Dec Hs) as [E1 E2]. split; [|exact E2].
      rewrite (drop_all (drop _ p)) in E1 by (rewrite length_drop; lia).
      now rewrite append_empty_r in E1. }
  destruct He as [He Hl]. split; [exact Hl|].
  rewrite <- He. symmetry. apply take_drop.
Qed.

Lemma lastIndexFunc_step (fuel : nat) (f : Z -> bool) (truth : bool) (s : string) (i : nat) :
  i <> 0 ->
  strings.lastIndexFunc (S fuel) f truth s i
  = let '(r, size) := utf8.DecodeLastRuneInString (slice s 0 i) in
    if Bool.eqb (f r) truth then Some (i - size)
    else strings.lastIndexFunc fuel f truth s (i - size).
Proof.
  intros H. simpl. apply Nat.eqb_neq in H. rewrite H.
  destruct (utf8.DecodeLastRuneInString (slice s 0 i)); reflexivity.
Qed.

Lemma drop_take_app (s : string) (i k : nat) :
  k <= i -> i <= String.length s ->
  drop (i - k) s = drop (i - k) (take i s) ++ drop i s.
Proof.
  intros Hk Hi.
  rewrite <- (take_drop s i) at 1.
  rewrite <- (take_drop (take i s) (i - k)) at 1.
  rewrite append_assoc.
  replace (i - k) with (String.length (take (i - k) (take i s))) at 1.
  - apply drop_app.
  - rewrite length_take; [reflexivity|]. rewrite length_take; lia.
Qed.

Lemma lastIndexFunc_spec (s : string) (fuel : nat) :
  forall i : nat,
  i <= fuel -> i <= String.length s ->
  Whitespace (drop i s) ->
  match strings.lastIndexFunc fuel unicode.IsSpace false s i with
  | None => Whitespace s
  | Some j =>
    exists (r : Z) (size : nat),
      j + size <= String.length s
      /\ utf8.DecodeLastRuneInString (take (j + size) s) = (r, size)
      /\ unicode.IsSpace r = false
      /\ 1 <= size
      /\ Whitespace (drop (j + size) s)
  end.
Proof.
  induction fuel as [|fuel IH]; intros i Hf Hi W.
  - assert (i = 0) by lia. subst i. exact W.
  - destruct (Nat.eq_dec i 0) as [->|Hnz]; [exact W|].
    rewrite lastIndexFunc_step by exact Hnz. rewrite slice_0.
    assert (Hp : take i s <> "").
    { intros C. pose proof (length_take s i Hi) as L. rewrite C in L. simpl in L. lia. }
    assert (Lp : String.length (take i s) = i) by (apply length_take; exact Hi).
    destruct (utf8.DecodeLastRuneInString (take i s)) as [r size] eqn:D.
    destruct (unicode.IsSpace r) eqn:Hs; cbn [Bool.eqb].
    + destruct (decodeLast_space _ _ _ Hp D Hs) as (Hsz & Hl & Ep).
      rewrite Lp in Hsz, Ep.
      pose proof (encoded_space_length r Hs) as Hl3.
      apply IH; [lia | lia |].
      rewrite (drop_take_app s i size) by lia.
      assert (E : drop (i - size) (take i s) = utf8.EncodeRune r).
      { rewrite Ep at 1.
        replace (i - size) with (String.length (take (i - size) (take i s))) at 1
          by (rewrite length_take; lia).
        apply drop_app. }
      rewrite E. now constructor.
    + destruct (decodeLast_cases _ _ _ Hp D) as [Hsz _]. rewrite Lp in Hsz.
      exists r, size. replace (i - size + size) with i by lia.
      repeat split; auto; lia.
Qed.

(** A rune of several bytes is decoded the same whatever follows it. *)
Lemma decode_append (e t : string) :
  2 <= snd (utf8.DecodeRuneInString e) ->
  utf8.DecodeRuneInString (e ++ t) = utf8.DecodeRuneInString e.
Proof.
  destruct e as [|c0 r0]; [simpl; lia|].
  cbn [append]. unfold utf8.DecodeRuneInString. cbv zeta.
  split_first (b2z c0); eval_closed; try (cbn [snd]; lia).
  all: destruct r0 as [|c1 r1]; [cbn [snd]; lia|]; cbn [append].
  all: unfold utf8.locb, utf8.hicb.
  all: split_range; try (cbn [snd]; lia); try reflexivity.
  all: destruct r1 as [|c2 r2]; [cbn [snd]; lia|]; cbn [append].
  all: split_range; try (cbn [snd]; lia); try reflexivity.
  all: destruct r2 as [|c3 r3]; [cbn [snd]; lia|]; cbn [append].
  all: split_range; try (cbn [snd]; lia); reflexivity.
Qed.

(** White space does not begin with a continuation byte. *)
Lemma space_first_byte (r : Z) (s : string) :
  unicode.IsSpace r = true ->
  exists (c1 : ascii) (t : string),
    utf8.EncodeRune r ++ s = String c1 t /\ (b2z c1 < 0x80 \/ 0xC0 <= b2z c1)%Z.
Proof.
  intros H. apply IsSpace_spaceRunes in H. cbn in H.
  repeat (destruct H as [<-|H];
          [eexists; eexists; split; [reflexivity | vm_compute; intuition discriminate]|]).
  contradiction.
Qed.

(** A byte that is not ASCII is a rune of its own before white space. *)
Lemma decode_before_space (c : ascii) (post : string) :
  (0x80 <= b2z c)%Z ->
  Whitespace post ->
  snd (utf8.DecodeRuneInString (String c post)) = 1.
Proof.
  intros Hc W.
  assert (Hp : post = ""
               \/ exists c1 t, post = String c1 t /\ (b2z c1 < 0x80 \/ 0xC0 <= b2z c1)%Z).
  { destruct W as [|r s Hr Hs]; [left; reflexivity|].
    right. apply space_first_byte. exact Hr. }
  unfold utf8.DecodeRuneInString. cbv zeta.
  destruct Hp as [->|(c1 & t & -> & Hc1)].
  - split_first (b2z c); eval_closed; reflexivity.
  - split_first (b2z c); eval_closed; try reflexivity.
    all: unfold utf8.locb, utf8.hicb.
    all: split_range; try reflexivity; exfalso; lia.
Qed.

Lemma byteAt_take (s : string) :
  forall n i : nat, i < n -> byteAt (take n s) i = byteAt s i.
Proof.
  unfold byteAt.
  induction s as [|c s IH]; intros [|n] [|i] H; simpl; try reflexivity; try lia.
  apply IH. lia.
Qed.

Lemma decode_lead_byte (e : string) :
  2 <= snd (utf8.DecodeRuneInString e) -> (0x80 <= byteAt e 0)%Z.
Proof.
  intros H. pose proof (decode_decoded e) as Hd.
  inversion Hd as [E|c t Hc E|c t Hc E| | |]; try (rewrite <- E in H; simpl in H; lia);
    subst; unfold byteAt; simpl; try lia.
  all: match goal with H1 : _ = snd _ |- _ => rewrite <- H1 in H; lia end.
Qed.

(** The right trim removes white space only, and all of it. *)
Lemma TrimRightFunc_spec (s : string) :
  exists post : string,
    s = strings.TrimRightFunc s unicode.IsSpace ++ post
    /\ Whitespace post
    /\ (strings.TrimRightFunc s unicode.IsSpace = ""
        \/ unicode.IsSpace
             (fst (utf8.DecodeLastRuneInString (strings.TrimRightFunc s unicode.IsSpace)))
           = false).
Proof.
  unfold strings.TrimRightFunc.
  assert (W0 : Whitespace (drop (String.length s) s))
    by (rewrite drop_all by lia; constructor).
  pose proof (lastIndexFunc_spec s (String.length s) (String.length s)
                (le_n _) (le_n _) W0) as H.
  destruct (strings.lastIndexFunc (String.length s) unicode.IsSpace false s
              (String.length s)) as [j|].
  - destruct H as (r & size & Hle & D & Hns & H1 & Wpost).
    set (p := take (j + size) s) in *.
    assert (Lp : String.length p = j + size) by (apply length_take; exact Hle).
    assert (Hp : p <> "") by (intros C; rewrite C in Lp; simpl in Lp; lia).
    assert (Hj : byteAt s j = byteAt p j) by (symmetry; apply byteAt_take; lia).
    assert (Hd : drop j s = drop j p ++ drop (j + size) s).
    { pose proof (drop_take_app s (j + size) size) as E.
      replace (j + size - size) with j in E by lia. apply E; lia. }
    assert (Res : (if (utf8.RuneSelf <=? byteAt s j)%Z
                   then let '(_, wid) := utf8.DecodeRuneInString (drop j s) in
                        slice s 0 (j + wid)
                   else slice s 0 (j + 1)) = p).
    { destruct (decodeLast_cases p r size Hp D) as [_ Hc].
      rewrite Lp in Hc. unfold utf8.RuneSelf.
      destruct Hc as [[One [[Lt _]|[Ge _]]]|[Two Dec]].
      - subst size. replace (j + 1 - 1) with j in Lt by lia.
        rewrite Hj. destruct (Z.leb_spec 0x80 (byteAt p j)); [lia|].
        now rewrite slice_0.
      - subst size. replace (j + 1 - 1) with j in Ge by lia.
        rewrite Hj. destruct (Z.leb_spec 0x80 (byteAt p j)); [|lia].
        destruct (length_one (drop j p)) as [c Ec].
        { rewrite length_drop. lia. }
        rewrite Hd, Ec. cbn [append].
        assert (Hc : (0x80 <= b2z c)%Z).
        { rewrite byteAt_drop, Ec in Ge. exact Ge. }
        pose proof (decode_before_space c _ Hc Wpost) as W1.
        destruct (utf8.DecodeRuneInString (String c (drop (j + 1) s))) as [r' wid].
        cbn [snd] in W1. subst wid. now rewrite slice_0.
      - replace (j + size - size) with j in Dec by lia.
        assert (Two' : 2 <= snd (utf8.DecodeRuneInString (drop j p)))
          by (rewrite Dec; exact Two).
        pose proof (decode_lead_byte _ Two') as Lead.
        rewrite <- byteAt_drop in Lead.
        rewrite Hj. destruct (Z.leb_spec 0x80 (byteAt p j)); [|lia].
        rewrite Hd, decode_append by exact Two'. rewrite Dec.
        now rewrite slice_0. }
    rewrite Res. exists (drop (j + size) s). split; [|split].
    + symmetry. apply take_drop.
    + exact Wpost.
    + right. rewrite D. exact Hns.
  - exists s. split; [|split].
    + rewrite slice_0. reflexivity.
    + exact H.
    + left. rewrite slice_0. reflexivity.
Qed.

Lemma asciiSpace_IsSpace (z : Z) :
  (0 <= z < 0x80)%Z -> strings.asciiSpace z = unicode.IsSpace z.
Proof.
  intros H.
  assert (C : forallb (fun z => Bool.eqb (strings.asciiSpace z) (unicode.IsSpace z))
                      (range 0 0x7F) = true) by (vm_compute; reflexivity).
  apply eqb_prop. apply (forall_range _ _ _ C z). lia.
Qed.

Lemma asciiSpace_ascii (z : Z) :
  strings.asciiSpace z = true -> (0 <= z < 0x80)%Z.
Proof.
  unfold strings.asciiSpace. intros H.
  destruct (Z_lt_le_dec z 0) as [N|P]; [destruct z; try lia; discriminate|].
  destruct (Z_lt_le_dec z 0x80) as [L|G]; [lia|].
  exfalso. destruct z as [|q|q]; try discriminate.
  do 6 (destruct q as [q|q|]; try discriminate; try lia).
Qed.

Lemma Whitespace_ascii (c : ascii) :
  strings.asciiSpace (b2z c) = true -> Whitespace (String c "").
Proof.
  intros H. pose proof (asciiSpace_ascii _ H) as R.
  rewrite <- ascii_encoded by lia.
  apply Whitespace_one. rewrite <- asciiSpace_IsSpace by lia. exact H.
Qed.

Lemma scanStart_spec (rest : string) :
  forall start : nat,
  exists pre rest' : string,
    rest = pre ++ rest' /\ Whitespace pre
    /\ fst (strings.scanStart rest start) = start + String.length pre
    /\ (if snd (strings.scanStart rest start)
        then (0x80 <= byteAt rest' 0)%Z /\ rest' <> ""
        else rest' = ""
             \/ (rest' <> "" /\ (byteAt rest' 0 < 0x80)%Z
                 /\ strings.asciiSpace (byteAt rest' 0) = false)).
Proof.
  induction rest as [|c rest IH]; intros start.
  - exists "", "". simpl. split; [reflexivity|]. split; [constructor|].
    split; [lia | now left].
  - cbn [strings.scanStart]. unfold utf8.RuneSelf.
    destruct (Z.leb_spec 0x80 (b2z c)) as [Ge|Lt].
    + exists "", (String c rest). cbn [fst snd append String.length].
      split; [reflexivity|]. split; [constructor|]. split; [lia|].
      split; [exact Ge | discriminate].
    + destruct (strings.asciiSpace (b2z c)) eqn:Sp.
      * destruct (IH (S start)) as (pre & rest' & E & W & Hf & Hs).
        exists (String c pre), rest'. split; [simpl; now rewrite E|].
        split; [apply (Whitespace_app (String c "") pre); [now apply Whitespace_ascii | exact W]|].
        split; [rewrite Hf; simpl; lia | exact Hs].
      * exists "", (String c rest). cbn [fst snd append String.length].
        split; [reflexivity|]. split; [constructor|]. split; [lia|].
        right. split; [discriminate|]. split; [exact Lt | exact Sp].
Qed.

Lemma take_S (t : string) :
  forall n : nat,
  n < String.length t ->
  exists c : ascii, byteAt t n = b2z c /\ take (S n) t = take n t ++ String c "".
Proof.
  induction t as [|c t IH]; intros n H; simpl in H; [lia|].
  destruct n as [|n].
  - exists c. split; [reflexivity|]. simpl. destruct t; reflexivity.
  - destruct (IH n) as (c' & Hb & Ht); [lia|].
    exists c'. split; [exact Hb|].
    change (take (S (S n)) (String c t)) with (String c (take (S n) t)).
    rewrite Ht. reflexivity.
Qed.

Lemma byteAt_drop_add (s : string) (n i : nat) :
  byteAt (drop n s) i = byteAt s (n + i).
Proof.
  rewrite (byteAt_drop (drop n s) i), drop_drop. symmetry. apply byteAt_drop.
Qed.

Lemma scanStop_spec (s : string) (start : nat) :
  forall stop : nat,
  stop <= String.length s ->
  let sp := fst (strings.scanStop s start stop) in
  sp <= stop
  /\ (start <= stop -> start <= sp)
  /\ Whitespace (take (stop - sp) (drop sp s))
  /\ (if snd (strings.scanStop s start stop)
      then start < sp /\ (0x80 <= byteAt s (sp - 1))%Z
      else sp <= start
           \/ (start < sp /\ (byteAt s (sp - 1) < 0x80)%Z
               /\ strings.asciiSpace (byteAt s (sp - 1)) = false)).
Proof.
  induction stop as [|stop IH]; intros Hlen.
  - simpl. split; [lia|]. split; [lia|]. split; [constructor|]. left. lia.
  - cbn [strings.scanStop].
    destruct (Nat.leb_spec (S stop) start) as [Le|Gt].
    + cbn [fst snd]. rewrite Nat.sub_diag.
      split; [lia|]. split; [lia|]. split; [constructor|]. left. exact Le.
    + cbv zeta. unfold utf8.RuneSelf.
      destruct (Z.leb_spec 0x80 (byteAt s stop)) as [Ge|Lt].
      * cbn [fst snd]. rewrite Nat.sub_diag.
        replace (S stop - 1) with stop by lia.
        split; [lia|]. split; [lia|]. split; [constructor|]. split; [lia | exact Ge].
      * destruct (strings.asciiSpace (byteAt s stop)) eqn:Sp.
        -- destruct (IH ltac:(lia)) as (H1 & H2 & W & Hf).
           set (sp := fst (strings.scanStop s start stop)) in *.
           split; [lia|]. split; [intros _; apply H2; lia|]. split; [|exact Hf].
           replace (S stop - sp) with (S (stop - sp)) by lia.
           destruct (take_S (drop sp s) (stop - sp)) as (c & Hb & Ht).
           { rewrite length_drop. lia. }
           rewrite Ht. apply Whitespace_app; [exact W|].
           apply Whitespace_ascii. rewrite <- Hb, byteAt_drop_add.
           replace (sp + (stop - sp)) with stop by lia. exact Sp.
        -- cbn [fst snd]. rewrite Nat.sub_diag.
           replace (S stop - 1) with stop by lia.
           split; [lia|]. split; [lia|]. split; [constructor|].
           right. split; [lia|]. split; [exact Lt | exact Sp].
Qed.

Lemma decode_ascii_first (t : string) :
  t <> "" -> (byteAt t 0 < 0x80)%Z ->
  utf8.DecodeRuneInString t = (byteAt t 0, 1).
Proof.
  destruct t as [|c t]; [contradiction|]. intros _ H.
  unfold byteAt in *. simpl in H. simpl get. cbv iota.
  unfold utf8.DecodeRuneInString. cbv zeta.
  pose proof (b2z_range c).
  split_first (b2z c); try lia. reflexivity.
Qed.

Lemma decodeLast_ascii (p : string) :
  p <> "" -> (byteAt p (String.length p - 1) < 0x80)%Z ->
  utf8.DecodeLastRuneInString p = (byteAt p (String.length p - 1), 1).
Proof.
  intros Hne H. unfold utf8.DecodeLastRuneInString.
  destruct (String.length p) as [|start] eqn:L.
  - destruct p; [contradiction | discriminate].
  - cbv zeta. replace (S start - 1) with start in * by lia.
    unfold utf8.RuneSelf. destruct (Z.ltb_spec (byteAt p start) 0x80); [reflexivity | lia].
Qed.

Lemma byteAt_prefix (a b : string) :
  a <> "" -> byteAt (a ++ b) 0 = byteAt a 0.
Proof. destruct a; [contradiction | reflexivity]. Qed.

Lemma not_space_ascii (z : Z) :
  (0 <= z < 0x80)%Z -> strings.asciiSpace z = false -> unicode.IsSpace z = false.
Proof. intros R H. now rewrite <- asciiSpace_IsSpace. Qed.

Lemma byteAt_nonneg (s : string) (i : nat) : (0 <= byteAt s i)%Z.
Proof.
  unfold byteAt. destruct (get i s) as [c|]; [apply b2z_range | lia].
Qed.

(** A non-empty prefix of a string whose first rune is not white space does
    not start with white space either. *)
Lemma first_rune_of_prefix (R post : string) :
  R <> "" ->
  unicode.IsSpace (fst (utf8.DecodeRuneInString (R ++ post))) = false ->
  unicode.IsSpace (fst (utf8.DecodeRuneInString R)) = false.
Proof.
  intros Hne H.
  destruct (utf8.DecodeRuneInString R) as [r size] eqn:D. cbn [fst].
  destruct (unicode.IsSpace r) eqn:Hs; [|reflexivity].
  destruct (decode_space R r size D Hs) as [E _].
  rewrite E, append_assoc, decode_encoded_space in H by exact Hs.
  cbn [fst] in H. congruence.
Qed.

(** [strings.TrimSpace] removes white space, and nothing else, from both
    ends of the string, and leaves no white space at either end. *)
Lemma TrimSpace_spec (s : string) :
  exists pre post : string,
    s = pre ++ strings.TrimSpace s ++ post
    /\ Whitespace pre /\ Whitespace post
    /\ Trimmed (strings.TrimSpace s).
Proof.
  unfold strings.TrimSpace.
  destruct (scanStart_spec s 0) as (pre & rest & Es & Wpre & Hstart & Hfb).
  destruct (strings.scanStart s 0) as [start fb]. cbn [fst snd] in Hstart, Hfb.
  simpl in Hstart. subst start.
  assert (Hdrop : drop (String.length pre) s = rest) by (rewrite Es; apply drop_app).
  destruct fb.
  - (* the Unicode fall-back on the rest *)
    destruct Hfb as [Hb Hne]. rewrite Hdrop. unfold strings.TrimFunc.
    destruct (TrimLeftFunc_spec rest) as (pre2 & El & Wpre2 & Hl).
    set (L := strings.TrimLeftFunc rest unicode.IsSpace) in *.
    destruct (TrimRightFunc_spec L) as (post & Er & Wpost & Hr).
    set (R := strings.TrimRightFunc L unicode.IsSpace) in *.
    exists (pre ++ pre2), post. split; [|split; [|split]].
    + rewrite append_assoc, <- Er, <- El. exact Es.
    + now apply Whitespace_app.
    + exact Wpost.
    + destruct Hr as [Hr|Hr]; [left; exact Hr|].
      destruct (string_dec R "") as [E|Rne]; [left; exact E|].
      right. split; [|exact Hr].
      destruct Hl as [Hl|Hl].
      * exfalso. rewrite Hl in Er. destruct R; [contradiction | discriminate].
      * apply (first_rune_of_prefix R post Rne). rewrite <- Er. exact Hl.
  - (* the ASCII path *)
    pose proof (scanStop_spec s (String.length pre) (String.length s) (le_n _)) as Hstop.
    destruct (strings.scanStop s (String.length pre) (String.length s)) as [stop fb2].
    cbn [fst snd] in Hstop. destruct Hstop as (Hle & Hge & Wpost1 & Hfb2).
    assert (Hpl : String.length pre <= String.length s)
      by (rewrite Es, length_append; lia).
    specialize (Hge Hpl).
    rewrite <- slice_take_drop, slice_to_end in Wpost1.
    set (M := slice s (String.length pre) stop) in *.
    assert (EM : rest = M ++ drop stop s).
    { unfold M. rewrite slice_take_drop, Hdrop.
      rewrite <- (take_drop rest (stop - String.length pre)) at 1.
      f_equal. rewrite <- Hdrop, drop_drop. f_equal. lia. }
    assert (LM : String.length M = stop - String.length pre).
    { unfold M. rewrite slice_take_drop. apply length_take. rewrite length_drop. lia. }
    assert (Hfirst : M <> "" ->
                     (byteAt M 0 < 0x80)%Z /\ strings.asciiSpace (byteAt M 0) = false).
    { intros Mne. destruct Hfb as [E|(_ & Lt & Sp)].
      - exfalso. rewrite E in EM. destruct M; [contradiction | discriminate].
      - rewrite EM, byteAt_prefix in Lt, Sp by exact Mne. split; assumption. }
    destruct fb2.
    + (* a non-ASCII byte at the end: the Unicode right trim *)
      destruct Hfb2 as [Hlt Hb].
      destruct (TrimRightFunc_spec M) as (post2 & Er & Wpost2 & Hr).
      set (R := strings.TrimRightFunc M unicode.IsSpace) in *.
      exists pre, (post2 ++ drop stop s). split; [|split; [|split]].
      * rewrite <- (append_assoc R post2), <- Er, <- EM. exact Es.
      * exact Wpre.
      * now apply Whitespace_app.
      * destruct Hr as [Hr|Hr]; [left; exact Hr|].
        destruct (string_dec R "") as [E|Rne]; [left; exact E|].
        right. split; [|exact Hr].
        assert (Mne : M <> "") by (intros C; rewrite C in LM; simpl in LM; lia).
        destruct (Hfirst Mne) as [Lt Sp].
        rewrite Er, byteAt_prefix in Lt, Sp by exact Rne.
        rewrite decode_ascii_first by assumption. cbn [fst].
        apply not_space_ascii; [split; [apply byteAt_nonneg | exact Lt] | exact Sp].
    + exists pre, (drop stop s). split; [|split; [|split]].
      * rewrite <- EM. exact Es.
      * exact Wpre.
      * exact Wpost1.
      * destruct (string_dec M "") as [E|Mne]; [left; exact E|].
        right. destruct (Hfirst Mne) as [Lt Sp].
        assert (Hlt : String.length pre < stop).
        { destruct M; [contradiction|]. simpl in LM. lia. }
        destruct Hfb2 as [Hc|(_ & Lt2 & Sp2)]; [lia|].
        assert (Elast : byteAt M (String.length M - 1) = byteAt s (stop - 1)).
        { unfold M. rewrite slice_take_drop.
          rewrite byteAt_take by (rewrite length_take; [|rewrite length_drop]; lia).
          rewrite byteAt_drop_add. f_equal.
          rewrite length_take by (rewrite length_drop; lia). lia. }
        split.
        -- rewrite decode_ascii_first by assumption. cbn [fst].
           apply not_space_ascii; [split; [apply byteAt_nonneg | exact Lt] | exact Sp].
        -- rewrite decodeLast_ascii by (try rewrite Elast; assumption).
           cbn [fst]. rewrite Elast.
           apply not_space_ascii; [split; [apply byteAt_nonneg | exact Lt2] | exact Sp2].
Qed.

Lemma encoded_space_nonempty (r : Z) :
  unicode.IsSpace r = true -> utf8.EncodeRune r <> "".
Proof.
  intros H E. pose proof (encoded_space_length r H) as L. rewrite E in L. simpl in L. lia.
Qed.

Lemma indexFunc_Whitespace (rest : string) :
  Whitespace rest ->
  forall fuel i : nat,
  String.length rest <= fuel ->
  strings.indexFunc fuel unicode.IsSpace false rest i = None.
Proof.
  induction 1 as [|r s Hr Hs IH]; intros fuel i Hlen.
  - destruct fuel; reflexivity.
  - pose proof (encoded_space_length r Hr) as L.
    rewrite length_append in Hlen.
    destruct fuel as [|fuel]; [lia|].
    rewrite indexFunc_step.
    2:{ pose proof (encoded_space_nonempty r Hr).
        destruct (utf8.EncodeRune r); [contradiction | discriminate]. }
    rewrite decode_encoded_space by exact Hr. rewrite Hr. cbn [Bool.eqb].
    rewrite drop_app. apply IH. lia.
Qed.

Lemma Whitespace_inv_ascii (c : ascii) (rest : string) :
  Whitespace (String c rest) -> (b2z c < 0x80)%Z ->
  strings.asciiSpace (b2z c) = true /\ Whitespace rest.
Proof.
  intros W Hc. inversion W as [|r s Hr Hs E].
  pose proof (decode_encoded_space r s Hr) as D. rewrite E in D.
  rewrite (decode_ascii_first (String c rest)) in D by (try discriminate; exact Hc).
  injection D as Er El. unfold byteAt in Er. simpl in Er. subst r.
  pose proof (b2z_range c) as R.
  rewrite ascii_encoded in E by exact Hc. injection E as <-.
  split; [|exact Hs]. rewrite asciiSpace_IsSpace by lia. exact Hr.
Qed.

Lemma scanStart_Whitespace (rest : string) :
  Whitespace rest ->
  forall start : nat,
  if snd (strings.scanStart rest start)
  then Whitespace (drop (fst (strings.scanStart rest start) - start) rest)
  else fst (strings.scanStart rest start) = start + String.length rest.
Proof.
  induction rest as [|c rest IH]; intros W start.
  - simpl. lia.
  - cbn [strings.scanStart]. unfold utf8.RuneSelf.
    destruct (Z.leb_spec 0x80 (b2z c)) as [Ge|Lt].
    + cbn [fst snd]. rewrite Nat.sub_diag. exact W.
    + destruct (Whitespace_inv_ascii c rest W Lt) as [Sp W'].
      rewrite Sp. specialize (IH W' (S start)).
      destruct (strings.scanStart rest (S start)) as [st fb]. cbn [fst snd] in *.
      destruct fb.
      * destruct (st - start) as [|k] eqn:Ek.
        -- replace (st - S start) with 0 in IH by lia. simpl in IH.
           apply (Whitespace_app (String c "") rest); [now apply Whitespace_ascii | exact IH].
        -- replace (st - S start) with k in IH by lia. exact IH.
      * simpl. lia.
Qed.

(** A string of white space only is trimmed to the empty string. *)
Lemma TrimSpace_Whitespace (s : string) :
  Whitespace s -> strings.TrimSpace s = "".
Proof.
  intros W. unfold strings.TrimSpace.
  pose proof (scanStart_Whitespace s W 0) as H.
  destruct (strings.scanStart s 0) as [start fb]. cbn [fst snd] in H.
  destruct fb.
  - rewrite Nat.sub_0_r in H. unfold strings.TrimFunc, strings.TrimLeftFunc.
    rewrite indexFunc_Whitespace by (auto; lia). reflexivity.
  - simpl in H. subst start.
    destruct (String.length s) as [|n] eqn:L.
    + simpl. unfold slice. simpl. destruct s; [reflexivity | discriminate].
    + cbn [strings.scanStop]. rewrite Nat.leb_refl.
      unfold slice. rewrite Nat.sub_diag, substring_drop. reflexivity.
Qed.

Lemma byteAt_app_r (m e : string) (i : nat) :
  byteAt (m ++ e) (String.length m + i) = byteAt e i.
Proof. rewrite <- byteAt_drop_add, drop_app. reflexivity. Qed.

Lemma findStart_found (s : string) (lim i : nat) (fuel : nat) :
  forall start1 : nat,
  i < start1 -> start1 - i <= fuel -> lim <= i ->
  utf8.RuneStart (byteAt s i) = true ->
  (forall j, i < j < start1 -> utf8.RuneStart (byteAt s j) = false) ->
  utf8.findStart fuel s lim start1 = Some i.
Proof.
  induction fuel as [|fuel IH]; intros start1 Hi Hf Hl Hr Hn; [lia|].
  destruct start1 as [|start]; [lia|]. cbn [utf8.findStart].
  destruct (Nat.ltb_spec start lim) as [Lt|Ge]; [lia|].
  destruct (Nat.eq_dec start i) as [->|Ne].
  - now rewrite Hr.
  - rewrite Hn by lia. apply IH; try lia; auto.
    intros j Hj. apply Hn. lia.
Qed.

(** The encodings of the white space characters: one ASCII byte, or a lead
    byte and one or two continuation bytes. *)
Lemma encoded_space_shape (r : Z) :
  unicode.IsSpace r = true ->
  let e := utf8.EncodeRune r in
  (String.length e = 1 /\ (byteAt e 0 < 0x80)%Z)
  \/ (2 <= String.length e <= 3
      /\ utf8.RuneStart (byteAt e 0) = true
      /\ (forall j, 0 < j < String.length e - 1 -> utf8.RuneStart (byteAt e j) = false)
      /\ (0x80 <= byteAt e (String.length e - 1))%Z).
Proof.
  intros H. apply IsSpace_spaceRunes in H. cbn in H.
  repeat (destruct H as [<-|H];
          [first [ left; split; [reflexivity | reflexivity]
                 | right; split; [cbn; lia|]; split; [reflexivity|];
                   split; [|vm_compute; discriminate];
                   intros j Hj; cbn in Hj;
                   assert (j = 1) by lia; subst j; reflexivity ]|]).
  contradiction.
Qed.

(** A white space character at the end of a string is its last rune. *)
Lemma decodeLast_encoded_space (m : string) (r : Z) :
  unicode.IsSpace r = true ->
  utf8.DecodeLastRuneInString (m ++ utf8.EncodeRune r)
  = (r, String.length (utf8.EncodeRune r)).
Proof.
  intros Hs. pose proof (encoded_space_shape r Hs) as Sh. cbv zeta in Sh.
  pose proof (decode_encoded_space r "" Hs) as D. rewrite append_empty_r in D.
  set (e := utf8.EncodeRune r) in *.
  assert (Hne : m ++ e <> "").
  { intros C. pose proof (length_append m e) as L. rewrite C in L.
    destruct Sh as [[L1 _]|[L2 _]]; simpl in L; lia. }
  destruct Sh as [[L1 Lt]|(L2 & Lead & Cont & Last)].
  - rewrite decodeLast_ascii.
    + rewrite length_append, L1.
      replace (String.length m + 1 - 1) with (String.length m + 0) by lia.
      rewrite byteAt_app_r. rewrite (decode_ascii_first e) in D.
      * rewrite L1 in D. exact D.
      * intros C. rewrite C in L1. discriminate.
      * exact Lt.
    + exact Hne.
    + rewrite length_append, L1.
      replace (String.length m + 1 - 1) with (String.length m + 0) by lia.
      now rewrite byteAt_app_r.
  - unfold utf8.DecodeLastRuneInString. rewrite length_append.
    set (k := String.length e) in *. set (n := String.length m).
    replace (n + k) with (S (n + (k - 1))) by lia. cbv zeta.
    rewrite byteAt_app_r. unfold utf8.RuneSelf.
    destruct (Z.ltb_spec (byteAt e (k - 1)) 0x80) as [C|_]; [lia|].
    rewrite (findStart_found (m ++ e) _ n).
    + replace (S (n + (k - 1))) with (n + k) by lia.
      assert (Es : slice (m ++ e) n (n + k) = e).
      { rewrite slice_take_drop. unfold n. rewrite drop_app.
        apply take_all. fold k. lia. }
      rewrite Es, D. rewrite Nat.eqb_refl. reflexivity.
    + lia.
    + unfold utf8.UTFMax. lia.
    + unfold utf8.UTFMax. lia.
    + replace n with (n + 0) by lia. unfold n. now rewrite byteAt_app_r.
    + intros j Hj. replace j with (n + (j - n)) by lia. unfold n.
      rewrite byteAt_app_r. apply Cont. lia.
Qed.

Lemma Trimmed_noSpaceAtEnds (t : string) : Trimmed t -> noSpaceAtEnds t.
Proof.
  intros [->|[Hf Hl]] r u Hs.
  - pose proof (encoded_space_nonempty r Hs) as Hne. split; intros E.
    + destruct (utf8.EncodeRune r); [contradiction | discriminate].
    + destruct u; simpl in E; [symmetry in E; contradiction | discriminate].
  - split; intros E; subst t.
    + rewrite decode_encoded_space in Hf by exact Hs. cbn [fst] in Hf. congruence.
    + rewrite decodeLast_encoded_space in Hl by exact Hs. cbn [fst] in Hl. congruence.
Qed.

(** ** Letter case *)

Lemma sameLetter_lowerByte (a b : ascii) :
  sameLetter a b = true ->
  (b2z b <? utf8.RuneSelf)%Z = true ->
  strings.isUpper (b2z b) = false ->
  (b2z a <? utf8.RuneSelf)%Z = true /\ strings.lowerByte a = b.
Proof.
  unfold sameLetter, strings.lowerByte, strings.isUpper, isLower, utf8.RuneSelf.
  intros H Hb Hu.
  pose proof (b2z_range a) as Ra. pose proof (b2z_range b) as Rb.
  apply orb_true_iff in H. destruct H as [H|H].
  - apply Ascii.eqb_eq in H. subst b.
    unfold strings.isUpper in Hu. rewrite Hu. split; [exact Hb | reflexivity].
  - apply orb_true_iff in H. destruct H as [H|H].
    + apply andb_true_iff in H. destruct H as [H E].
      apply andb_true_iff in H. destruct H as [Ua Lb].
      rewrite Ua. apply Z.eqb_eq in E. split.
      * apply Z.ltb_lt. apply andb_true_iff in Ua. lia.
      * rewrite <- (z2b_b2z b). f_equal. lia.
    + apply andb_true_iff in H. destruct H as [H _].
      apply andb_true_iff in H. destruct H as [_ Ub]. congruence.
Qed.

Lemma lowerASCII_same (s : string) :
  strings.hasUpper s = false -> strings.lowerASCII s = s.
Proof.
  induction s as [|c s IH]; simpl; [reflexivity|].
  intros H. apply orb_false_iff in H. destruct H as [Hc Hs].
  unfold strings.lowerByte. rewrite Hc. now rewrite IH.
Qed.

Lemma ToLower_ASCII (f : Z -> Z) (s : string) :
  strings.isASCII s = true -> strings.ToLower f s = strings.lowerASCII s.
Proof.
  intros H. unfold strings.ToLower. rewrite H.
  destruct (strings.hasUpper s) eqn:E; simpl; [reflexivity|].
  symmetry. now apply lowerASCII_same.
Qed.

(** A string that matches a lower-case ASCII token case-insensitively is
    ASCII, and [strings.ToLower] turns it into the token. *)
Lemma caseInsensitiveEq_lower (s : string) :
  forall t : string,
  caseInsensitiveEq s t = true ->
  strings.isASCII t = true ->
  strings.hasUpper t = false ->
  strings.isASCII s = true /\ strings.lowerASCII s = t.
Proof.
  induction s as [|a s IH]; intros [|b t] H At Ut; simpl in *; try discriminate.
  - split; reflexivity.
  - apply andb_true_iff in H. destruct H as [Hab Hst].
    apply andb_true_iff in At. destruct At as [Ab At].
    apply orb_false_iff in Ut. destruct Ut as [Ub Ut].
    destruct (sameLetter_lowerByte a b Hab Ab Ub) as [Aa La].
    destruct (IH t Hst At Ut) as [As Ls].
    rewrite Aa, As, La, Ls. split; reflexivity.
Qed.

Lemma caseInsensitiveEq_ToLower (f : Z -> Z) (s t : string) :
  caseInsensitiveEq s t = true ->
  strings.isASCII t = true ->
  strings.hasUpper t = false ->
  strings.ToLower f s = t.
Proof.
  intros H At Ut.
  destruct (caseInsensitiveEq_lower s t H At Ut) as [As Ls].
  now rewrite ToLower_ASCII.
Qed.

(** ** Worlds and events *)

Lemma after_nil (w : World) : after w [] = w.
Proof. destruct w; unfold after; simpl. now rewrite app_nil_r. Qed.

Lemma after_after (w : World) (e1 e2 : list Event) :
  after (after w e1) e2 = after w (e1 ++ e2)%list.
Proof. unfold after; simpl. now rewrite app_assoc. Qed.

Lemma emit_after (e : Event) (w : World) : emit e w = (Ret tt, after w [e]).
Proof. reflexivity. Qed.

Lemma answerEvents_quiet (texts : list string) :
  existsb toStderr (answerEvents texts) = false
  /\ existsb isCall (answerEvents texts) = false.
Proof.
  induction texts as [|c texts [IH1 IH2]]; simpl; [split; reflexivity|].
  destruct (c =? "")%string; simpl; split; assumption.
Qed.

Lemma answerEvents_no_thinking (texts : list string) :
  existsb showsThinking (answerEvents texts) = false.
Proof.
  induction texts as [|c texts IH]; simpl; [reflexivity|].
  destruct (c =? "")%string; simpl; exact IH.
Qed.

Lemma answerEvents_silent (texts : list string) :
  filter isContextEvent (answerEvents texts) = [].
Proof.
  induction texts as [|c texts IH]; simpl; [reflexivity|].
  destruct (c =? "")%string; simpl; exact IH.
Qed.

Lemma held_app (a b : list Event) :
  forall acc : list nat, held (a ++ b) acc = held b (held a acc).
Proof.
  induction a as [|e a IH]; intros acc; simpl; [reflexivity|].
  destruct e; apply IH.
Qed.

Lemma held_answerEvents (texts : list string) (acc : list nat) :
  held (answerEvents texts) acc = acc.
Proof.
  induction texts as [|c texts IH]; simpl; [reflexivity|].
  destruct (c =? "")%string; simpl; exact IH.
Qed.

(** ** The history-keeping variant *)

Section ChatFacts.

Import api.Message api.ChatResponse ChatVariant.

Variable unicode_ToLower : Z -> Z.

Lemma chat_callback_run (resp : api.ChatResponse.t) (st : Stream) (w : World) :
  callback resp st w =
  (Ret (mkStream (fullResponse st ++ Content (Message resp)) (thinkingDone st), None),
   after w (answerEvents [Content (Message resp)])).
Proof.
  unfold callback, bind, answerEvents; simpl.
  destruct ((DoneReason resp =? "")%string && (Content (Message resp) =? "")%string
            && negb (thinkingDone st));
  destruct (negb (Thinking (Message resp) =? "")%string && negb (thinkingDone st));
  simpl; destruct (String.eqb_spec (Content (Message resp)) "") as [E|E]; simpl;
  unfold ret; try reflexivity;
  rewrite E, append_empty_r, after_nil; destruct st; reflexivity.
Qed.

Lemma chat_deliver_run (frags : list api.ChatResponse.t) (err : option string) :
  forall (st : Stream) (w : World),
  deliver callback frags err st w =
  (Ret (mkStream (fullResponse st ++ concatText (contents frags)) (thinkingDone st), err),
   after w (answerEvents (contents frags))).
Proof.
  induction frags as [|resp frags IH]; intros st w; simpl.
  - rewrite append_empty_r, after_nil. destruct st; reflexivity.
  - unfold bind. rewrite chat_callback_run. rewrite IH; simpl.
    rewrite append_assoc, after_after.
    destruct (Content (Message resp) =? "")%string; reflexivity.
Qed.

(** What a turn does when the line is an exit command. *)
Lemma chat_iteration_break (messages : list api.Message.t) (t : Turn api.ChatResponse.t)
    (w : World) (input : string) :
  line t = Ok input ->
  strings.TrimSpace input <> "" ->
  isExitCommand unicode_ToLower (strings.TrimSpace input) = true ->
  iteration unicode_ToLower messages t w
  = (Ret (Break, messages), after w [Stdout promptLine; ReadStdin; Stdout goodbyeLine]).
Proof.
  intros Hline Hne Hexit. apply String.eqb_neq in Hne.
  unfold iteration. rewrite Hline. cbv zeta.
  unfold bind, Print, Println, emit, ret, after; simpl.
  rewrite Hne, Hexit. simpl. repeat rewrite <- app_assoc. reflexivity.
Qed.

(** What a turn does when the line is a new user turn. *)
Lemma chat_iteration_turn (messages : list api.Message.t) (t : Turn api.ChatResponse.t)
    (w : World) (input : string) :
  line t = Ok input ->
  strings.TrimSpace input <> "" ->
  isExitCommand unicode_ToLower (strings.TrimSpace input) = false ->
  let text := strings.TrimSpace input in
  let answer := concatText (contents (frags t)) in
  let history := (messages ++ [message "user" text])%list in
  iteration unicode_ToLower messages t w =
  (Ret (Continue, (history ++ [message "assistant" answer])%list),
   mkWorld
     (trace w
      ++ [Stdout promptLine; ReadStdin; WithTimeout (scopes w) 30;
          Call (Scope (scopes w)) (Chat (api.ChatRequest.mk defaultModel history "low"))]
      ++ answerEvents (contents (frags t))
      ++ match callError t with
         | Some e => [Stdout (failureLine e)]
         | None => []
         end
      ++ [Stdout LF; Cancel (scopes w)])%list
     (S (scopes w)) (deferred w)).
Proof.
  intros Hline Hne Hexit text answer history.
  unfold iteration. rewrite Hline.
  apply String.eqb_neq in Hne.
  unfold bind at 1. unfold Print; rewrite emit_after.
  unfold bind at 1. rewrite emit_after.
  cbv zeta. rewrite Hne, Hexit.
  unfold bind at 1. unfold contextWithTimeout; simpl.
  unfold bind at 1. unfold chat, stream. unfold bind at 1. rewrite emit_after.
  rewrite chat_deliver_run; simpl.
  destruct (callError t) as [e|]; unfold bind, Print, Println, cancel, emit, ret, after; simpl;
    (f_equal; f_equal; repeat rewrite <- app_assoc; reflexivity).
Qed.

End ChatFacts.

(** ** The single-prompt variant *)

Section GenerateFacts.

Import api.GenerateResponse GenerateVariant.

Variable unicode_ToLower : Z -> Z.

Lemma generate_callback_run (g : api.GenerateResponse.t) (st : Stream) (w : World) :
  callback g st w =
  (Ret (mkStream (fullResponse st ++ Response g)
                 (thinkingDone st || nonEmpty (Response g)), None),
   after w (rendering (thinkingDone st) g)).
Proof.
  unfold callback, rendering, answerEvents, nonEmpty, bind, Print, emit, ret, after.
  destruct st as [full done]; destruct w as [tr sc df]; simpl.
  destruct (String.eqb_spec (Thinking g) "") as [_|_];
  destruct (String.eqb_spec (Response g) "") as [E|_];
  destruct done; simpl; try rewrite E; try rewrite append_empty_r;
  repeat rewrite <- app_assoc; simpl; try rewrite app_nil_r; reflexivity.
Qed.

Lemma generate_deliver_run (frags : list api.GenerateResponse.t) (err : option string) :
  forall (st : Stream) (w : World),
  deliver callback frags err st w =
  (Ret (mkStream (fullResponse st ++ concatText (responses frags))
                 (thinkingDone st || existsb nonEmpty (responses frags)), err),
   after w (renderings (thinkingDone st) frags)).
Proof.
  induction frags as [|g frags IH]; intros st w; simpl.
  - rewrite append_empty_r, after_nil, orb_false_r. destruct st; reflexivity.
  - unfold bind. rewrite generate_callback_run. rewrite IH; simpl.
    now rewrite append_assoc, after_after, orb_assoc.
Qed.

(** Once [thinkingDone] is set, only the answer text is printed. *)
Lemma renderings_done (frags : list api.GenerateResponse.t) :
  renderings true frags = answerEvents (responses frags).
Proof.
  induction frags as [|g frags IH]; simpl; [reflexivity|].
  rewrite IH. unfold rendering.
  rewrite !andb_false_r. simpl. now rewrite app_nil_r.
Qed.

Lemma renderings_app (done : bool) (a b : list api.GenerateResponse.t) :
  renderings done (a ++ b)
  = (renderings done a ++ renderings (done || existsb nonEmpty (responses a)) b)%list.
Proof.
  revert done. induction a as [|g a IH]; intros done; simpl.
  - now rewrite orb_false_r.
  - now rewrite IH, <- app_assoc, orb_assoc.
Qed.

Lemma renderings_quiet (done : bool) (frags : list api.GenerateResponse.t) :
  existsb toStderr (renderings done frags) = false
  /\ existsb isCall (renderings done frags) = false.
Proof.
  revert done. induction frags as [|g frags IH]; intros done; simpl;
    [split; reflexivity|].
  destruct (IH (done || nonEmpty (Response g))) as [IH1 IH2].
  rewrite !existsb_app, IH1, IH2. unfold rendering, answerEvents. simpl.
  destruct (negb (Thinking g =? "")%string && negb done);
  destruct (negb (Response g =? "")%string && negb done);
  destruct (Response g =? "")%string; split; reflexivity.
Qed.

Lemma renderings_silent (done : bool) (frags : list api.GenerateResponse.t) :
  filter isContextEvent (renderings done frags) = [].
Proof.
  revert done. induction frags as [|g frags IH]; intros done; simpl; [reflexivity|].
  rewrite filter_app, IH. unfold rendering, answerEvents. simpl.
  destruct (negb (Thinking g =? "")%string && negb done);
  destruct (negb (Response g =? "")%string && negb done);
  destruct (Response g =? "")%string; reflexivity.
Qed.

Lemma held_renderings (done : bool) (frags : list api.GenerateResponse.t)
    (acc : list nat) :
  held (renderings done frags) acc = acc.
Proof.
  revert done acc. induction frags as [|g frags IH]; intros done acc; simpl;
    [reflexivity|].
  rewrite held_app, IH. unfold rendering, answerEvents. simpl.
  destruct (negb (Thinking g =? "")%string && negb done);
  destruct (negb (Response g =? "")%string && negb done);
  destruct (Response g =? "")%string; reflexivity.
Qed.

(** What a turn does when the line is an exit command. *)
Lemma generate_iteration_break (systemMsg : string) (t : Turn api.GenerateResponse.t)
    (w : World) (input : string) :
  line t = Ok input ->
  strings.TrimSpace input <> "" ->
  isExitCommand unicode_ToLower (strings.TrimSpace input) = true ->
  iteration unicode_ToLower systemMsg t w
  = (Ret Break, after w [Stdout promptLine; ReadStdin; Stdout goodbyeLine]).
Proof.
  intros Hline Hne Hexit. apply String.eqb_neq in Hne.
  unfold iteration. rewrite Hline. cbv zeta.
  unfold bind, Print, Println, emit, ret, after; simpl.
  rewrite Hne, Hexit. simpl. repeat rewrite <- app_assoc. reflexivity.
Qed.

(** What a turn does when the line is a prompt for the model. *)
Lemma generate_iteration_turn (systemMsg : string) (t : Turn api.GenerateResponse.t)
    (w : World) (input : string) :
  line t = Ok input ->
  strings.TrimSpace input <> "" ->
  isExitCommand unicode_ToLower (strings.TrimSpace input) = false ->
  iteration unicode_ToLower systemMsg t w =
  (Ret Continue,
   mkWorld
     (trace w
      ++ [Stdout promptLine; ReadStdin; WithTimeout (scopes w) 30;
          Call (Scope (scopes w))
               (Generate (api.GenerateRequest.mk defaultModel (strings.TrimSpace input)
                                                 systemMsg "low"))]
      ++ renderings false (frags t)
      ++ [match callError t with
          | Some e => Stdout (failureLine e)
          | None => Stdout LF
          end])%list
     (S (scopes w)) (scopes w :: deferred w)).
Proof.
  intros Hline Hne Hexit.
  unfold iteration. rewrite Hline.
  apply String.eqb_neq in Hne.
  unfold bind at 1. unfold Print; rewrite emit_after.
  unfold bind at 1. rewrite emit_after.
  cbv zeta. rewrite Hne, Hexit.
  unfold bind at 1. unfold contextWithTimeout; simpl.
  unfold bind at 1. unfold deferCancel; simpl.
  unfold bind at 1. unfold generate, stream. unfold bind at 1. rewrite emit_after.
  rewrite generate_deliver_run; simpl.
  destruct (callError t) as [e|]; unfold bind, Print, Println, emit, ret, after; simpl;
    (f_equal; f_equal; repeat rewrite <- app_assoc; reflexivity).
Qed.

End GenerateFacts.

(** ** The turns of the loop *)

Lemma newEvents_app (w : World) (evs : list Event) (n : nat) (d : list nat) :
  newEvents w (mkWorld (trace w ++ evs)%list n d) = evs.
Proof.
  unfold newEvents; simpl.
  rewrite skipn_app, skipn_all, Nat.sub_diag. reflexivity.
Qed.

(** C1. In the history-keeping variant, a line that is not empty once trimmed
    and is not an exit command makes the turn append exactly one user turn,
    whose content is the trimmed line, and exactly one assistant turn, whether
    the completion call succeeds or fails; the loop goes on. *)
Theorem C1_one_user_and_one_assistant_turn
    (unicode_ToLower : Z -> Z) (messages : list api.Message.t)
    (t : Turn api.ChatResponse.t) (w : World) (input : string) :
  line t = Ok input ->
  strings.TrimSpace input <> "" ->
  isExitCommand unicode_ToLower (strings.TrimSpace input) = false ->
  exists answer : string,
    fst (ChatVariant.iteration unicode_ToLower messages t w)
    = Ret (Continue,
           (messages ++ [api.Message.mk "user" (strings.TrimSpace input) "";
                         api.Message.mk "assistant" answer ""])%list)
    /\ (frags t = [] -> answer = "").
Proof.
  intros Hline Hne Hexit.
  exists (concatText (contents (frags t))).
  rewrite (chat_iteration_turn unicode_ToLower messages t w input Hline Hne Hexit).
  simpl. rewrite <- app_assoc. split; [reflexivity|].
  intros ->. reflexivity.
Qed.

Lemma C1_witness_failed_call :
  let t := mkTurn (Ok ("hello" ++ LF)) [] (Some "connection refused") in
  exists answer : string,
    fst (ChatVariant.iteration idRune [message "system" fallbackSystemMessage] t World0)
    = Ret (Continue,
           [message "system" fallbackSystemMessage;
            api.Message.mk "user" "hello" ""; api.Message.mk "assistant" answer ""])
    /\ (frags t = [] -> answer = "").
Proof.
  intros t.
  apply (C1_one_user_and_one_assistant_turn idRune
           [message "system" fallbackSystemMessage] t World0 ("hello" ++ LF)).
  - reflexivity.
  - vm_compute. discriminate.
  - vm_compute. reflexivity.
Defined.

(** Over a script of new user turns that ends with the line "exit", the
    loop returns a history with two more turns for each of them. *)
Lemma chat_history_grows_by_two (f : Z -> Z) (turns : list (Turn api.ChatResponse.t))
    (bye : Turn api.ChatResponse.t) :
  Forall (isUserTurn f) turns ->
  line bye = Ok ("exit" ++ LF) ->
  forall (messages : list api.Message.t) (w : World),
  exists (history : list api.Message.t) (w' : World),
    ChatVariant.chatLoop f messages (turns ++ [bye])%list w = (Ret history, w')
    /\ List.length history = List.length messages + 2 * List.length turns.
Proof.
  intros Hturns Hbye. induction Hturns as [|t turns (input & Hline & Hne & Hexit) _ IH];
    intros messages w.
  - exists messages. eexists. split; [|simpl; lia].
    unfold ChatVariant.chatLoop. cbn [app forever]. unfold bind at 1.
    rewrite (chat_iteration_break f messages bye w ("exit" ++ LF) Hbye);
      [reflexivity | vm_compute; discriminate | reflexivity].
  - pose proof (chat_iteration_turn f messages t w input Hline Hne Hexit) as Hit.
    cbv zeta in Hit.
    unfold ChatVariant.chatLoop in *. cbn [app forever]. unfold bind at 1. rewrite Hit.
    match goal with
    | |- context [forever _ ?h _ ?w1] => destruct (IH h w1) as (history & w' & E & L)
    end.
    exists history, w'. split; [exact E|].
    rewrite L, !length_app. simpl. lia.
Qed.

(** C2. The text a streaming call accumulates is the concatenation, in the
    order of arrival, of the non-empty visible texts of all its fragments,
    in both variants; in the history-keeping variant it is the content of the
    assistant turn, which is "Hi there" for the fragments "Hi" and " there". *)
Theorem C2_answer_is_concatenation_in_order :
  (forall (ctx : nat) (req : api.ChatRequest.t) (t : Turn api.ChatResponse.t) (w : World),
     fst (ChatVariant.chat ctx req t w)
     = Ret (mkStream (concatText (filter nonEmpty (contents (frags t)))) false,
            callError t))
  /\ (forall (f : Z -> Z) (messages : list api.Message.t) (t : Turn api.ChatResponse.t)
            (w : World) (input : string),
        line t = Ok input ->
        strings.TrimSpace input <> "" ->
        isExitCommand f (strings.TrimSpace input) = false ->
        fst (ChatVariant.iteration f messages t w)
        = Ret (Continue,
               (messages
                ++ [message "user" (strings.TrimSpace input);
                    message "assistant"
                      (concatText (filter nonEmpty (contents (frags t))))])%list))
  /\ concatText (filter nonEmpty
                   (contents [chatFragment "Hi"; chatFragment " there"]))
     = "Hi there"
  /\ (forall (ctx : nat) (req : api.GenerateRequest.t)
            (t : Turn api.GenerateResponse.t) (w : World),
        exists done : bool,
          fst (GenerateVariant.generate ctx req t w)
          = Ret (mkStream (concatText (filter nonEmpty (responses (frags t))))
                          done,
                 callError t)).
Proof.
  repeat split.
  - intros ctx req t w. unfold ChatVariant.chat, stream, bind. rewrite emit_after.
    rewrite chat_deliver_run. simpl. now rewrite concatText_nonEmpty.
  - intros f messages t w input Hline Hne Hexit.
    rewrite (chat_iteration_turn f messages t w input Hline Hne Hexit).
    simpl. now rewrite concatText_nonEmpty, <- app_assoc.
  - intros ctx req t w. eexists.
    unfold GenerateVariant.generate, stream, bind. rewrite emit_after.
    rewrite generate_deliver_run. simpl. rewrite concatText_nonEmpty. reflexivity.
Qed.

Lemma C2_witness_hi_there :
  let t := mkTurn (Ok ("hello" ++ LF)) [chatFragment "Hi"; chatFragment " there"] None in
  fst (ChatVariant.iteration idRune [message "system" fallbackSystemMessage] t World0)
  = Ret (Continue,
         [message "system" fallbackSystemMessage; message "user" "hello";
          message "assistant" "Hi there"]).
Proof.
  intros t.
  apply (proj1 (proj2 C2_answer_is_concatenation_in_order) idRune
           [message "system" fallbackSystemMessage] t World0 ("hello" ++ LF)).
  - reflexivity.
  - vm_compute. discriminate.
  - vm_compute. reflexivity.
Defined.

(** C3. A line that, once trimmed, matches "exit" case-insensitively ends
    the loop normally, in both variants: the turn prints the farewell and
    breaks, the history is the one it started with, nothing is asked of the
    model server, and the rest of the input is not read. *)
Theorem C3_exit_ends_the_loop (unicode_ToLower : Z -> Z) (input : string) :
  caseInsensitiveEq (strings.TrimSpace input) "exit" = true ->
  (forall (messages : list api.Message.t) (t : Turn api.ChatResponse.t)
          (rest : list (Turn api.ChatResponse.t)) (w : World),
     line t = Ok input ->
     ChatVariant.iteration unicode_ToLower messages t w
     = (Ret (Break, messages), after w [Stdout promptLine; ReadStdin; Stdout goodbyeLine])
     /\ ChatVariant.chatLoop unicode_ToLower messages (t :: rest) w
        = (Ret messages, after w [Stdout promptLine; ReadStdin; Stdout goodbyeLine]))
  /\ (forall (systemMsg : string) (t : Turn api.GenerateResponse.t)
             (rest : list (Turn api.GenerateResponse.t)) (w : World),
        line t = Ok input ->
        GenerateVariant.iteration unicode_ToLower systemMsg t w
        = (Ret Break, after w [Stdout promptLine; ReadStdin; Stdout goodbyeLine])
        /\ GenerateVariant.chatLoop unicode_ToLower systemMsg (t :: rest) w
           = (Ret tt, after w [Stdout promptLine; ReadStdin; Stdout goodbyeLine])).
Proof.
  intros Hfold.
  assert (Hne : strings.TrimSpace input <> "").
  { destruct (strings.TrimSpace input); [discriminate | discriminate]. }
  assert (Hexit : isExitCommand unicode_ToLower (strings.TrimSpace input) = true).
  { unfold isExitCommand.
    rewrite (caseInsensitiveEq_ToLower unicode_ToLower _ "exit" Hfold);
      reflexivity. }
  split.
  - intros messages t rest w Hline.
    pose proof (chat_iteration_break unicode_ToLower messages t w input Hline Hne Hexit)
      as Hit.
    split; [exact Hit|].
    unfold ChatVariant.chatLoop; simpl. unfold bind at 1. rewrite Hit. reflexivity.
  - intros systemMsg t rest w Hline.
    pose proof (generate_iteration_break unicode_ToLower systemMsg t w input Hline Hne Hexit)
      as Hit.
    split; [exact Hit|].
    unfold GenerateVariant.chatLoop; simpl. unfold bind at 1. unfold bind at 1.
    rewrite Hit. reflexivity.
Qed.

Lemma C3_witness_mixed_case :
  let input := "  ExIt " ++ LF in
  let t := mkTurn (Ok input) [chatFragment "never sent"] None in
  let history := [message "system" fallbackSystemMessage] in
  caseInsensitiveEq (strings.TrimSpace input) "exit" = true
  /\ ChatVariant.chatLoop idRune history [t; t] World0
     = (Ret history, after World0 [Stdout promptLine; ReadStdin; Stdout goodbyeLine]).
Proof.
  intros input t history. split; [reflexivity|].
  apply (proj1 (C3_exit_ends_the_loop idRune input eq_refl) history t [t] World0).
  reflexivity.
Defined.

(** C10. The line "quit", once trimmed, ends the loop as well, but only in
    this spelling: the match is case-sensitive.  A line that is "quit" up
    to the case of its letters and is not "quit" itself ("QUIT", "Quit",
    "qUIT", ...) is not an exit command, and is sent to the model as a new
    user turn (the history-keeping variant) or as the prompt (the
    single-prompt variant). *)
Theorem C10_quit_is_case_sensitive (unicode_ToLower : Z -> Z) (input : string) :
  (strings.TrimSpace input = "quit" ->
   (forall (messages : list api.Message.t) (t : Turn api.ChatResponse.t) (w : World),
      line t = Ok input ->
      fst (ChatVariant.iteration unicode_ToLower messages t w) = Ret (Break, messages))
   /\ (forall (systemMsg : string) (t : Turn api.GenerateResponse.t) (w : World),
         line t = Ok input ->
         fst (GenerateVariant.iteration unicode_ToLower systemMsg t w) = Ret Break))
  /\ (caseInsensitiveEq (strings.TrimSpace input) "quit" = true ->
      strings.TrimSpace input <> "quit" ->
      isExitCommand unicode_ToLower (strings.TrimSpace input) = false
      /\ (forall (messages : list api.Message.t) (t : Turn api.ChatResponse.t) (w : World),
            line t = Ok input ->
            fst (ChatVariant.iteration unicode_ToLower messages t w)
            = Ret (Continue,
                   (messages
                    ++ [message "user" (strings.TrimSpace input);
                        message "assistant"
                          (concatText (contents (frags t)))])%list))
      /\ (forall (systemMsg : string) (t : Turn api.GenerateResponse.t) (w : World),
            line t = Ok input ->
            fst (GenerateVariant.iteration unicode_ToLower systemMsg t w) = Ret Continue
            /\ In (Call (Scope (scopes w))
                        (Generate (api.GenerateRequest.mk defaultModel
                                     (strings.TrimSpace input) systemMsg "low")))
                  (newEvents w (snd (GenerateVariant.iteration unicode_ToLower systemMsg t w))))).
Proof.
  split.
  - intros Hq. split.
    + intros messages t w Hline.
      unfold ChatVariant.iteration. rewrite Hline. cbv zeta. rewrite Hq.
      reflexivity.
    + intros systemMsg t w Hline.
      unfold GenerateVariant.iteration. rewrite Hline. cbv zeta. rewrite Hq.
      reflexivity.
  - intros Hfold Hq.
    assert (Hne : strings.TrimSpace input <> "").
    { intros E. rewrite E in Hfold. discriminate. }
    assert (Hexit : isExitCommand unicode_ToLower (strings.TrimSpace input) = false).
    { unfold isExitCommand.
      rewrite (caseInsensitiveEq_ToLower unicode_ToLower _ "quit" Hfold) by reflexivity.
      apply String.eqb_neq in Hq. rewrite Hq. reflexivity. }
    split; [exact Hexit|]. split.
    + intros messages t w Hline.
      rewrite (chat_iteration_turn unicode_ToLower messages t w input Hline Hne Hexit).
      simpl. now rewrite <- app_assoc.
    + intros systemMsg t w Hline.
      rewrite (generate_iteration_turn unicode_ToLower systemMsg t w input Hline Hne Hexit).
      split; [reflexivity|].
      cbn [snd]. rewrite newEvents_app. simpl. auto.
Qed.

Lemma C10_witness_quit_and_QUIT :
  let history := [message "system" fallbackSystemMessage] in
  let t1 := mkTurn (Ok ("quit" ++ LF)) [chatFragment "never sent"] None in
  let t2 := mkTurn (Ok ("QUIT" ++ LF)) [chatFragment "Why?"] None in
  let t3 := mkTurn (Ok (" Quit" ++ LF)) [chatFragment "Why?"] None in
  fst (ChatVariant.iteration idRune history t1 World0) = Ret (Break, history)
  /\ fst (ChatVariant.iteration idRune history t2 World0)
     = Ret (Continue, history ++ [message "user" "QUIT"; message "assistant" "Why?"])%list
  /\ fst (ChatVariant.iteration idRune history t3 World0)
     = Ret (Continue, history ++ [message "user" "Quit"; message "assistant" "Why?"])%list.
Proof.
  intros history t1 t2 t3. split; [|split].
  - apply (proj1 (proj1 (C10_quit_is_case_sensitive idRune ("quit" ++ LF)) eq_refl)
             history t1 World0).
    reflexivity.
  - refine (proj1 (proj2 (proj2 (C10_quit_is_case_sensitive idRune ("QUIT" ++ LF)) _ _))
              history t2 World0 _).
    + reflexivity.
    + vm_compute. discriminate.
    + reflexivity.
  - refine (proj1 (proj2 (proj2 (C10_quit_is_case_sensitive idRune (" Quit" ++ LF)) _ _))
              history t3 World0 _).
    + reflexivity.
    + vm_compute. discriminate.
    + reflexivity.
Defined.

(** C5, as stated, fails: for the line "hello" and a call that fails with
    "connection refused", nothing is written to the standard error stream. *)
Lemma C5_counterexample_nothing_on_stderr : ~ failureReportedOnStderr.
Proof.
  intros H.
  destruct (H idRune [message "system" fallbackSystemMessage]
              (mkTurn (Ok ("hello" ++ LF)) [chatFragment "Hi"] (Some "connection refused"))
              World0 ("hello" ++ LF) "connection refused") as [Hstderr _].
  - reflexivity.
  - vm_compute. discriminate.
  - vm_compute. reflexivity.
  - reflexivity.
  - vm_compute in Hstderr. discriminate.
Qed.

(** C5, amended. If a streaming completion call fails, the error is printed
    on the standard output, in the line [failureLine], and nothing is written
    to the standard error stream; the history keeps the user turn and the
    assistant turn already appended; the loop goes on with the next turn. *)
Theorem C5_failed_call_is_printed_and_loop_goes_on
    (f : Z -> Z) (input e : string) :
  strings.TrimSpace input <> "" ->
  isExitCommand f (strings.TrimSpace input) = false ->
  (forall (messages : list api.Message.t) (t : Turn api.ChatResponse.t)
          (rest : list (Turn api.ChatResponse.t)) (w : World),
     line t = Ok input ->
     callError t = Some e ->
     let r := ChatVariant.iteration f messages t w in
     let history :=
       (messages
        ++ [message "user" (strings.TrimSpace input);
            message "assistant" (concatText (contents (frags t)))])%list in
     fst r = Ret (Continue, history)
     /\ In (Stdout (failureLine e)) (newEvents w (snd r))
     /\ existsb toStderr (newEvents w (snd r)) = false
     /\ ChatVariant.chatLoop f messages (t :: rest) w
        = ChatVariant.chatLoop f history rest (snd r))
  /\ (forall (systemMsg : string) (t : Turn api.GenerateResponse.t)
             (rest : list (Turn api.GenerateResponse.t)) (w : World),
        line t = Ok input ->
        callError t = Some e ->
        let r := GenerateVariant.iteration f systemMsg t w in
        fst r = Ret Continue
        /\ In (Stdout (failureLine e)) (newEvents w (snd r))
        /\ existsb toStderr (newEvents w (snd r)) = false
        /\ GenerateVariant.chatLoop f systemMsg (t :: rest) w
           = GenerateVariant.chatLoop f systemMsg rest (snd r)).
Proof.
  intros Hne Hexit. split.
  - intros messages t rest w Hline Herr r history.
    pose proof (chat_iteration_turn f messages t w input Hline Hne Hexit) as Hit.
    cbv zeta in Hit. rewrite Herr in Hit.
    assert (Hfst : fst r = Ret (Continue, history)).
    { unfold r. rewrite Hit. simpl. unfold history. now rewrite <- app_assoc. }
    split; [exact Hfst|].
    unfold r at 1 2. rewrite Hit. cbn [snd]. rewrite newEvents_app.
    split; [|split].
    + apply in_or_app. right. apply in_or_app. right. simpl. auto.
    + rewrite !existsb_app.
      rewrite (proj1 (answerEvents_quiet _)). reflexivity.
    + unfold ChatVariant.chatLoop. simpl. unfold bind at 1.
      fold r. destruct r as [o w']. simpl in Hfst. subst o. reflexivity.
  - intros systemMsg t rest w Hline Herr r.
    pose proof (generate_iteration_turn f systemMsg t w input Hline Hne Hexit) as Hit.
    rewrite Herr in Hit.
    assert (Hfst : fst r = Ret Continue) by (unfold r; now rewrite Hit).
    split; [exact Hfst|].
    unfold r at 1 2. rewrite Hit. cbn [snd]. rewrite newEvents_app.
    split; [|split].
    + apply in_or_app. right. apply in_or_app. right. simpl. auto.
    + rewrite !existsb_app.
      rewrite (proj1 (renderings_quiet _ _)). reflexivity.
    + unfold GenerateVariant.chatLoop. simpl. unfold bind at 1. unfold bind at 1.
      fold r. destruct r as [o w']. simpl in Hfst. subst o. reflexivity.
Qed.

Lemma C5_witness_connection_refused :
  let history := [message "system" fallbackSystemMessage] in
  let t := mkTurn (Ok ("hello" ++ LF)) [chatFragment "Hi"] (Some "connection refused") in
  let r := ChatVariant.iteration idRune history t World0 in
  fst r = Ret (Continue, history ++ [message "user" "hello"; message "assistant" "Hi"])%list
  /\ In (Stdout (failureLine "connection refused")) (newEvents World0 (snd r))
  /\ existsb toStderr (newEvents World0 (snd r)) = false
  /\ ChatVariant.chatLoop idRune history [t] World0
     = ChatVariant.chatLoop idRune
         (history ++ [message "user" "hello"; message "assistant" "Hi"])%list [] (snd r).
Proof.
  intros history t r.
  assert (Hne : strings.TrimSpace ("hello" ++ LF) <> "") by (vm_compute; discriminate).
  apply (proj1 (C5_failed_call_is_printed_and_loop_goes_on idRune ("hello" ++ LF)
                  "connection refused" Hne eq_refl) history t [] World0);
    reflexivity.
Defined.

(** C9. In one call of the single-prompt variant, once a fragment with a
    non-empty answer text has arrived, the fragments after it print their
    answer text and nothing else, whatever reasoning text they carry: the
    reasoning is not shown again.  Before that, a fragment with a reasoning
    text shows it first, cut to its first 100 bytes (and three dots) when it
    is longer than 100 bytes. *)
Theorem C9_reasoning_display_is_finalized :
  (forall (before later : list api.GenerateResponse.t) (g : api.GenerateResponse.t)
          (err : option string) (w : World),
     api.GenerateResponse.Response g <> "" ->
     exists (evs : list Event) (st st' : Stream),
       deliver GenerateVariant.callback (before ++ [g]) None (mkStream "" false) w
       = (Ret (st, None), after w evs)
       /\ thinkingDone st = true
       /\ deliver GenerateVariant.callback (before ++ g :: later) err (mkStream "" false) w
          = (Ret (st', err),
             after w (evs ++ answerEvents (responses later)))
       /\ existsb showsThinking (answerEvents (responses later)) = false)
  /\ (forall (g : api.GenerateResponse.t) (st : Stream) (w : World),
        thinkingDone st = false ->
        api.GenerateResponse.Thinking g <> "" ->
        let thinking := api.GenerateResponse.Thinking g in
        let shown :=
          if (String.length thinking <=? 100)%nat then thinking
          else substring 0 100 thinking ++ "..." in
        (exists evs : list Event,
           snd (GenerateVariant.callback g st w)
           = after w (Stdout (CR ++ Yellow ++ "🧠 Thinking..." ++ Reset ++ " "
                              ++ shown ++ EraseLine) :: evs))
        /\ String.length shown <= 103).
Proof.
  split.
  - intros before later g err w Hg.
    assert (Hdone : existsb nonEmpty (responses (before ++ [g])) = true).
    { unfold responses. rewrite map_app, existsb_app. simpl.
      unfold nonEmpty at 2. apply String.eqb_neq in Hg. rewrite Hg.
      simpl. now rewrite orb_true_r. }
    eexists. eexists. eexists. split; [|split; [|split]].
    + apply generate_deliver_run.
    + simpl. exact Hdone.
    + replace (before ++ g :: later)%list with ((before ++ [g]) ++ later)%list
        by (rewrite <- app_assoc; reflexivity).
      rewrite generate_deliver_run. cbn [thinkingDone fullResponse].
      rewrite renderings_app. cbn [orb]. rewrite Hdone.
      rewrite renderings_done. reflexivity.
    + apply answerEvents_no_thinking.
  - intros g st w Hst Hth thinking shown.
    assert (Hshown : shown = GenerateVariant.currentThinking thinking).
    { unfold shown, GenerateVariant.currentThinking, GenerateVariant.maxLen, slice.
      rewrite Nat.leb_antisym. destruct (100 <? String.length thinking)%nat; reflexivity. }
    split.
    + rewrite generate_callback_run. cbn [snd]. unfold rendering.
      rewrite Hst. apply String.eqb_neq in Hth. rewrite Hth. cbn [negb andb].
      rewrite Hshown. eexists. reflexivity.
    + unfold shown. destruct (Nat.leb_spec (String.length thinking) 100) as [L|L].
      * lia.
      * rewrite length_append, length_substring by lia. simpl. lia.
Qed.

Lemma C9_witness_thinking_after_answer :
  let before := [api.GenerateResponse.mk "" "pondering"] in
  let g := api.GenerateResponse.mk "Hi" "still pondering" in
  let later := [api.GenerateResponse.mk " there" "an afterthought"] in
  exists (evs : list Event) (st st' : Stream),
    deliver GenerateVariant.callback (before ++ [g]) None (mkStream "" false) World0
    = (Ret (st, None), after World0 evs)
    /\ thinkingDone st = true
    /\ deliver GenerateVariant.callback (before ++ g :: later) None (mkStream "" false) World0
       = (Ret (st', None),
          after World0 (evs ++ answerEvents (responses later)))
    /\ existsb showsThinking (answerEvents (responses later)) = false.
Proof.
  intros before g later.
  apply (proj1 C9_reasoning_display_is_finalized before later g None World0).
  simpl. discriminate.
Defined.

(** ** Cancellation scopes *)

Lemma remove_fresh (id : nat) (acc : list nat) :
  ~ In id acc -> remove Nat.eq_dec id (acc ++ [id])%list = acc.
Proof.
  intros H. rewrite remove_app. simpl.
  destruct (Nat.eq_dec id id) as [_|N]; [|contradiction].
  rewrite app_nil_r. now apply notin_remove.
Qed.

(** In the history-keeping variant a turn leaves the held scopes as they
    were: the scope of the call is cancelled before the turn ends. *)
Lemma chat_turn_releases_scope (f : Z -> Z) (messages : list api.Message.t)
    (t : Turn api.ChatResponse.t) (w : World) :
  ~ In (scopes w) (heldScopes w) ->
  heldScopes (snd (ChatVariant.iteration f messages t w)) = heldScopes w.
Proof.
  intros Hfresh.
  destruct (line t) as [input|e] eqn:Hline.
  - destruct (String.eqb_spec (strings.TrimSpace input) "") as [He|Hne].
    + unfold ChatVariant.iteration. rewrite Hline. cbv zeta. rewrite He.
      unfold heldScopes. simpl. rewrite <- app_assoc, held_app. reflexivity.
    + destruct (isExitCommand f (strings.TrimSpace input)) eqn:Hexit.
      * unfold ChatVariant.iteration. rewrite Hline. cbv zeta.
        apply String.eqb_neq in Hne. rewrite Hne, Hexit.
        unfold heldScopes. simpl. rewrite <- !app_assoc, held_app. reflexivity.
      * rewrite (chat_iteration_turn f messages t w input Hline Hne Hexit).
        unfold heldScopes. cbn [snd trace].
        rewrite held_app. cbn [held app].
        rewrite held_app, held_answerEvents.
        destruct (callError t); cbn [held app]; now apply remove_fresh.
  - unfold ChatVariant.iteration. rewrite Hline.
    unfold heldScopes. simpl. rewrite <- app_assoc, held_app. reflexivity.
Qed.

(** In the single-prompt variant the scope of the call is still held when
    the turn ends: its cancel is deferred to the return of [main]. *)
Lemma generate_turn_keeps_scope (f : Z -> Z) (systemMsg : string)
    (t : Turn api.GenerateResponse.t) (w : World) (input : string) :
  line t = Ok input ->
  strings.TrimSpace input <> "" ->
  isExitCommand f (strings.TrimSpace input) = false ->
  heldScopes (snd (GenerateVariant.iteration f systemMsg t w))
  = (heldScopes w ++ [scopes w])%list.
Proof.
  intros Hline Hne Hexit.
  rewrite (generate_iteration_turn f systemMsg t w input Hline Hne Hexit).
  unfold heldScopes. cbn [snd trace].
  rewrite held_app. cbn [held app].
  rewrite held_app, held_renderings.
  destruct (callError t); reflexivity.
Qed.

(** C8. In [src/main.go] the scope of a completion call is not released
    before the next line is read: [defer cancel()] inside the loop runs only
    when [main] returns.  With the lines "hi", "again" and "exit", the scope
    of the first call (1) is still held when the second and the third line
    are read, and the scope of the second call (2) when the third is read;
    all are cancelled after the farewell.  The history-keeping variant
    cancels at the end of each turn: only the scope of the start-up (0) is
    held when a line is read. *)
Theorem C8_scopes_held_across_turns_in_main_go :
  heldAtReads
    (trace (snd (GenerateVariant.main idRune serverUp
                   [say "hi"; say "again"; say "exit"] World0))) []
  = [[0]; [0; 1]; [0; 1; 2]]
  /\ heldScopes (snd (GenerateVariant.main idRune serverUp
                        [say "hi"; say "again"; say "exit"] World0)) = []
  /\ heldAtReads
       (trace (snd (ChatVariant.main idRune serverUp
                      [say "hi"; say "again"; say "exit"] World0))) []
     = [[0]; [0]; [0]].
Proof. vm_compute. repeat split. Qed.

(** ** The contexts of the calls *)

Lemma runs_ret {A} (a : A) : runs (ret a) a [].
Proof. intros w. exists []. now rewrite after_nil. Qed.

Lemma runs_bind {A B} (m : M A) (k : A -> M B) (a : A) (b : B) (e1 e2 : list Event) :
  runs m a e1 -> runs (k a) b e2 -> runs (bind m k) b (e1 ++ e2)%list.
Proof.
  intros Hm Hk w.
  destruct (Hm w) as (all1 & E1 & F1).
  destruct (Hk (after w all1)) as (all2 & E2 & F2).
  exists (all1 ++ all2)%list. unfold bind. rewrite E1, E2, after_after.
  split; [reflexivity|]. now rewrite filter_app, F1, F2.
Qed.

Lemma runs_emit (e : Event) : runs (emit e) tt (filter isContextEvent [e]).
Proof. intros w. exists [e]. split; reflexivity. Qed.

Lemma runs_Print (s : string) : runs (Print s) tt [].
Proof. apply (runs_emit (Stdout s)). Qed.

Lemma runs_call {A} (ctx : Ctx) (req : Request) (answer : A) :
  runs (call ctx req answer) answer [Call ctx req].
Proof.
  unfold call. apply (runs_bind _ _ tt answer [Call ctx req] []).
  - apply (runs_emit (Call ctx req)).
  - apply runs_ret.
Qed.

Lemma runs_printModels (models : list string) :
  forall i : nat, runs (printModels i models) tt [].
Proof.
  induction models as [|name models IH]; intros i; simpl.
  - apply runs_ret.
  - apply (runs_bind _ _ tt tt [] []); [apply runs_Print | apply IH].
Qed.

Lemma runs_printCapabilities (caps : list string) :
  runs (printCapabilities caps) tt [].
Proof.
  induction caps as [|c caps IH]; simpl.
  - apply runs_ret.
  - apply (runs_bind _ _ tt tt [] []); [apply runs_Print | apply IH].
Qed.

Lemma runs_pullProgress (statuses : list string) (err : option string) :
  runs (deliver GenerateVariant.pullProgressFn statuses err tt) (tt, err) [].
Proof.
  induction statuses as [|st statuses IH]; simpl.
  - apply runs_ret.
  - apply (runs_bind _ _ (tt, None) (tt, err) [] []); [|exact IH].
    unfold GenerateVariant.pullProgressFn.
    apply (runs_bind _ _ tt (tt, None) [] []); [|apply runs_ret].
    destruct (st =? "success")%string; apply runs_Print.
Qed.

Lemma runs_seedSystemMessage (env : Startup) :
  runs (seedSystemMessage env) (seededMessage env) [].
Proof.
  unfold seedSystemMessage, loadSystemMessage, seededMessage.
  destruct (readFile env "system.txt") as [data|e].
  - apply (runs_bind _ _ (Ok (strings.TrimSpace data)) _ [] []); [|apply runs_ret].
    apply (runs_bind _ _ tt _ [] []); [apply (runs_emit (ReadFile _)) | apply runs_ret].
  - apply (runs_bind _ _ (Err e) _ [] []).
    + apply (runs_bind _ _ tt _ [] []); [apply (runs_emit (ReadFile _)) | apply runs_ret].
    + apply (runs_bind _ _ tt _ [] []); [apply (runs_emit (Log _)) | apply runs_ret].
Qed.

(** The calls of the start-up of [src/main.go] and their contexts. *)
Lemma startup_contexts (env : Startup) (w : World) :
  reachesLoop env ->
  exists all : list Event,
    GenerateVariant.startup env w
    = (Ret (scopes w, seededMessage env),
       mkWorld (trace w ++ all)%list (S (scopes w)) (scopes w :: deferred w))
    /\ filter isContextEvent all
       = [WithTimeout (scopes w) 5;
          Call (Scope (scopes w)) Heartbeat;
          Call (Scope (scopes w)) Version;
          Call (Scope (scopes w)) List;
          Call Background (Pull embeddingModel);
          Call (Scope (scopes w)) (Embed embeddingModel GenerateVariant.embedInput);
          Call (Scope (scopes w)) (Show defaultModel)].
Proof.
  intros (Hc & Hh & (v & Hv) & (models & Hl) & Hp & (e0 & es & He) & (caps & Hs)).
  pose proof (runs_seedSystemMessage env) as Hseed.
  set (systemMsg := seededMessage env) in *.
  set (c := scopes w).
  assert (R : runs
    (NewOllamaClient env ;;
     systemMsg <- seedSystemMessage env ;;
     GenerateVariant.connect env (Scope c) ;;
     versionAndModels env (Scope c) ;;
     GenerateVariant.pullEmbeddingModel env ;;
     GenerateVariant.testEmbedding env (Scope c) ;;
     showCapabilities env (Scope c) ;;
     Println [LF ++ Blue ++ "🗨️  Start chatting with your AI (type 'exit' to quit)"
              ++ Reset] ;;
     ret (c, systemMsg))
    (c, systemMsg)
    ([] ++ [] ++ [Call (Scope c) Heartbeat]
        ++ [Call (Scope c) Version; Call (Scope c) List]
        ++ [Call Background (Pull embeddingModel)]
        ++ [Call (Scope c) (Embed embeddingModel GenerateVariant.embedInput)]
        ++ [Call (Scope c) (Show defaultModel)] ++ [] ++ [])%list).
  { apply (runs_bind _ _ tt).
    { unfold NewOllamaClient. rewrite Hc. apply runs_ret. }
    apply (runs_bind _ _ systemMsg); [exact Hseed|].
    apply (runs_bind _ _ tt).
    { unfold GenerateVariant.connect.
      apply (runs_bind _ _ tt _ [] [Call (Scope c) Heartbeat]); [apply runs_emit|].
      apply (runs_bind _ _ None _ [Call (Scope c) Heartbeat] []).
      - rewrite Hh. apply runs_call.
      - apply runs_emit. }
    apply (runs_bind _ _ tt).
    { unfold versionAndModels. rewrite Hv, Hl.
      apply (runs_bind _ _ (Ok v) _ [Call (Scope c) Version] [Call (Scope c) List]);
        [apply runs_call|].
      apply (runs_bind _ _ tt _ [] [Call (Scope c) List]); [apply runs_Print|].
      apply (runs_bind _ _ (Ok models) _ [Call (Scope c) List] []); [apply runs_call|].
      apply (runs_bind _ _ tt _ [] []); [apply runs_Print|].
      apply (runs_bind _ _ tt _ [] []); [apply runs_printModels|].
      apply (runs_bind _ _ tt _ [] []); apply runs_Print. }
    apply (runs_bind _ _ tt).
    { unfold GenerateVariant.pullEmbeddingModel.
      apply (runs_bind _ _ tt _ [] [Call Background (Pull embeddingModel)]);
        [apply runs_Print|].
      apply (runs_bind _ _ (tt, None) _ [Call Background (Pull embeddingModel)] []).
      - unfold stream.
        apply (runs_bind _ _ tt _ [Call Background (Pull embeddingModel)] []);
          [apply runs_emit|].
        rewrite Hp. apply runs_pullProgress.
      - apply runs_ret. }
    apply (runs_bind _ _ tt).
    { unfold GenerateVariant.testEmbedding. rewrite He.
      apply (runs_bind _ _ (Ok (e0 :: es)) _
               [Call (Scope c) (Embed embeddingModel GenerateVariant.embedInput)] []);
        [apply runs_call | apply runs_Print]. }
    apply (runs_bind _ _ tt).
    { unfold showCapabilities. rewrite Hs.
      apply (runs_bind _ _ (Ok caps) _ [Call (Scope c) (Show defaultModel)] []);
        [apply runs_call|].
      apply (runs_bind _ _ tt _ [] []); [apply runs_Print | apply runs_printCapabilities]. }
    apply (runs_bind _ _ tt); [apply runs_emit | apply runs_ret]. }
  destruct (R (mkWorld (trace w ++ [WithTimeout c 5])%list (S c) (c :: deferred w)))
    as (all & E & F).
  exists (WithTimeout c 5 :: all). split.
  - unfold GenerateVariant.startup. unfold bind at 1. unfold contextWithTimeout.
    unfold bind at 1. unfold deferCancel. cbn [trace scopes deferred].
    fold c. rewrite E. unfold after. cbn [trace scopes deferred].
    now rewrite <- app_assoc.
  - cbn [filter isContextEvent]. rewrite F. reflexivity.
Qed.

(** C7, as stated, fails: with a server that is up, the version query is made
    under the scope of 5 seconds (scope 0) of the connectivity check. *)
Lemma C7_counterexample_version_under_short_scope : ~ shortScopeGuardsHeartbeatOnly.
Proof.
  intros H.
  apply (H serverUp World0 0 (Scope 0) Version).
  - vm_compute. auto.
  - vm_compute. auto 10.
  - discriminate.
  - reflexivity.
Qed.

(** C7, amended. When the start-up of [src/main.go] reaches the loop, it has
    made one scope, of 5 seconds, and the connectivity check, the version
    query, the listing of the models, the test embedding and the show call
    are all made under it; the pull alone runs under the background context.
    In the loop, each completion call is made under a scope of 30 seconds
    created for it just before, in both variants. *)
Theorem C7_short_scope_is_shared_by_the_startup_calls (f : Z -> Z) (env : Startup) :
  reachesLoop env ->
  (forall w : World,
     exists all : list Event,
       GenerateVariant.startup env w
       = (Ret (scopes w, seededMessage env),
          mkWorld (trace w ++ all)%list (S (scopes w)) (scopes w :: deferred w))
       /\ filter isContextEvent all
          = [WithTimeout (scopes w) 5;
             Call (Scope (scopes w)) Heartbeat;
             Call (Scope (scopes w)) Version;
             Call (Scope (scopes w)) List;
             Call Background (Pull embeddingModel);
             Call (Scope (scopes w)) (Embed embeddingModel GenerateVariant.embedInput);
             Call (Scope (scopes w)) (Show defaultModel)])
  /\ (forall (systemMsg : string) (t : Turn api.GenerateResponse.t) (w : World)
             (input : string),
        line t = Ok input ->
        strings.TrimSpace input <> "" ->
        isExitCommand f (strings.TrimSpace input) = false ->
        let w' := snd (GenerateVariant.iteration f systemMsg t w) in
        filter isContextEvent (newEvents w w')
        = [WithTimeout (scopes w) 30;
           Call (Scope (scopes w))
                (Generate (api.GenerateRequest.mk defaultModel (strings.TrimSpace input)
                                                  systemMsg "low"))]
        /\ scopes w' = S (scopes w))
  /\ (forall (messages : list api.Message.t) (t : Turn api.ChatResponse.t) (w : World)
             (input : string),
        line t = Ok input ->
        strings.TrimSpace input <> "" ->
        isExitCommand f (strings.TrimSpace input) = false ->
        let w' := snd (ChatVariant.iteration f messages t w) in
        filter isContextEvent (newEvents w w')
        = [WithTimeout (scopes w) 30;
           Call (Scope (scopes w))
                (Chat (api.ChatRequest.mk defaultModel
                         (messages ++ [message "user" (strings.TrimSpace input)])%list
                         "low"));
           Cancel (scopes w)]
        /\ scopes w' = S (scopes w)).
Proof.
  intros Hup. split; [|split].
  - intros w. now apply startup_contexts.
  - intros systemMsg t w input Hline Hne Hexit w'. unfold w'.
    rewrite (generate_iteration_turn f systemMsg t w input Hline Hne Hexit).
    cbn [snd scopes]. rewrite newEvents_app. split; [|reflexivity].
    rewrite !filter_app, (renderings_silent false (frags t)).
    destruct (callError t); reflexivity.
  - intros messages t w input Hline Hne Hexit w'. unfold w'.
    rewrite (chat_iteration_turn f messages t w input Hline Hne Hexit).
    cbn [snd scopes]. rewrite newEvents_app. split; [|reflexivity].
    rewrite !filter_app, answerEvents_silent.
    destruct (callError t); reflexivity.
Qed.

Lemma reachesLoop_serverUp : reachesLoop serverUp.
Proof.
  unfold reachesLoop, serverUp; simpl.
  repeat split; try reflexivity; eauto.
Defined.

Lemma C7_witness_server_up :
  exists all : list Event,
    GenerateVariant.startup serverUp World0
    = (Ret (0, fallbackSystemMessage), mkWorld ([] ++ all)%list 1 [0])
    /\ filter isContextEvent all
       = [WithTimeout 0 5;
          Call (Scope 0) Heartbeat;
          Call (Scope 0) Version;
          Call (Scope 0) List;
          Call Background (Pull embeddingModel);
          Call (Scope 0) (Embed embeddingModel GenerateVariant.embedInput);
          Call (Scope 0) (Show defaultModel)].
Proof.
  exact (proj1 (C7_short_scope_is_shared_by_the_startup_calls idRune serverUp
                  reachesLoop_serverUp) World0).
Defined.

(** The start-up of the history-keeping variant reaches the loop with the
    history seeded with the system message. *)
Lemma chat_startup_history (env : Startup) (w : World) :
  reachesLoop env ->
  exists all : list Event,
    ChatVariant.startup env w
    = (Ret (scopes w, [message "system" (seededMessage env)]),
       mkWorld (trace w ++ all)%list (S (scopes w)) (scopes w :: deferred w)).
Proof.
  intros (Hc & Hh & (v & Hv) & (models & Hl) & _ & _ & (caps & Hs)).
  pose proof (runs_seedSystemMessage env) as Hseed.
  set (systemMsg := seededMessage env) in *.
  set (c := scopes w).
  assert (R : runs
    (NewOllamaClient env ;;
     systemMsg <- seedSystemMessage env ;;
     ChatVariant.connect env (Scope c) ;;
     versionAndModels env (Scope c) ;;
     showCapabilities env (Scope c) ;;
     Println [LF ++ Blue ++ "🗨️  Start chatting with your AI (type 'exit' to quit)"
              ++ Reset] ;;
     ret (c, [message "system" systemMsg]))
    (c, [message "system" systemMsg])
    ([] ++ [] ++ [Call (Scope c) Heartbeat]
        ++ [Call (Scope c) Version; Call (Scope c) List]
        ++ [Call (Scope c) (Show defaultModel)] ++ [] ++ [])%list).
  { apply (runs_bind _ _ tt).
    { unfold NewOllamaClient. rewrite Hc. apply runs_ret. }
    apply (runs_bind _ _ systemMsg); [exact Hseed|].
    apply (runs_bind _ _ tt).
    { unfold ChatVariant.connect.
      apply (runs_bind _ _ tt _ [] [Call (Scope c) Heartbeat]); [apply runs_emit|].
      apply (runs_bind _ _ None _ [Call (Scope c) Heartbeat] []).
      - rewrite Hh. apply runs_call.
      - apply runs_emit. }
    apply (runs_bind _ _ tt).
    { unfold versionAndModels. rewrite Hv, Hl.
      apply (runs_bind _ _ (Ok v) _ [Call (Scope c) Version] [Call (Scope c) List]);
        [apply runs_call|].
      apply (runs_bind _ _ tt _ [] [Call (Scope c) List]); [apply runs_Print|].
      apply (runs_bind _ _ (Ok models) _ [Call (Scope c) List] []); [apply runs_call|].
      apply (runs_bind _ _ tt _ [] []); [apply runs_Print|].
      apply (runs_bind _ _ tt _ [] []); [apply runs_printModels|].
      apply (runs_bind _ _ tt _ [] []); apply runs_Print. }
    apply (runs_bind _ _ tt).
    { unfold showCapabilities. rewrite Hs.
      apply (runs_bind _ _ (Ok caps) _ [Call (Scope c) (Show defaultModel)] []);
        [apply runs_call|].
      apply (runs_bind _ _ tt _ [] []); [apply runs_Print | apply runs_printCapabilities]. }
    apply (runs_bind _ _ tt); [apply runs_emit | apply runs_ret]. }
  destruct (R (mkWorld (trace w ++ [WithTimeout c 5])%list (S c) (c :: deferred w)))
    as (all & E & _).
  exists (WithTimeout c 5 :: all).
  unfold ChatVariant.startup. unfold bind at 1. unfold contextWithTimeout.
  unfold bind at 1. unfold deferCancel. cbn [trace scopes deferred].
  fold c. rewrite E. unfold after. cbn [trace scopes deferred].
  now rewrite <- app_assoc.
Qed.

(** ** The system message and the blank lines *)

(** C6. If [system.txt] cannot be read, the session is seeded with the
    fallback "You are a helpful assistant." and the start-up goes on; if it
    can, with the contents of the file less the white space at both ends:
    the contents are the message between two runs of white space, and the
    message neither starts nor ends with a white space character.  In both
    cases a start-up that reaches the loop hands this message to it, as the
    system turn of the history or as the system message of the prompts. *)
Theorem C6_system_message_is_the_trimmed_file_or_the_fallback (env : Startup) :
  (forall w : World,
     exists w' : World, seedSystemMessage env w = (Ret (seededMessage env), w'))
  /\ (forall e : string,
        readFile env "system.txt" = Err e ->
        seededMessage env = "You are a helpful assistant.")
  /\ (forall data : string,
        readFile env "system.txt" = Ok data ->
        seededMessage env = strings.TrimSpace data
        /\ exists pre post : string,
             data = pre ++ strings.TrimSpace data ++ post
             /\ Whitespace pre /\ Whitespace post
             /\ noSpaceAtEnds (strings.TrimSpace data))
  /\ (reachesLoop env ->
      forall w : World,
        (exists w' : World,
           ChatVariant.startup env w
           = (Ret (scopes w, [api.Message.mk "system" (seededMessage env) ""]), w'))
        /\ (exists w' : World,
              GenerateVariant.startup env w = (Ret (scopes w, seededMessage env), w'))).
Proof.
  split; [|split; [|split]].
  - intros w. destruct (runs_seedSystemMessage env w) as (all & E & _).
    eexists. exact E.
  - intros e H. unfold seededMessage. rewrite H. reflexivity.
  - intros data H. split; [unfold seededMessage; now rewrite H|].
    destruct (TrimSpace_spec data) as (pre & post & E & Wpre & Wpost & T).
    exists pre, post. repeat split; auto; now apply Trimmed_noSpaceAtEnds.
  - intros Hup w. split.
    + destruct (chat_startup_history env w Hup) as (all & E). eexists. exact E.
    + destruct (startup_contexts env w Hup) as (all & E & _). eexists. exact E.
Qed.

Lemma C6_witness_file_with_blank_ends :
  let data := "  " ++ bytes [0xC2; 0xA0]%Z ++ "Answer in one line." ++ LF in
  let env := withSystemFile serverUp data in
  seededMessage env = strings.TrimSpace data
  /\ exists pre post : string,
       data = pre ++ strings.TrimSpace data ++ post
       /\ Whitespace pre /\ Whitespace post
       /\ noSpaceAtEnds (strings.TrimSpace data).
Proof.
  intros data env.
  apply (proj1 (proj2 (proj2
           (C6_system_message_is_the_trimmed_file_or_the_fallback env))) data).
  reflexivity.
Defined.

(** C4. A line that is empty once trimmed, one of white space only in
    particular, is ignored in both variants: the turn prompts, reads the
    line and goes on, makes no call to the model server and leaves the
    history as it was. *)
Theorem C4_blank_line_is_ignored (f : Z -> Z) (input : string) :
  strings.TrimSpace input = "" \/ Whitespace input ->
  (forall (messages : list api.Message.t) (t : Turn api.ChatResponse.t) (w : World),
     line t = Ok input ->
     ChatVariant.iteration f messages t w
     = (Ret (Continue, messages), after w [Stdout promptLine; ReadStdin]))
  /\ (forall (systemMsg : string) (t : Turn api.GenerateResponse.t) (w : World),
        line t = Ok input ->
        GenerateVariant.iteration f systemMsg t w
        = (Ret Continue, after w [Stdout promptLine; ReadStdin]))
  /\ existsb isCall [Stdout promptLine; ReadStdin] = false.
Proof.
  intros H.
  assert (E : strings.TrimSpace input = "").
  { destruct H as [H|H]; [exact H | now apply TrimSpace_Whitespace]. }
  split; [|split].
  - intros messages t w Hline.
    unfold ChatVariant.iteration. rewrite Hline. cbv zeta. rewrite E.
    unfold bind, Print, emit, ret, after; simpl. now rewrite <- app_assoc.
  - intros systemMsg t w Hline.
    unfold GenerateVariant.iteration. rewrite Hline. cbv zeta. rewrite E.
    unfold bind, Print, emit, ret, after; simpl. now rewrite <- app_assoc.
  - reflexivity.
Qed.

Lemma C4_witness_spaces_and_tab :
  let input := "  " ++ String "009"%char "" ++ bytes [0xE2; 0x80; 0x83]%Z ++ LF in
  let history := [message "system" fallbackSystemMessage] in
  let t := mkTurn (Ok input) [chatFragment "never sent"] None in
  ChatVariant.iteration idRune history t World0
  = (Ret (Continue, history), after World0 [Stdout promptLine; ReadStdin]).
Proof.
  intros input history t.
  apply (proj1 (C4_blank_line_is_ignored idRune input (or_introl eq_refl)) history t World0).
  reflexivity.
Defined.

(** * More of the programs *)

(** ** Trimming, again *)

Lemma Whitespace_snoc (s : string) :
  Whitespace s -> s <> "" ->
  exists (u : string) (r : Z), unicode.IsSpace r = true /\ s = u ++ utf8.EncodeRune r.
Proof.
  induction 1 as [|r s Hr Hs IH]; intros Hne; [contradiction|].
  destruct (string_dec s "") as [->|Sne].
  - exists "", r. split; [exact Hr|]. now rewrite append_empty_r.
  - destruct (IH Sne) as (u & r' & Hr' & E).
    exists (utf8.EncodeRune r ++ u), r'. split; [exact Hr'|].
    now rewrite append_assoc, <- E.
Qed.

(** A trimmed string is left as it is. *)
Lemma Trimmed_fixed (t : string) : Trimmed t -> strings.TrimSpace t = t.
Proof.
  intros Ht. pose proof (Trimmed_noSpaceAtEnds t Ht) as Hn.
  destruct (TrimSpace_spec t) as (pre & post & E & Wpre & Wpost & _).
  assert (Epre : pre = "").
  { destruct Wpre as [|r s Hr Hs]; [reflexivity|].
    exfalso. rewrite append_assoc in E. exact (proj1 (Hn r _ Hr) E). }
  assert (Epost : post = "").
  { destruct (string_dec post "") as [->|Pne]; [reflexivity|].
    destruct (Whitespace_snoc post Wpost Pne) as (u & r & Hr & Ep).
    exfalso. rewrite Ep, <- !append_assoc in E. exact (proj2 (Hn r _ Hr) E). }
  subst pre post. simpl in E. rewrite append_empty_r in E. now symmetry.
Qed.

Lemma TrimSpace_Trimmed (s : string) : Trimmed (strings.TrimSpace s).
Proof. destruct (TrimSpace_spec s) as (pre & post & _ & _ & _ & T). exact T. Qed.

(** X1. Trimming is idempotent: a system message or a line that was
    trimmed by [strings.TrimSpace] is left as it is when trimmed again. *)
Theorem X1_TrimSpace_is_idempotent (s : string) :
  strings.TrimSpace (strings.TrimSpace s) = strings.TrimSpace s.
Proof. apply Trimmed_fixed, TrimSpace_Trimmed. Qed.

(** Appending white space does not change the first rune. *)
Lemma decode_app_whitespace (t post : string) :
  t <> "" -> Whitespace post ->
  utf8.DecodeRuneInString (t ++ post) = utf8.DecodeRuneInString t.
Proof.
  intros Hne W.
  assert (Hp : post = ""
               \/ exists c1 p, post = String c1 p /\ (b2z c1 < 0x80 \/ 0xC0 <= b2z c1)%Z).
  { destruct W as [|r s Hr Hs]; [left; reflexivity|].
    right. apply space_first_byte. exact Hr. }
  destruct Hp as [->|(k & p & -> & Hk)]; [now rewrite append_empty_r|].
  destruct t as [|c0 r0]; [contradiction|]. clear Hne.
  cbn [append]. unfold utf8.DecodeRuneInString. cbv zeta.
  split_first (b2z c0); eval_closed; try reflexivity.
  all: unfold utf8.locb, utf8.hicb.
  all: destruct r0 as [|c1 r1]; cbn [append];
    [split_range; try reflexivity; exfalso; lia|].
  all: split_range; try reflexivity.
  all: destruct r1 as [|c2 r2]; cbn [append];
    [split_range; try reflexivity; exfalso; lia|].
  all: split_range; try reflexivity.
  all: destruct r2 as [|c3 r3]; cbn [append];
    [split_range; try reflexivity; exfalso; lia|].
  all: reflexivity.
Qed.

Lemma append_split (a : string) :
  forall b x y : string,
  a ++ x = b ++ y ->
  exists z : string, (a = b ++ z /\ y = z ++ x) \/ (b = a ++ z /\ x = z ++ y).
Proof.
  induction a as [|c a IH]; intros b x y E.
  - exists b. right. split; [reflexivity | exact E].
  - destruct b as [|d b].
    + exists (String c a). left. split; [reflexivity | now symmetry].
    + simpl in E. injection E as -> E.
      destruct (IH b x y E) as (z & [[-> ->]|[-> ->]]); exists z;
        [left | right]; split; reflexivity.
Qed.

Lemma append_cancel_l (a x y : string) : a ++ x = a ++ y -> x = y.
Proof. induction a as [|c a IH]; simpl; intros E; [exact E | injection E; auto]. Qed.

(** White space at the start of white space: what follows is white space. *)
Lemma Whitespace_cancel_l (a : string) :
  Whitespace a -> forall z : string, Whitespace (a ++ z) -> Whitespace z.
Proof.
  induction 1 as [|r a Hr Ha IH]; intros z W; [exact W|].
  rewrite append_assoc in W.
  inversion W as [E|r2 s2 Hr2 Hs2 E].
  - exfalso. pose proof (encoded_space_nonempty r Hr) as N.
    destruct (utf8.EncodeRune r); [contradiction | discriminate].
  - pose proof (decode_encoded_space r2 s2 Hr2) as D2.
    pose proof (decode_encoded_space r (a ++ z) Hr) as D.
    rewrite E, D in D2. injection D2 as -> _.
    apply append_cancel_l in E. subst s2. apply IH. exact Hs2.
Qed.

(** The bytes of an encoded white space character after the first are
    continuation bytes. *)
Lemma encoded_space_continuation (r : Z) (i : nat) :
  unicode.IsSpace r = true ->
  1 <= i < String.length (utf8.EncodeRune r) ->
  (0x80 <= byteAt (utf8.EncodeRune r) i < 0xC0)%Z.
Proof.
  intros H. apply IsSpace_spaceRunes in H. cbn in H.
  repeat (destruct H as [<-|H];
          [cbn; intros Hi;
           first [ lia
                 | assert (Ei : i = 1 \/ i = 2) by lia;
                   destruct Ei as [-> | ->];
                   first [ lia | vm_compute; split; [intros C; discriminate | reflexivity] ] ]|]).
  contradiction.
Qed.

Lemma Whitespace_first_byte (s : string) :
  Whitespace s -> s <> "" -> (byteAt s 0 < 0x80 \/ 0xC0 <= byteAt s 0)%Z.
Proof.
  intros W Hne. destruct W as [|r s Hr Hs]; [contradiction|].
  destruct (space_first_byte r s Hr) as (c1 & t & -> & H). exact H.
Qed.

(** White space at the end of white space: what comes before is white
    space. *)
Lemma Whitespace_cancel_r (s : string) :
  Whitespace s ->
  forall z post : string, s = z ++ post -> Whitespace post -> Whitespace z.
Proof.
  induction 1 as [|r s Hr Hs IH]; intros z post E Wp.
  - destruct z; [constructor | discriminate].
  - destruct (string_dec z "") as [->|Zne]; [constructor|].
    symmetry in E.
    destruct (append_split z (utf8.EncodeRune r) post s E) as (y & [[-> ->]|[Ee ->]]).
    + constructor; [exact Hr|]. apply (IH y post eq_refl Wp).
    + destruct (string_dec y "") as [->|Yne].
      * rewrite append_empty_r in Ee. subst z. now apply Whitespace_one.
      * exfalso.
        assert (Lz : 1 <= String.length z) by (destruct z; [contradiction | simpl; lia]).
        assert (Ly : 1 <= String.length y) by (destruct y; [contradiction | simpl; lia]).
        assert (C : (0x80 <= byteAt y 0 < 0xC0)%Z).
        { pose proof (encoded_space_continuation r (String.length z) Hr) as C.
          rewrite Ee, length_append in C. specialize (C ltac:(lia)).
          rewrite <- (byteAt_app_r z y 0), Nat.add_0_r. exact C. }
        assert (Wy : (byteAt (y ++ s) 0 < 0x80 \/ 0xC0 <= byteAt (y ++ s) 0)%Z).
        { apply Whitespace_first_byte; [exact Wp|].
          destruct y; [contradiction | discriminate]. }
        rewrite byteAt_prefix in Wy by exact Yne. lia.
Qed.

Lemma Trimmed_not_Whitespace (t post : string) :
  Trimmed t -> t <> "" -> Whitespace post -> ~ Whitespace (t ++ post).
Proof.
  intros [E|[Hf _]] Hne Wp W; [contradiction|].
  inversion W as [E|r s Hr Hs E].
  - destruct t; [contradiction | discriminate].
  - pose proof (decode_encoded_space r s Hr) as D.
    rewrite E, decode_app_whitespace in D by assumption.
    rewrite D in Hf. cbn [fst] in Hf. congruence.
Qed.

Lemma Trimmed_no_space_prefix (t post z u : string) :
  Trimmed t -> t <> "" -> Whitespace post -> Whitespace z -> z <> "" ->
  t ++ post <> z ++ u.
Proof.
  intros [E|[Hf _]] Hne Wp Wz Zne Eq; [contradiction|].
  destruct Wz as [|r s Hr Hs]; [contradiction|].
  pose proof (decode_encoded_space r (s ++ u) Hr) as D.
  rewrite <- append_assoc, <- Eq, decode_app_whitespace in D by assumption.
  rewrite D in Hf. cbn [fst] in Hf. congruence.
Qed.

Lemma Trimmed_no_space_suffix (t u z : string) :
  Trimmed t -> Whitespace z -> z <> "" -> t <> u ++ z.
Proof.
  intros Ht Wz Zne E.
  destruct (Whitespace_snoc z Wz Zne) as (v & r & Hr & Ez).
  rewrite Ez, <- append_assoc in E.
  exact (proj2 (Trimmed_noSpaceAtEnds t Ht r _ Hr) E).
Qed.

(** X2. [strings.TrimSpace] gives back a text with nothing to trim from
    any white space put around it: the text between a run of white space
    characters (of ASCII or of Unicode) before it and one after it is
    recovered byte for byte. *)
Theorem X2_TrimSpace_of_padded_text (pre t post : string) :
  Whitespace pre -> Whitespace post -> Trimmed t ->
  strings.TrimSpace (pre ++ t ++ post) = t.
Proof.
  intros Wpre Wpost Ht.
  destruct (string_dec t "") as [->|Tne].
  { apply TrimSpace_Whitespace. simpl. now apply Whitespace_app. }
  destruct (TrimSpace_spec (pre ++ t ++ post)) as (pre' & post' & E & Wpre' & Wpost' & HT).
  set (T := strings.TrimSpace (pre ++ t ++ post)) in *.
  assert (Epre : pre' = pre).
  { destruct (append_split pre pre' (t ++ post) (T ++ post') E) as (z & [[-> Ez]|[-> Ez]]).
    - (* pre is longer *)
      destruct (string_dec z "") as [->|Zne]; [now rewrite append_empty_r|].
      exfalso. pose proof (Whitespace_cancel_l pre' Wpre' z Wpre) as Wz.
      destruct (string_dec T "") as [ET|TTne].
      + rewrite ET in Ez. simpl in Ez. rewrite Ez in Wpost'.
        apply (Trimmed_not_Whitespace t post Ht Tne Wpost).
        exact (Whitespace_cancel_l z Wz _ Wpost').
      + exact (Trimmed_no_space_prefix T post' z (t ++ post) HT TTne Wpost' Wz Zne Ez).
    - destruct (string_dec z "") as [->|Zne]; [now rewrite append_empty_r|].
      exfalso. pose proof (Whitespace_cancel_l pre Wpre z Wpre') as Wz.
      exact (Trimmed_no_space_prefix t post z (T ++ post') Ht Tne Wpost Wz Zne Ez). }
  subst pre'. apply append_cancel_l in E.
  destruct (append_split t T post post' E) as (z & [[Et Ez]|[ET Ez]]).
  - destruct (string_dec z "") as [->|Zne]; [now rewrite append_empty_r in Et|].
    exfalso. pose proof (Whitespace_cancel_r post' Wpost' z post Ez Wpost) as Wz.
    exact (Trimmed_no_space_suffix t T z Ht Wz Zne Et).
  - destruct (string_dec z "") as [->|Zne]; [now rewrite append_empty_r in ET|].
    exfalso. pose proof (Whitespace_cancel_r post Wpost z post' Ez Wpost') as Wz.
    exact (Trimmed_no_space_suffix T t z HT Wz Zne ET).
Qed.

Lemma X2_witness_padded_text :
  strings.TrimSpace (("  " ++ LF) ++ "be brief" ++ (" " ++ bytes [0xE2; 0x80; 0x83]%Z))
  = "be brief".
Proof.
  apply (X2_TrimSpace_of_padded_text ("  " ++ LF) "be brief" (" " ++ bytes [0xE2; 0x80; 0x83]%Z)).
  - apply (Whitespace_app " " (" " ++ LF)); [apply Whitespace_ascii; reflexivity|].
    apply (Whitespace_app " " LF); apply Whitespace_ascii; reflexivity.
  - apply (Whitespace_app " " (bytes [0xE2; 0x80; 0x83]%Z));
      [apply Whitespace_ascii; reflexivity|].
    apply (Whitespace_one 0x2003%Z). reflexivity.
  - right. split; reflexivity.
Defined.

(** ** The exit command *)

Lemma lowerByte_sameLetter (a : ascii) : sameLetter a (strings.lowerByte a) = true.
Proof.
  unfold sameLetter, strings.lowerByte.
  destruct (strings.isUpper (b2z a)) eqn:U.
  - unfold strings.isUpper in U. apply andb_true_iff in U. destruct U as [U1 U2].
    apply Z.leb_le in U1, U2.
    assert (E : b2z (z2b (b2z a + (0x61 - 0x41))) = (b2z a + 32)%Z).
    { unfold z2b, b2z. rewrite Z.mod_small by (unfold b2z in *; lia).
      rewrite nat_ascii_embedding.
      - rewrite Z2Nat.id; unfold b2z in *; lia.
      - unfold b2z in *. lia. }
    rewrite E. unfold isLower.
    replace (0x61 <=? b2z a + 32)%Z with true by (symmetry; apply Z.leb_le; lia).
    replace (b2z a + 32 <=? 0x7A)%Z with true by (symmetry; apply Z.leb_le; lia).
    rewrite Z.eqb_refl. cbn [andb]. now rewrite orb_true_r.
  - now rewrite Ascii.eqb_refl.
Qed.

Lemma lowerASCII_caseInsensitiveEq (s : string) :
  caseInsensitiveEq s (strings.lowerASCII s) = true.
Proof.
  induction s as [|a s IH]; simpl; [reflexivity|].
  now rewrite lowerByte_sameLetter, IH.
Qed.

(** X3. On a line of ASCII text the exit test of the loops holds exactly
    for "exit" spelled in either case of each letter and for "quit" as it
    is; no other ASCII line ends the loop. *)
Theorem X3_exit_command_on_ASCII_text (f : Z -> Z) (text : string) :
  strings.isASCII text = true ->
  (isExitCommand f text = true
   <-> caseInsensitiveEq text "exit" = true \/ text = "quit").
Proof.
  intros A. unfold isExitCommand. rewrite ToLower_ASCII by exact A.
  rewrite orb_true_iff, String.eqb_eq, String.eqb_eq. split.
  - intros [E|E]; [left | right; exact E].
    rewrite <- E. apply lowerASCII_caseInsensitiveEq.
  - intros [E|E]; [left | right; exact E].
    apply (caseInsensitiveEq_lower text "exit" E); reflexivity.
Qed.

Lemma X3_witness_mixed_case :
  isExitCommand idRune "eXiT" = true
  <-> caseInsensitiveEq "eXiT" "exit" = true \/ "eXiT" = "quit".
Proof.
  apply (X3_exit_command_on_ASCII_text idRune "eXiT"). reflexivity.
Defined.

(** ** The file of the system message *)

(** X4. A file [system.txt] that is empty or holds white space only gives
    the empty system message: the fallback is not used and nothing is
    logged. *)
Theorem X4_blank_system_file_gives_empty_message (env : Startup) (data : string) (w : World) :
  readFile env "system.txt" = Ok data ->
  Whitespace data ->
  seedSystemMessage env w = (Ret "", after w [ReadFile "system.txt"]).
Proof.
  intros Hfile Hblank. unfold seedSystemMessage, loadSystemMessage.
  unfold bind. rewrite emit_after, Hfile. unfold ret.
  now rewrite (TrimSpace_Whitespace data Hblank).
Qed.

Lemma X4_witness_space_and_newline :
  seedSystemMessage (withSystemFile serverUp (" " ++ LF)) World0
  = (Ret "", after World0 [ReadFile "system.txt"]).
Proof.
  apply (X4_blank_system_file_gives_empty_message
           (withSystemFile serverUp (" " ++ LF)) (" " ++ LF) World0).
  - reflexivity.
  - apply (Whitespace_app " " LF); apply Whitespace_ascii; reflexivity.
Defined.

(** ** The kinds of turns *)

(** Every turn of the history-keeping variant, by its kind. *)
Lemma chat_iteration_kind (f : Z -> Z) (messages : list api.Message.t)
    (t : Turn api.ChatResponse.t) (w : World) :
  ChatVariant.iteration f messages t w
  = match turnKind f t with
    | ReadFailed _ | BlankLine =>
      (Ret (Continue, messages), after w [Stdout promptLine; ReadStdin])
    | ExitCommand =>
      (Ret (Break, messages), after w [Stdout promptLine; ReadStdin; Stdout goodbyeLine])
    | UserTurn text =>
      (Ret (Continue, (messages ++ exchange f t)%list),
       mkWorld (trace w ++ chatTurnEvents (scopes w) (messages ++ [message "user" text]) t)%list
               (S (scopes w)) (deferred w))
    end.
Proof.
  unfold exchange, turnKind. destruct (line t) as [input|e] eqn:Hline.
  - cbv zeta. destruct (String.eqb_spec (strings.TrimSpace input) "") as [E|Hne].
    + unfold ChatVariant.iteration. rewrite Hline. cbv zeta. rewrite E.
      unfold bind, Print, emit, ret, after; simpl. now rewrite <- app_assoc.
    + destruct (isExitCommand f (strings.TrimSpace input)) eqn:Hexit.
      * exact (chat_iteration_break f messages t w input Hline Hne Hexit).
      * rewrite (chat_iteration_turn f messages t w input Hline Hne Hexit).
        cbv zeta. unfold chatTurnEvents. now rewrite <- app_assoc.
  - unfold ChatVariant.iteration. rewrite Hline.
    unfold bind, Print, emit, ret, after; simpl. now rewrite <- app_assoc.
Qed.

(** Every turn of the single-prompt variant, by its kind. *)
Lemma generate_iteration_kind (f : Z -> Z) (systemMsg : string)
    (t : Turn api.GenerateResponse.t) (w : World) :
  GenerateVariant.iteration f systemMsg t w
  = match turnKind f t with
    | ReadFailed e =>
      (Ret Continue, after w [Stdout promptLine; ReadStdin; Stdout (readErrorLine e)])
    | BlankLine =>
      (Ret Continue, after w [Stdout promptLine; ReadStdin])
    | ExitCommand =>
      (Ret Break, after w [Stdout promptLine; ReadStdin; Stdout goodbyeLine])
    | UserTurn text =>
      (Ret Continue,
       mkWorld (trace w ++ generateTurnEvents (scopes w) systemMsg text t)%list
               (S (scopes w)) (scopes w :: deferred w))
    end.
Proof.
  unfold turnKind. destruct (line t) as [input|e] eqn:Hline.
  - cbv zeta. destruct (String.eqb_spec (strings.TrimSpace input) "") as [E|Hne].
    + unfold GenerateVariant.iteration. rewrite Hline. cbv zeta. rewrite E.
      unfold bind, Print, emit, ret, after; simpl. now rewrite <- app_assoc.
    + destruct (isExitCommand f (strings.TrimSpace input)) eqn:Hexit.
      * exact (generate_iteration_break f systemMsg t w input Hline Hne Hexit).
      * now rewrite (generate_iteration_turn f systemMsg t w input Hline Hne Hexit).
  - unfold GenerateVariant.iteration. rewrite Hline.
    unfold bind, Print, Println, emit, ret, after, readErrorLine; simpl.
    now rewrite <- !app_assoc.
Qed.

(** ** The loops, turn by turn *)

Lemma userTurns_cons {R : Type} (f : Z -> Z) (t : Turn R) (turns : list (Turn R)) :
  userTurns f (t :: turns)
  = match turnKind f t with
    | ExitCommand => 0
    | UserTurn _ => S (userTurns f turns)
    | _ => userTurns f turns
    end.
Proof.
  unfold userTurns. simpl. unfold isExitTurn.
  destruct (turnKind f t) eqn:K; simpl; unfold isUserKind; rewrite ?K; reflexivity.
Qed.

Lemma hasExit_cons {R : Type} (f : Z -> Z) (t : Turn R) (turns : list (Turn R)) :
  hasExit f (t :: turns)
  = match turnKind f t with
    | ExitCommand => true
    | _ => hasExit f turns
    end.
Proof. unfold hasExit. simpl. unfold isExitTurn. now destruct (turnKind f t). Qed.

Lemma untilExit_cons {R : Type} (f : Z -> Z) (t : Turn R) (turns : list (Turn R)) :
  untilExit f (t :: turns)
  = match turnKind f t with
    | ExitCommand => []
    | _ => t :: untilExit f turns
    end.
Proof. simpl. unfold isExitTurn. now destruct (turnKind f t). Qed.

(** The loop of the history-keeping variant on any script: how it ends,
    and the world it leaves. *)
Lemma chat_loop_run (f : Z -> Z) (turns : list (Turn api.ChatResponse.t)) :
  forall (messages : list api.Message.t) (w : World),
    ChatVariant.chatLoop f messages turns w
    = (if hasExit f turns
       then Ret (messages ++ flat_map (exchange f) (untilExit f turns))%list
       else Await,
       mkWorld (trace w ++ chatLoopEvents f (scopes w) messages turns)%list
               (scopes w + userTurns f turns) (deferred w)).
Proof.
  unfold ChatVariant.chatLoop.
  induction turns as [|t turns IH]; intros messages w.
  - simpl. unfold userTurns. simpl. rewrite app_nil_r, Nat.add_0_r. now destruct w.
  - cbn [forever]. unfold bind at 1. rewrite chat_iteration_kind.
    rewrite hasExit_cons, untilExit_cons, userTurns_cons. cbn [chatLoopEvents].
    unfold exchange at 1.
    destruct (turnKind f t) eqn:K.
    + rewrite IH. unfold after. cbn [trace scopes deferred flat_map].
      unfold exchange at 2. rewrite K. cbn [app]. now rewrite <- app_assoc.
    + rewrite IH. unfold after. cbn [trace scopes deferred flat_map].
      unfold exchange at 2. rewrite K. cbn [app]. now rewrite <- app_assoc.
    + unfold ret, after. cbn [flat_map]. now rewrite app_nil_r, Nat.add_0_r.
    + rewrite IH. cbn [trace scopes deferred flat_map].
      unfold exchange. rewrite K.
      rewrite <- !app_assoc, Nat.add_succ_r. reflexivity.
Qed.

(** The loop of the single-prompt variant on any script. *)
Lemma generate_loop_run (f : Z -> Z) (systemMsg : string)
    (turns : list (Turn api.GenerateResponse.t)) :
  forall w : World,
    GenerateVariant.chatLoop f systemMsg turns w
    = (if hasExit f turns then Ret tt else Await,
       mkWorld (trace w ++ generateLoopEvents f (scopes w) systemMsg turns)%list
               (scopes w + userTurns f turns)
               (rev (seq (scopes w) (userTurns f turns)) ++ deferred w)%list).
Proof.
  unfold GenerateVariant.chatLoop.
  induction turns as [|t turns IH]; intros w.
  - simpl. unfold userTurns. simpl. rewrite app_nil_r, Nat.add_0_r. now destruct w.
  - cbn [forever]. unfold bind at 1 2. rewrite generate_iteration_kind.
    rewrite hasExit_cons, userTurns_cons. cbn [generateLoopEvents].
    destruct (turnKind f t) eqn:K; unfold ret at 1.
    + rewrite IH. unfold after. cbn [trace scopes deferred]. now rewrite <- app_assoc.
    + rewrite IH. unfold after. cbn [trace scopes deferred]. now rewrite <- app_assoc.
    + unfold ret, after. cbn [seq rev app]. now rewrite Nat.add_0_r.
    + rewrite IH. cbn [trace scopes deferred].
      rewrite <- !app_assoc, Nat.add_succ_r. cbn [seq rev]. 
      rewrite <- !app_assoc. reflexivity.
Qed.

(** ** The history *)

Lemma inPairs_app (a b : list api.Message.t) :
  inPairs a = true -> inPairs b = true -> inPairs (a ++ b) = true.
Proof.
  intros Ha Hb. remember (List.length a) as n eqn:Hn.
  assert (Hle : (List.length a <= n)%nat) by lia. clear Hn.
  revert a Ha Hle. induction n as [|n IH]; intros a Ha Hle.
  - destruct a; [exact Hb | simpl in Hle; lia].
  - destruct a as [|u [|x a']]; [exact Hb | discriminate |].
    cbn [inPairs app] in *. apply andb_true_iff in Ha as [Hux Ha].
    rewrite Hux. cbn [andb]. apply IH; [exact Ha | simpl in Hle; lia].
Qed.

Lemma inPairs_exchanges (f : Z -> Z) (turns : list (Turn api.ChatResponse.t)) :
  inPairs (flat_map (exchange f) turns) = true.
Proof.
  induction turns as [|t turns IH]; [reflexivity|].
  cbn [flat_map]. unfold exchange at 1.
  destruct (turnKind f t); cbn [app]; exact IH.
Qed.

Lemma wellFormed_app (a b : list api.Message.t) :
  wellFormed a = true -> inPairs b = true -> wellFormed (a ++ b) = true.
Proof.
  destruct a as [|s a]; [discriminate|]. cbn [wellFormed app].
  intros Ha Hb. apply andb_true_iff in Ha as [Hs Ha]. rewrite Hs. cbn [andb].
  now apply inPairs_app.
Qed.

Lemma firstn_length_app {A : Type} (a b : list A) :
  firstn (List.length a) (a ++ b) = a.
Proof. induction a as [|x a IH]; [reflexivity|]. simpl. now rewrite IH. Qed.

(** X5. The loop of the history-keeping variant ends exactly when an exit
    command is read; the history it then has is the one it started
    with, followed, for each user turn before the exit in order, by the
    user turn and the assistant turn of the answer; what the script holds
    after the exit is not looked at. *)
Theorem X5_chat_loop_history (f : Z -> Z) (messages : list api.Message.t)
    (turns : list (Turn api.ChatResponse.t)) (w : World) :
  fst (ChatVariant.chatLoop f messages turns w)
  = if hasExit f turns
    then Ret (messages ++ flat_map (exchange f) (untilExit f turns))%list
    else Await.
Proof.
  rewrite chat_loop_run. cbn [fst].
  destruct (hasExit f turns); reflexivity.
Qed.

(** X6. The history stays well formed and is only appended to: from a
    history that is a system turn followed by user and assistant turns in
    pairs, the loop ends with such a history, and the one it started with is
    its beginning. *)
Theorem X6_chat_history_stays_well_formed (f : Z -> Z) (messages history : list api.Message.t)
    (turns : list (Turn api.ChatResponse.t)) (w : World) :
  wellFormed messages = true ->
  fst (ChatVariant.chatLoop f messages turns w) = Ret history ->
  wellFormed history = true
  /\ firstn (List.length messages) history = messages.
Proof.
  intros Hwf Hret. rewrite chat_loop_run in Hret. cbn [fst] in Hret.
  destruct (hasExit f turns); [|discriminate].
  injection Hret as <-. split.
  - apply wellFormed_app; [exact Hwf | apply inPairs_exchanges].
  - apply firstn_length_app.
Qed.

Lemma X6_witness_failed_call :
  let messages := [message "system" "Be brief."] in
  let turns := [mkTurn (Ok ("hello" ++ LF)) [chatFragment "Hi"] (Some "EOF");
                say "exit"] in
  let history := [message "system" "Be brief."; message "user" "hello";
                  message "assistant" "Hi"] in
  wellFormed history = true
  /\ firstn (List.length messages) history = messages.
Proof.
  intros messages turns history.
  apply (X6_chat_history_stays_well_formed idRune messages history turns World0);
    vm_compute; reflexivity.
Defined.

(** ** The calls of the loops *)

Lemma filter_answerEvents (P : Event -> bool) (texts : list string) :
  (forall s, P (Stdout s) = false) -> filter P (answerEvents texts) = [].
Proof.
  intros HP. induction texts as [|c texts IH]; [reflexivity|].
  unfold answerEvents in *. cbn [flat_map]. rewrite filter_app, IH, app_nil_r.
  destruct (c =? "")%string; [reflexivity|]. simpl. now rewrite HP.
Qed.

Lemma filter_renderings (P : Event -> bool) (frags : list api.GenerateResponse.t) :
  (forall s, P (Stdout s) = false) ->
  forall done : bool, filter P (renderings done frags) = [].
Proof.
  intros HP. induction frags as [|g frags IH]; intros done; [reflexivity|].
  cbn [renderings]. rewrite filter_app, IH, app_nil_r. unfold rendering.
  rewrite !filter_app, (filter_answerEvents P _ HP), app_nil_r.
  destruct (negb (api.GenerateResponse.Thinking g =? "")%string && negb done),
           (negb (api.GenerateResponse.Response g =? "")%string && negb done);
    simpl; rewrite ?HP; reflexivity.
Qed.

Lemma filter_chatTurnEvents (P : Event -> bool) (c : nat) (history : list api.Message.t)
    (t : Turn api.ChatResponse.t) :
  (forall s, P (Stdout s) = false) ->
  filter P (chatTurnEvents c history t)
  = filter P [ReadStdin; WithTimeout c 30;
              Call (Scope c) (Chat (api.ChatRequest.mk defaultModel history "low"));
              Cancel c].
Proof.
  intros HP. unfold chatTurnEvents.
  rewrite !filter_app, (filter_answerEvents P _ HP).
  assert (Hfail : filter P match callError t with
                           | Some e => [Stdout (failureLine e)]
                           | None => []
                           end = []).
  { destruct (callError t); simpl; rewrite ?HP; reflexivity. }
  rewrite Hfail. simpl. rewrite !HP. cbn [app].
  destruct (P ReadStdin), (P (WithTimeout c 30)), (P (Call _ _)); reflexivity.
Qed.

Lemma filter_generateTurnEvents (P : Event -> bool) (c : nat) (systemMsg text : string)
    (t : Turn api.GenerateResponse.t) :
  (forall s, P (Stdout s) = false) ->
  filter P (generateTurnEvents c systemMsg text t)
  = filter P [ReadStdin; WithTimeout c 30;
              Call (Scope c)
                   (Generate (api.GenerateRequest.mk defaultModel text systemMsg "low"))].
Proof.
  intros HP. unfold generateTurnEvents.
  rewrite !filter_app, (filter_renderings P _ HP).
  assert (Hlast : filter P [match callError t with
                            | Some e => Stdout (failureLine e)
                            | None => Stdout LF
                            end] = []).
  { destruct (callError t); simpl; rewrite HP; reflexivity. }
  rewrite Hlast. simpl. rewrite !HP. now rewrite !app_nil_r.
Qed.

Lemma chatLoopEvents_calls (f : Z -> Z) (turns : list (Turn api.ChatResponse.t)) :
  forall (c : nat) (messages : list api.Message.t),
    List.length (filter isCall (chatLoopEvents f c messages turns)) = userTurns f turns
    /\ List.length (filter isRead (chatLoopEvents f c messages turns)) = linesRead f turns.
Proof.
  unfold linesRead.
  induction turns as [|t turns IH]; intros c messages; [split; reflexivity|].
  cbn [chatLoopEvents]. rewrite userTurns_cons, hasExit_cons, untilExit_cons.
  destruct (turnKind f t) eqn:K.
  - destruct (IH c messages) as [H1 H2]. split; simpl; [exact H1 | now rewrite H2].
  - destruct (IH c messages) as [H1 H2]. split; simpl; [exact H1 | now rewrite H2].
  - split; reflexivity.
  - destruct (IH (S c) (messages ++ exchange f t)%list) as [H1 H2].
    rewrite !filter_app, !filter_chatTurnEvents by reflexivity.
    split; simpl; [now rewrite H1 | now rewrite H2].
Qed.

Lemma generateLoopEvents_calls (f : Z -> Z) (systemMsg : string)
    (turns : list (Turn api.GenerateResponse.t)) :
  forall c : nat,
    List.length (filter isCall (generateLoopEvents f c systemMsg turns)) = userTurns f turns
    /\ List.length (filter isRead (generateLoopEvents f c systemMsg turns))
       = linesRead f turns.
Proof.
  unfold linesRead.
  induction turns as [|t turns IH]; intros c; [split; reflexivity|].
  cbn [generateLoopEvents]. rewrite userTurns_cons, hasExit_cons, untilExit_cons.
  destruct (turnKind f t) eqn:K.
  - destruct (IH c) as [H1 H2]. split; simpl; [exact H1 | now rewrite H2].
  - destruct (IH c) as [H1 H2]. split; simpl; [exact H1 | now rewrite H2].
  - split; reflexivity.
  - destruct (IH (S c)) as [H1 H2].
    rewrite !filter_app, !filter_generateTurnEvents by reflexivity.
    split; simpl; [now rewrite H1 | now rewrite H2].
Qed.

(** X7. Neither loop calls the server more or less than once for each user
    turn: on any script, the calls it makes are as many as the user turns
    before the first exit command (a failed call is not made again, and a
    read error, a blank line or the exit command makes none), and it reads
    one line for each turn up to and including the exit command. *)
Theorem X7_one_call_per_user_turn (f : Z -> Z) (w : World) :
  (forall (messages : list api.Message.t) (turns : list (Turn api.ChatResponse.t)),
     let evs := newEvents w (snd (ChatVariant.chatLoop f messages turns w)) in
     List.length (filter isCall evs) = userTurns f turns
     /\ List.length (filter isRead evs) = linesRead f turns)
  /\ (forall (systemMsg : string) (turns : list (Turn api.GenerateResponse.t)),
        let evs := newEvents w (snd (GenerateVariant.chatLoop f systemMsg turns w)) in
        List.length (filter isCall evs) = userTurns f turns
        /\ List.length (filter isRead evs) = linesRead f turns).
Proof.
  split.
  - intros messages turns evs. subst evs.
    rewrite chat_loop_run. cbn [snd]. rewrite newEvents_app.
    apply chatLoopEvents_calls.
  - intros systemMsg turns evs. subst evs.
    rewrite generate_loop_run. cbn [snd]. rewrite newEvents_app.
    apply generateLoopEvents_calls.
Qed.

(** ** What the requests carry *)

Lemma hasExit_false_untilExit {R : Type} (f : Z -> Z) (turns : list (Turn R)) :
  hasExit f turns = false -> untilExit f turns = turns.
Proof.
  induction turns as [|t turns IH]; [reflexivity|].
  rewrite hasExit_cons, untilExit_cons.
  destruct (turnKind f t); intros H; try discriminate; now rewrite IH.
Qed.

Lemma chatLoopEvents_request (f : Z -> Z) (pre : list (Turn api.ChatResponse.t)) :
  forall (c : nat) (messages : list api.Message.t)
         (t : Turn api.ChatResponse.t) (post : list (Turn api.ChatResponse.t))
         (text : string),
    hasExit f pre = false ->
    turnKind f t = UserTurn text ->
    In (Call (Scope (c + userTurns f pre))
             (Chat (api.ChatRequest.mk defaultModel
                      (messages ++ flat_map (exchange f) pre ++ [message "user" text])
                      "low")))
       (chatLoopEvents f c messages (pre ++ t :: post)).
Proof.
  induction pre as [|p pre IH]; intros c messages t post text Hpre Ht.
  - cbn [app chatLoopEvents flat_map]. rewrite Ht.
    replace (c + userTurns f [])%nat with c by (unfold userTurns; simpl; lia).
    unfold chatTurnEvents. cbn [app]. do 3 right. left. reflexivity.
  - rewrite hasExit_cons in Hpre. cbn [app chatLoopEvents flat_map].
    rewrite userTurns_cons. unfold exchange at 1.
    destruct (turnKind f p) eqn:K; try discriminate.
    + right. right. cbn [app]. now apply IH.
    + right. right. cbn [app]. now apply IH.
    + apply in_or_app. right.
      specialize (IH (S c) (messages ++ exchange f p)%list t post text Hpre Ht).
      unfold exchange in IH at 1. rewrite K in IH.
      rewrite <- app_assoc in IH. rewrite Nat.add_succ_r. exact IH.
Qed.

Lemma generateLoopEvents_request (f : Z -> Z) (systemMsg : string)
    (pre : list (Turn api.GenerateResponse.t)) :
  forall (c : nat) (t : Turn api.GenerateResponse.t)
         (post : list (Turn api.GenerateResponse.t)) (text : string),
    hasExit f pre = false ->
    turnKind f t = UserTurn text ->
    In (Call (Scope (c + userTurns f pre))
             (Generate (api.GenerateRequest.mk defaultModel text systemMsg "low")))
       (generateLoopEvents f c systemMsg (pre ++ t :: post)).
Proof.
  induction pre as [|p pre IH]; intros c t post text Hpre Ht.
  - cbn [app generateLoopEvents]. rewrite Ht.
    replace (c + userTurns f [])%nat with c by (unfold userTurns; simpl; lia).
    unfold generateTurnEvents. cbn [app]. do 3 right. left. reflexivity.
  - rewrite hasExit_cons in Hpre. cbn [app generateLoopEvents].
    rewrite userTurns_cons.
    destruct (turnKind f p) eqn:K; try discriminate.
    + right. right. right. now apply IH.
    + right. right. now apply IH.
    + apply in_or_app. right. rewrite Nat.add_succ_r. now apply (IH (S c)).
Qed.

(** X8. Each request of the history-keeping variant carries the whole
    conversation so far: the history the loop started with, the user and
    assistant turns of every earlier user turn in order (those of failed
    calls as well, with whatever text was streamed), and the new user turn
    last.  It is made for the default model with thinking "low", under the
    scope created for that turn. *)
Theorem X8_chat_request_carries_the_history (f : Z -> Z) (messages : list api.Message.t)
    (pre post : list (Turn api.ChatResponse.t)) (t : Turn api.ChatResponse.t)
    (text : string) (w : World) :
  hasExit f pre = false ->
  turnKind f t = UserTurn text ->
  In (Call (Scope (scopes w + userTurns f pre))
           (Chat (api.ChatRequest.mk defaultModel
                    (messages ++ flat_map (exchange f) pre ++ [message "user" text])
                    "low")))
     (newEvents w (snd (ChatVariant.chatLoop f messages (pre ++ t :: post) w))).
Proof.
  intros Hpre Ht. rewrite chat_loop_run. cbn [snd]. rewrite newEvents_app.
  now apply chatLoopEvents_request.
Qed.

Lemma X8_witness_second_turn :
  let first := mkTurn (Ok ("hello" ++ LF)) [chatFragment "Hi"] (Some "unexpected EOF") in
  let second := mkTurn (Ok ("  and now?" ++ LF)) [chatFragment "Fine."] None in
  In (Call (Scope 1)
           (Chat (api.ChatRequest.mk defaultModel
                    [message "system" "Be brief."; message "user" "hello";
                     message "assistant" "Hi"; message "user" "and now?"]
                    "low")))
     (newEvents World0
        (snd (ChatVariant.chatLoop idRune [message "system" "Be brief."]
                ([first] ++ second :: [say "exit"]) World0))).
Proof.
  intros first second.
  apply (X8_chat_request_carries_the_history idRune [message "system" "Be brief."]
           [first] [say "exit"] second "and now?" World0);
    vm_compute; reflexivity.
Defined.

(** X9. The single-prompt variant keeps no conversation: the request of a
    user turn carries the trimmed line as the prompt and the system message
    of the session, whatever was said and answered in the turns before. *)
Theorem X9_generate_request_carries_the_line_only (f : Z -> Z) (systemMsg : string)
    (pre post : list (Turn api.GenerateResponse.t)) (t : Turn api.GenerateResponse.t)
    (text : string) (w : World) :
  hasExit f pre = false ->
  turnKind f t = UserTurn text ->
  In (Call (Scope (scopes w + userTurns f pre))
           (Generate (api.GenerateRequest.mk defaultModel text systemMsg "low")))
     (newEvents w (snd (GenerateVariant.chatLoop f systemMsg (pre ++ t :: post) w))).
Proof.
  intros Hpre Ht. rewrite generate_loop_run. cbn [snd]. rewrite newEvents_app.
  now apply generateLoopEvents_request.
Qed.

Lemma X9_witness_second_turn :
  let first := mkTurn (Ok ("hello" ++ LF))
                 [api.GenerateResponse.mk "Hi" ""] (Some "unexpected EOF") in
  let second := mkTurn (Ok ("  and now?" ++ LF)) [] None in
  In (Call (Scope 1)
           (Generate (api.GenerateRequest.mk defaultModel "and now?" "Be brief." "low")))
     (newEvents World0
        (snd (GenerateVariant.chatLoop idRune "Be brief."
                ([first] ++ second :: [say "exit"]) World0))).
Proof.
  intros first second.
  apply (X9_generate_request_carries_the_line_only idRune "Be brief."
           [first] [say "exit"] second "and now?" World0);
    vm_compute; reflexivity.
Defined.

(** ** The callbacks *)

Lemma concatText_visible (texts : list string) :
  concatText (filter nonEmpty texts) = concatText texts.
Proof.
  induction texts as [|c texts IH]; [reflexivity|]. cbn [filter]. unfold nonEmpty at 1.
  destruct (String.eqb_spec c "") as [->|Hc]; cbn [negb concatText fold_right].
  - exact IH.
  - unfold concatText in IH. now rewrite IH.
Qed.

Lemma answerEvents_visible (texts : list string) :
  answerEvents (filter nonEmpty texts) = answerEvents texts.
Proof.
  induction texts as [|c texts IH]; [reflexivity|]. cbn [filter]. unfold nonEmpty at 1.
  unfold answerEvents in *. cbn [flat_map].
  destruct (c =? "")%string eqn:Hc; cbn [negb flat_map app].
  - exact IH.
  - now rewrite Hc, IH.
Qed.

Lemma chat_run (c : nat) (req : api.ChatRequest.t) (t : Turn api.ChatResponse.t)
    (w : World) :
  ChatVariant.chat c req t w
  = (Ret (mkStream (concatText (contents (frags t))) false, callError t),
     after w (Call (Scope c) (Chat req) :: answerEvents (contents (frags t)))).
Proof.
  unfold ChatVariant.chat, stream. unfold bind at 1. rewrite emit_after.
  rewrite chat_deliver_run, after_after. reflexivity.
Qed.

(** X10. The callback of the history-keeping variant looks at the answer
    text only: two streams with the same non-empty answer texts, in the same
    order, and the same error give the same output and the same assistant
    turn, whatever reasoning texts, done reasons and fragments without answer
    text they have. *)
Theorem X10_chat_stream_is_its_visible_text (c : nat) (req : api.ChatRequest.t)
    (t1 t2 : Turn api.ChatResponse.t) (w : World) :
  filter nonEmpty (contents (frags t1)) = filter nonEmpty (contents (frags t2)) ->
  callError t1 = callError t2 ->
  ChatVariant.chat c req t1 w = ChatVariant.chat c req t2 w.
Proof.
  intros Hvisible Herr. rewrite !chat_run, Herr.
  rewrite <- (concatText_visible (contents (frags t1))),
          <- (answerEvents_visible (contents (frags t1))), Hvisible,
          concatText_visible, answerEvents_visible.
  reflexivity.
Qed.

Lemma X10_witness_reasoning_fragments :
  let req := api.ChatRequest.mk defaultModel [message "user" "hello"] "low" in
  let thinking := api.ChatResponse.mk (api.Message.mk "assistant" "" "They greet me.") "" in
  let done := api.ChatResponse.mk (api.Message.mk "assistant" "" "") "stop" in
  ChatVariant.chat 1 req (mkTurn (Ok "hello") [thinking; chatFragment "Hi"; done] None) World0
  = ChatVariant.chat 1 req (mkTurn (Ok "again") [chatFragment "Hi"] None) World0.
Proof.
  intros req thinking done.
  apply (X10_chat_stream_is_its_visible_text 1 req
           (mkTurn (Ok "hello") [thinking; chatFragment "Hi"; done] None)
           (mkTurn (Ok "again") [chatFragment "Hi"] None) World0);
    reflexivity.
Defined.

Lemma isThoughtComplete_thinkingLine (s : string) :
  isThoughtComplete (Stdout (GenerateVariant.thinkingLine s)) = false.
Proof. reflexivity. Qed.

Lemma isThoughtComplete_answer (s : string) :
  isThoughtComplete (Stdout (Blue ++ s ++ Reset)) = false.
Proof. reflexivity. Qed.

Lemma thoughtComplete_count (frags : list api.GenerateResponse.t) :
  forall done : bool,
    List.length (filter isThoughtComplete (renderings done frags))
    = if done || negb (existsb nonEmpty (responses frags)) then 0 else 1.
Proof.
  induction frags as [|g frags IH]; intros done.
  - simpl. now rewrite orb_true_r.
  - cbn [renderings responses map existsb]. rewrite filter_app, length_app, IH.
    unfold rendering, answerEvents, nonEmpty. cbn [flat_map].
    destruct (api.GenerateResponse.Thinking g =? "")%string,
             (api.GenerateResponse.Response g =? "")%string, done;
      cbn [negb andb orb app filter List.length];
      rewrite ?isThoughtComplete_thinkingLine, ?isThoughtComplete_answer;
      try reflexivity;
      destruct (existsb _ _); reflexivity.
Qed.

Lemma generate_run (c : nat) (req : api.GenerateRequest.t)
    (t : Turn api.GenerateResponse.t) (w : World) :
  GenerateVariant.generate c req t w
  = (Ret (mkStream (concatText (responses (frags t)))
                   (existsb nonEmpty (responses (frags t))), callError t),
     after w (Call (Scope c) (Generate req) :: renderings false (frags t))).
Proof.
  unfold GenerateVariant.generate, stream. unfold bind at 1. rewrite emit_after.
  rewrite generate_deliver_run, after_after. reflexivity.
Qed.

(** X11. A call of the single-prompt variant prints "Thought process
    complete" once if some fragment has an answer text, and not at all
    otherwise, whether or not any reasoning text was shown and whether or not
    the call fails; [thinkingDone] ends up set in the first case only. *)
Theorem X11_thought_complete_is_printed_once (c : nat) (req : api.GenerateRequest.t)
    (t : Turn api.GenerateResponse.t) (w : World) :
  let r := GenerateVariant.generate c req t w in
  let answered := existsb nonEmpty (responses (frags t)) in
  List.length (filter isThoughtComplete (newEvents w (snd r)))
  = (if answered then 1 else 0)
  /\ exists text : string, fst r = Ret (mkStream text answered, callError t).
Proof.
  intros r answered. subst r answered. rewrite generate_run. cbn [fst snd].
  unfold after. rewrite newEvents_app. cbn [filter isThoughtComplete].
  rewrite thoughtComplete_count. cbn [orb]. split.
  - now destruct (existsb _ _).
  - eexists. reflexivity.
Qed.

(** ** The start-up *)

Lemma yields_ret {A : Type} (a : A) : yields (ret a) a.
Proof. intros w. exists []. now rewrite after_nil. Qed.

Lemma yields_emit (e : Event) : isStartupEvent e = true -> yields (emit e) tt.
Proof. intros He w. exists [e]. rewrite emit_after. simpl. now rewrite He. Qed.

Lemma yields_bind {A B : Type} (m : M A) (k : A -> M B) (a : A) (b : B) :
  yields m a -> yields (k a) b -> yields (bind m k) b.
Proof.
  intros Hm Hk w. destruct (Hm w) as (e1 & E1 & F1).
  destruct (Hk (after w e1)) as (e2 & E2 & F2).
  exists (e1 ++ e2)%list. unfold bind. rewrite E1, E2, after_after.
  now rewrite forallb_app, F1, F2.
Qed.

Lemma yields_call {A : Type} (ctx : Ctx) (req : Request) (answer : A) :
  isStartupEvent (Call ctx req) = true -> yields (call ctx req answer) answer.
Proof.
  intros H. unfold call. apply (yields_bind _ _ tt); [now apply yields_emit | apply yields_ret].
Qed.

Lemma block_yields {A : Type} (m : M A) (a : A) : yields m a -> block m True False.
Proof.
  intros Hm w. destruct (Hm w) as (evs & E & F). exists evs. rewrite E. cbn [fst snd]. tauto.
Qed.

Lemma block_fatal {A : Type} (args : list string) : block (@logFatalln A args) False False.
Proof. intros w. exists [Log (Sprintln args)]. cbn. tauto. Qed.

Lemma block_iff {A : Type} (m : M A) (ok pn ok' pn' : Prop) :
  block m ok pn -> (ok <-> ok') -> (pn <-> pn') -> block m ok' pn'.
Proof.
  intros Hm Hok Hpn w. destruct (Hm w) as (evs & E & F & O). exists evs.
  split; [exact E|]. split; [exact F|]. destruct (fst (m w)); tauto.
Qed.

Lemma block_bind {A B : Type} (m : M A) (k : A -> M B) (ok1 pn1 ok2 pn2 : Prop) :
  block m ok1 pn1 -> (forall a, block (k a) ok2 pn2) ->
  block (bind m k) (ok1 /\ ok2) (pn1 \/ (ok1 /\ pn2)).
Proof.
  intros Hm Hk w. destruct (Hm w) as (e1 & E1 & F1 & O1).
  unfold bind. destruct (m w) as [[a|c|msg|] w1]; cbn [fst snd] in *; subst w1.
  - destruct (Hk a (after w e1)) as (e2 & E2 & F2 & O2).
    exists (e1 ++ e2)%list. rewrite E2, after_after, forallb_app, F1, F2.
    split; [reflexivity|]. split; [reflexivity|].
    destruct (fst (k a (after w e1))); tauto.
  - exists e1. cbn [fst snd]. tauto.
  - exists e1. cbn [fst snd]. tauto.
  - contradiction.
Qed.

Lemma block_bind_yields {A B : Type} (m : M A) (k : A -> M B) (a : A) (ok pn : Prop) :
  yields m a -> block (k a) ok pn -> block (bind m k) ok pn.
Proof.
  intros Hm Hk w. destruct (Hm w) as (e1 & E1 & F1).
  destruct (Hk (after w e1)) as (e2 & E2 & F2 & O2).
  exists (e1 ++ e2)%list. unfold bind. rewrite E1, E2, after_after, forallb_app, F1, F2.
  split; [reflexivity|]. split; [reflexivity|]. exact O2.
Qed.

Lemma yields_printModels (models : list string) :
  forall i : nat, yields (printModels i models) tt.
Proof.
  induction models as [|name models IH]; intros i; cbn [printModels].
  - apply yields_ret.
  - apply (yields_bind _ _ tt); [now apply yields_emit | apply IH].
Qed.

Lemma yields_printCapabilities (caps : list string) : yields (printCapabilities caps) tt.
Proof.
  induction caps as [|c caps IH]; cbn [printCapabilities].
  - apply yields_ret.
  - apply (yields_bind _ _ tt); [now apply yields_emit | apply IH].
Qed.

Lemma yields_pullProgress (statuses : list string) (err : option string) :
  yields (deliver GenerateVariant.pullProgressFn statuses err tt) (tt, err).
Proof.
  induction statuses as [|s statuses IH]; cbn [deliver].
  - apply yields_ret.
  - apply (yields_bind _ _ (tt, None)); [|exact IH].
    unfold GenerateVariant.pullProgressFn.
    apply (yields_bind _ _ tt); [|apply yields_ret].
    destruct (s =? "success")%string; now apply yields_emit.
Qed.

Lemma yields_seedSystemMessage (env : Startup) :
  yields (seedSystemMessage env) (seededMessage env).
Proof.
  unfold seedSystemMessage, loadSystemMessage, seededMessage.
  destruct (readFile env "system.txt") as [data|e].
  - apply (yields_bind _ _ (Ok (strings.TrimSpace data))); [|apply yields_ret].
    apply (yields_bind _ _ tt); [now apply yields_emit | apply yields_ret].
  - apply (yields_bind _ _ (Err e)).
    + apply (yields_bind _ _ tt); [now apply yields_emit | apply yields_ret].
    + apply (yields_bind _ _ tt); [now apply yields_emit | apply yields_ret].
Qed.

Lemma block_NewOllamaClient (env : Startup) :
  block (NewOllamaClient env) (clientFromEnvironment env = None) False.
Proof.
  unfold NewOllamaClient. destruct (clientFromEnvironment env) as [e|].
  - apply (block_iff _ False False); [apply block_fatal | split; [tauto | discriminate] | tauto].
  - apply (block_iff _ True False); [apply (block_yields _ tt), yields_ret | tauto | tauto].
Qed.

Lemma block_generate_connect (env : Startup) (ctx : Ctx) :
  block (GenerateVariant.connect env ctx) (heartbeatResult env = None) False.
Proof.
  unfold GenerateVariant.connect.
  apply (block_bind_yields _ _ tt); [now apply yields_emit|].
  apply (block_bind_yields _ _ (heartbeatResult env)); [now apply yields_call|].
  destruct (heartbeatResult env) as [e|].
  - apply (block_iff _ False False); [apply block_fatal | split; [tauto | discriminate] | tauto].
  - apply (block_iff _ True False);
      [apply (block_yields _ tt); now apply yields_emit | tauto | tauto].
Qed.

Lemma block_chat_connect (env : Startup) (ctx : Ctx) :
  block (ChatVariant.connect env ctx) (heartbeatResult env = None) False.
Proof.
  unfold ChatVariant.connect.
  apply (block_bind_yields _ _ tt); [now apply yields_emit|].
  apply (block_bind_yields _ _ (heartbeatResult env)); [now apply yields_call|].
  destruct (heartbeatResult env) as [e|].
  - do 6 (apply (block_bind_yields _ _ tt); [now apply yields_emit|]).
    intros w. exists []. rewrite after_nil. cbn.
    split; [reflexivity|]. split; [reflexivity|]. split; [reflexivity|].
    split; [discriminate | tauto].
  - apply (block_iff _ True False);
      [apply (block_yields _ tt); now apply yields_emit | tauto | tauto].
Qed.

Lemma block_versionAndModels (env : Startup) (ctx : Ctx) :
  block (versionAndModels env ctx)
        ((exists v, versionResult env = Ok v) /\ (exists models, listResult env = Ok models))
        False.
Proof.
  unfold versionAndModels.
  apply (block_bind_yields _ _ (versionResult env)); [now apply yields_call|].
  destruct (versionResult env) as [v|e].
  - apply (block_bind_yields _ _ tt); [now apply yields_emit|].
    apply (block_bind_yields _ _ (listResult env)); [now apply yields_call|].
    destruct (listResult env) as [models|e].
    + apply (block_iff _ True False).
      * apply (block_yields _ tt).
        apply (yields_bind _ _ tt); [now apply yields_emit|].
        apply (yields_bind _ _ tt); [apply yields_printModels|].
        apply (yields_bind _ _ tt); now apply yields_emit.
      * split; [intros _; split; eexists; reflexivity | tauto].
      * tauto.
    + apply (block_iff _ False False); [apply block_fatal | | tauto].
      split; [tauto | intros [_ [models H]]; discriminate].
  - apply (block_iff _ False False); [apply block_fatal | | tauto].
    split; [tauto | intros [[v H] _]; discriminate].
Qed.

Lemma block_showCapabilities (env : Startup) (ctx : Ctx) :
  block (showCapabilities env ctx) (exists caps, showResult env = Ok caps) False.
Proof.
  unfold showCapabilities.
  apply (block_bind_yields _ _ (showResult env)); [now apply yields_call|].
  destruct (showResult env) as [caps|e].
  - apply (block_iff _ True False).
    + apply (block_yields _ tt).
      apply (yields_bind _ _ tt); [now apply yields_emit | apply yields_printCapabilities].
    + split; [intros _; eexists; reflexivity | tauto].
    + tauto.
  - apply (block_iff _ False False); [apply block_fatal | | tauto].
    split; [tauto | intros [caps H]; discriminate].
Qed.

Lemma block_pullEmbeddingModel (env : Startup) :
  block (GenerateVariant.pullEmbeddingModel env) (snd (pullResult env) = None) False.
Proof.
  unfold GenerateVariant.pullEmbeddingModel.
  apply (block_bind_yields _ _ tt); [now apply yields_emit|].
  apply (block_bind_yields _ _ (tt, snd (pullResult env))).
  { unfold stream. apply (yields_bind _ _ tt); [now apply yields_emit|].
    apply yields_pullProgress. }
  cbn [snd]. destruct (snd (pullResult env)) as [e|].
  - apply (block_iff _ False False); [apply block_fatal | split; [tauto | discriminate] | tauto].
  - apply (block_iff _ True False); [apply (block_yields _ tt), yields_ret | tauto | tauto].
Qed.

Lemma block_testEmbedding (env : Startup) (ctx : Ctx) :
  block (GenerateVariant.testEmbedding env ctx)
        (exists e0 es, embedResult env = Ok (e0 :: es))
        (embedResult env = Ok []).
Proof.
  unfold GenerateVariant.testEmbedding.
  apply (block_bind_yields _ _ (embedResult env)); [now apply yields_call|].
  destruct (embedResult env) as [[|e0 es]|e].
  - intros w. exists []. rewrite after_nil. cbn.
    split; [reflexivity|]. split; [reflexivity|]. split; [reflexivity|].
    intros (e0 & es & H). discriminate.
  - apply (block_iff _ True False);
      [apply (block_yields _ tt); now apply yields_emit | | ].
    + split; [intros _; do 2 eexists; reflexivity | tauto].
    + split; [tauto | discriminate].
  - apply (block_iff _ False False); [apply block_fatal | | ].
    + split; [tauto | intros (e0 & es & H); discriminate].
    + split; [tauto | discriminate].
Qed.

Lemma generate_startup_block (env : Startup) (w : World) :
  exists evs : list Event,
    snd (GenerateVariant.startup env w)
    = mkWorld (trace w ++ WithTimeout (scopes w) 5 :: evs)%list
              (S (scopes w)) (scopes w :: deferred w)
    /\ forallb isStartupEvent evs = true
    /\ match fst (GenerateVariant.startup env w) with
       | Ret _ => reachesLoop env
       | Exit c => c = 1%Z /\ ~ reachesLoop env /\ ~ emptyEmbedding env
       | Panic _ => emptyEmbedding env
       | Await => False
       end.
Proof.
  set (c := scopes w).
  assert (B : block
    (NewOllamaClient env ;;
     systemMsg <- seedSystemMessage env ;;
     GenerateVariant.connect env (Scope c) ;;
     versionAndModels env (Scope c) ;;
     GenerateVariant.pullEmbeddingModel env ;;
     GenerateVariant.testEmbedding env (Scope c) ;;
     showCapabilities env (Scope c) ;;
     Println [LF ++ Blue ++ "🗨️  Start chatting with your AI (type 'exit' to quit)"
              ++ Reset] ;;
     ret (c, systemMsg))
    (reachesLoop env) (emptyEmbedding env)).
  { eapply block_iff.
    - eapply block_bind; [apply block_NewOllamaClient | intros _].
      eapply block_bind;
        [apply (block_yields _ _ (yields_seedSystemMessage env)) | intros systemMsg].
      eapply block_bind; [apply block_generate_connect | intros _].
      eapply block_bind; [apply block_versionAndModels | intros _].
      eapply block_bind; [apply block_pullEmbeddingModel | intros _].
      eapply block_bind; [apply block_testEmbedding | intros _].
      eapply block_bind; [apply block_showCapabilities | intros _].
      apply (block_yields _ (c, systemMsg)).
      apply (yields_bind _ _ tt); [now apply yields_emit | apply yields_ret].
    - unfold reachesLoop. tauto.
    - unfold emptyEmbedding. tauto. }
  destruct (B (mkWorld (trace w ++ [WithTimeout c 5])%list (S c) (c :: deferred w)))
    as (evs & E & F & O).
  exists evs.
  match type of E with snd ?x = _ =>
    change (GenerateVariant.startup env w) with x; destruct x as [o w1]
  end.
  cbn [fst snd] in *. subst w1. unfold after. cbn [trace scopes deferred].
  rewrite <- app_assoc.
  split; [reflexivity|]. split; [exact F|]. destruct o; tauto.
Qed.

Lemma chat_startup_block (env : Startup) (w : World) :
  exists evs : list Event,
    snd (ChatVariant.startup env w)
    = mkWorld (trace w ++ WithTimeout (scopes w) 5 :: evs)%list
              (S (scopes w)) (scopes w :: deferred w)
    /\ forallb isStartupEvent evs = true
    /\ match fst (ChatVariant.startup env w) with
       | Ret _ => chatReachesLoop env
       | Exit c => c = 1%Z /\ ~ chatReachesLoop env
       | Panic _ => False
       | Await => False
       end.
Proof.
  set (c := scopes w).
  assert (B : block
    (NewOllamaClient env ;;
     systemMsg <- seedSystemMessage env ;;
     ChatVariant.connect env (Scope c) ;;
     versionAndModels env (Scope c) ;;
     showCapabilities env (Scope c) ;;
     Println [LF ++ Blue ++ "🗨️  Start chatting with your AI (type 'exit' to quit)"
              ++ Reset] ;;
     ret (c, [message "system" systemMsg]))
    (chatReachesLoop env) False).
  { eapply block_iff.
    - eapply block_bind; [apply block_NewOllamaClient | intros _].
      eapply block_bind;
        [apply (block_yields _ _ (yields_seedSystemMessage env)) | intros systemMsg].
      eapply block_bind; [apply block_chat_connect | intros _].
      eapply block_bind; [apply block_versionAndModels | intros _].
      eapply block_bind; [apply block_showCapabilities | intros _].
      apply (block_yields _ (c, [message "system" systemMsg])).
      apply (yields_bind _ _ tt); [now apply yields_emit | apply yields_ret].
    - unfold chatReachesLoop. tauto.
    - tauto. }
  destruct (B (mkWorld (trace w ++ [WithTimeout c 5])%list (S c) (c :: deferred w)))
    as (evs & E & F & O).
  exists evs.
  match type of E with snd ?x = _ =>
    change (ChatVariant.startup env w) with x; destruct x as [o w1]
  end.
  cbn [fst snd] in *. subst w1. unfold after. cbn [trace scopes deferred].
  rewrite <- app_assoc.
  split; [reflexivity|]. split; [exact F|]. destruct o; tauto.
Qed.

Lemma runCancels_run (ids : list nat) :
  forall w : World, runCancels ids w = (Ret tt, after w (map Cancel ids)).
Proof.
  induction ids as [|id ids IH]; intros w; cbn [runCancels map].
  - unfold ret. now rewrite after_nil.
  - unfold bind, cancel. rewrite emit_after, IH, after_after. reflexivity.
Qed.

Lemma runDeferred_run (w : World) :
  runDeferred w
  = (Ret tt, mkWorld (trace w ++ map Cancel (deferred w))%list (scopes w) []).
Proof. unfold runDeferred. now rewrite runCancels_run. Qed.

(** [main] of [src/main.go], by the way its start-up ends. *)
Lemma generate_main_run (f : Z -> Z) (env : Startup)
    (turns : list (Turn api.GenerateResponse.t)) (w : World) :
  exists evs : list Event,
    forallb isStartupEvent evs = true
    /\ let c := scopes w in
       let n := userTurns f turns in
       let started := (trace w ++ WithTimeout c 5 :: evs)%list in
       match fst (GenerateVariant.startup env w) with
       | Ret s =>
         reachesLoop env
         /\ GenerateVariant.main f env turns w
            = if hasExit f turns
              then (Ret tt,
                    mkWorld (started ++ generateLoopEvents f (S c) (snd s) turns
                             ++ map Cancel (rev (seq (S c) n) ++ c :: deferred w))%list
                            (S c + n) [])
              else (Await,
                    mkWorld (started ++ generateLoopEvents f (S c) (snd s) turns)%list
                            (S c + n) (rev (seq (S c) n) ++ c :: deferred w)%list)
       | Exit code =>
         code = 1%Z /\ ~ reachesLoop env /\ ~ emptyEmbedding env
         /\ GenerateVariant.main f env turns w
            = (Exit 1%Z, mkWorld started (S c) (c :: deferred w))
       | Panic msg =>
         emptyEmbedding env
         /\ GenerateVariant.main f env turns w
            = (Panic msg,
               mkWorld (started ++ map Cancel (c :: deferred w))%list (S c) [])
       | Await => False
       end.
Proof.
  destruct (generate_startup_block env w) as (evs & E & F & O).
  exists evs. split; [exact F|]. cbv zeta.
  unfold GenerateVariant.main, withDeferred, bind.
  destruct (GenerateVariant.startup env w) as [[s|code|msg|] w1];
    cbn [fst snd] in *; subst w1.
  - split; [exact O|]. rewrite generate_loop_run. cbn [trace scopes deferred].
    destruct (hasExit f turns).
    + rewrite runDeferred_run. cbn [trace scopes deferred].
      now rewrite <- app_assoc.
    + reflexivity.
  - destruct O as (-> & O1 & O2). repeat split; assumption.
  - split; [exact O|]. rewrite runDeferred_run. reflexivity.
  - contradiction.
Qed.

(** [main] of [src/unnamed/part_000], by the way its start-up ends. *)
Lemma chat_main_run (f : Z -> Z) (env : Startup)
    (turns : list (Turn api.ChatResponse.t)) (w : World) :
  exists evs : list Event,
    forallb isStartupEvent evs = true
    /\ let c := scopes w in
       let n := userTurns f turns in
       let started := (trace w ++ WithTimeout c 5 :: evs)%list in
       match fst (ChatVariant.startup env w) with
       | Ret s =>
         chatReachesLoop env
         /\ ChatVariant.main f env turns w
            = if hasExit f turns
              then (Ret tt,
                    mkWorld (started ++ chatLoopEvents f (S c) (snd s) turns
                             ++ map Cancel (c :: deferred w))%list
                            (S c + n) [])
              else (Await,
                    mkWorld (started ++ chatLoopEvents f (S c) (snd s) turns)%list
                            (S c + n) (c :: deferred w))
       | Exit code =>
         code = 1%Z /\ ~ chatReachesLoop env
         /\ ChatVariant.main f env turns w
            = (Exit 1%Z, mkWorld started (S c) (c :: deferred w))
       | Panic _ => False
       | Await => False
       end.
Proof.
  destruct (chat_startup_block env w) as (evs & E & F & O).
  exists evs. split; [exact F|]. cbv zeta.
  unfold ChatVariant.main, withDeferred, bind.
  destruct (ChatVariant.startup env w) as [[s|code|msg|] w1];
    cbn [fst snd] in *; subst w1.
  - split; [exact O|]. rewrite chat_loop_run. cbn [trace scopes deferred].
    destruct (hasExit f turns).
    + unfold ret. rewrite runDeferred_run. cbn [trace scopes deferred].
      now rewrite <- app_assoc.
    + reflexivity.
  - destruct O as (-> & O1). repeat split; assumption.
  - contradiction.
  - contradiction.
Qed.

(** ** How the programs end *)

(** X12. How [main] of [src/main.go] ends, on any answers of the outside and
    any script of lines.  It returns exactly when every step of the
    start-up succeeds and an exit command is read; with all steps
    succeeding and no exit command it waits for a line.  It panics exactly
    when the steps up to the pull succeed and the test embedding comes back
    without embeddings.  In every other case it exits with status 1. *)
Theorem X12_generate_main_ends (f : Z -> Z) (env : Startup)
    (turns : list (Turn api.GenerateResponse.t)) (w : World) :
  match fst (GenerateVariant.main f env turns w) with
  | Ret _ => reachesLoop env /\ hasExit f turns = true
  | Await => reachesLoop env /\ hasExit f turns = false
  | Panic _ => emptyEmbedding env
  | Exit code => code = 1%Z /\ ~ reachesLoop env /\ ~ emptyEmbedding env
  end.
Proof.
  destruct (generate_main_run f env turns w) as (evs & _ & H). cbv zeta in H.
  destruct (fst (GenerateVariant.startup env w)) as [s|code|msg|].
  - destruct H as [Hup ->]. destruct (hasExit f turns); cbn [fst]; auto.
  - destruct H as (-> & H1 & H2 & ->). cbn [fst]. auto.
  - destruct H as [He ->]. exact He.
  - contradiction.
Qed.

(** X13. How [main] of [src/unnamed/part_000] ends.  It returns exactly when
    the client, the connectivity check, the version, the listing and the show
    call succeed and an exit command is read; with these succeeding and no
    exit command it waits for a line; otherwise it exits with status 1.  It
    never panics. *)
Theorem X13_chat_main_ends (f : Z -> Z) (env : Startup)
    (turns : list (Turn api.ChatResponse.t)) (w : World) :
  match fst (ChatVariant.main f env turns w) with
  | Ret _ => chatReachesLoop env /\ hasExit f turns = true
  | Await => chatReachesLoop env /\ hasExit f turns = false
  | Panic _ => False
  | Exit code => code = 1%Z /\ ~ chatReachesLoop env
  end.
Proof.
  destruct (chat_main_run f env turns w) as (evs & _ & H). cbv zeta in H.
  destruct (fst (ChatVariant.startup env w)) as [s|code|msg|].
  - destruct H as [Hup ->]. destruct (hasExit f turns); cbn [fst]; auto.
  - destruct H as (-> & H1 & ->). cbn [fst]. auto.
  - contradiction.
  - contradiction.
Qed.

Lemma startup_events_no_session (evs : list Event) :
  forallb isStartupEvent evs = true -> existsb isSessionEvent evs = false.
Proof.
  induction evs as [|e evs IH]; [reflexivity|]. cbn [forallb existsb].
  intros H. apply andb_true_iff in H as [He H]. rewrite (IH H), orb_false_r.
  destruct e as [s|s|s|s| | | |ctx [ | | | | | | | ]]; try reflexivity; discriminate.
Qed.

Lemma cancels_no_session (ids : list nat) : existsb isSessionEvent (map Cancel ids) = false.
Proof. induction ids as [|id ids IH]; [reflexivity | exact IH]. Qed.

(** X14. When a step of the start-up fails, the session never begins: no
    line is read from the standard input and no completion call is made, in
    either variant. *)
Theorem X14_failed_startup_never_reaches_the_session (f : Z -> Z) (env : Startup) (w : World) :
  (~ reachesLoop env ->
   forall turns : list (Turn api.GenerateResponse.t),
     existsb isSessionEvent (newEvents w (snd (GenerateVariant.main f env turns w))) = false)
  /\ (~ chatReachesLoop env ->
      forall turns : list (Turn api.ChatResponse.t),
        existsb isSessionEvent (newEvents w (snd (ChatVariant.main f env turns w))) = false).
Proof.
  split; intros Hdown turns.
  - destruct (generate_main_run f env turns w) as (evs & F & H). cbv zeta in H.
    apply startup_events_no_session in F.
    destruct (fst (GenerateVariant.startup env w)) as [s|code|msg|].
    + destruct H as [Hup _]. contradiction.
    + destruct H as (_ & _ & _ & ->). cbn [snd]. rewrite newEvents_app. exact F.
    + destruct H as [_ ->]. cbn [snd]. rewrite <- app_assoc, newEvents_app.
      cbn [app existsb isSessionEvent orb]. rewrite existsb_app, F.
      apply (cancels_no_session (scopes w :: deferred w)).
    + contradiction.
  - destruct (chat_main_run f env turns w) as (evs & F & H). cbv zeta in H.
    apply startup_events_no_session in F.
    destruct (fst (ChatVariant.startup env w)) as [s|code|msg|].
    + destruct H as [Hup _]. contradiction.
    + destruct H as (_ & _ & ->). cbn [snd]. rewrite newEvents_app. exact F.
    + contradiction.
    + contradiction.
Qed.

Lemma X14_witness_server_down :
  existsb isSessionEvent
    (newEvents World0 (snd (GenerateVariant.main idRune serverDown [say "hello"] World0)))
  = false
  /\ existsb isSessionEvent
       (newEvents World0 (snd (ChatVariant.main idRune serverDown [say "hello"] World0)))
     = false.
Proof.
  split.
  - apply (proj1 (X14_failed_startup_never_reaches_the_session idRune serverDown World0)).
    intros (_ & H & _). discriminate.
  - apply (proj2 (X14_failed_startup_never_reaches_the_session idRune serverDown World0)).
    intros (_ & H & _). discriminate.
Defined.

(** ** The scopes *)

Lemma held_startup (evs : list Event) :
  forallb isStartupEvent evs = true ->
  forall acc : list nat, held evs acc = acc /\ heldAtReads evs acc = [].
Proof.
  induction evs as [|e evs IH]; [intros _ acc; split; reflexivity|]. cbn [forallb].
  intros H acc. apply andb_true_iff in H as [He H].
  destruct e as [s|s|s|s| | | |ctx req]; try discriminate; cbn [held heldAtReads];
    apply (IH H).
Qed.

Lemma heldAtReads_app (a b : list Event) :
  forall acc : list nat,
    heldAtReads (a ++ b) acc = (heldAtReads a acc ++ heldAtReads b (held a acc))%list.
Proof.
  induction a as [|e a IH]; intros acc; [reflexivity|].
  destruct e; cbn [app heldAtReads held]; rewrite IH; reflexivity.
Qed.

Lemma held_cancels (ids : list nat) :
  forall acc : list nat,
    (forall x, In x acc -> In x ids) ->
    held (map Cancel ids) acc = [] /\ heldAtReads (map Cancel ids) acc = [].
Proof.
  induction ids as [|id ids IH]; intros acc Hin; cbn [map held heldAtReads].
  - split; [|reflexivity]. destruct acc as [|x acc]; [reflexivity|].
    destruct (Hin x (or_introl eq_refl)).
  - apply IH. intros x Hx. apply in_remove in Hx as [Hx Hne].
    destruct (Hin x Hx) as [E|E]; [congruence | exact E].
Qed.

Lemma heldAtReads_answerEvents (texts : list string) (acc : list nat) :
  heldAtReads (answerEvents texts) acc = [].
Proof.
  induction texts as [|c texts IH]; [reflexivity|].
  unfold answerEvents in *. cbn [flat_map].
  destruct (c =? "")%string; [exact IH | exact IH].
Qed.

Lemma held_chatTurnEvents (c : nat) (history : list api.Message.t)
    (t : Turn api.ChatResponse.t) (acc : list nat) :
  ~ In c acc ->
  held (chatTurnEvents c history t) acc = acc
  /\ heldAtReads (chatTurnEvents c history t) acc = [acc].
Proof.
  intros Hfresh. unfold chatTurnEvents. split.
  - rewrite !held_app. cbn [held]. rewrite held_answerEvents.
    destruct (callError t); cbn [held]; now apply remove_fresh.
  - rewrite !heldAtReads_app. cbn [heldAtReads held]. rewrite heldAtReads_answerEvents.
    destruct (callError t); reflexivity.
Qed.

Lemma held_chatLoopEvents (f : Z -> Z) (turns : list (Turn api.ChatResponse.t)) :
  forall (c : nat) (messages : list api.Message.t) (acc : list nat),
    (forall x, In x acc -> x < c) ->
    held (chatLoopEvents f c messages turns) acc = acc
    /\ heldAtReads (chatLoopEvents f c messages turns) acc = repeat acc (linesRead f turns).
Proof.
  unfold linesRead.
  induction turns as [|t turns IH]; intros c messages acc Hacc; [split; reflexivity|].
  cbn [chatLoopEvents]. rewrite hasExit_cons, untilExit_cons.
  destruct (turnKind f t) eqn:K.
  - destruct (IH c messages acc Hacc) as [H1 H2]. cbn [app held heldAtReads].
    split; [exact H1 | now rewrite H2].
  - destruct (IH c messages acc Hacc) as [H1 H2]. cbn [app held heldAtReads].
    split; [exact H1 | now rewrite H2].
  - split; reflexivity.
  - assert (Hfresh : ~ In c acc) by (intros Hin; apply Hacc in Hin; lia).
    destruct (held_chatTurnEvents c (messages ++ [message "user" text]) t acc Hfresh)
      as [T1 T2].
    destruct (IH (S c) (messages ++ exchange f t)%list acc) as [H1 H2].
    { intros x Hx. apply Hacc in Hx. lia. }
    rewrite held_app, heldAtReads_app, T1, T2. split; [exact H1 | now rewrite H2].
Qed.

Lemma held_generateLoopEvents (f : Z -> Z) (systemMsg : string)
    (turns : list (Turn api.GenerateResponse.t)) :
  forall (c : nat) (acc : list nat),
    held (generateLoopEvents f c systemMsg turns) acc
    = (acc ++ seq c (userTurns f turns))%list.
Proof.
  induction turns as [|t turns IH]; intros c acc.
  - unfold userTurns. simpl. now rewrite app_nil_r.
  - cbn [generateLoopEvents]. rewrite userTurns_cons.
    destruct (turnKind f t) eqn:K.
    + cbn [app held]. apply IH.
    + cbn [app held]. apply IH.
    + cbn [held seq]. now rewrite app_nil_r.
    + assert (Hlast : forall a, held [match callError t with
                                      | Some e => Stdout (failureLine e)
                                      | None => Stdout LF
                                      end] a = a).
      { intros a. destruct (callError t); reflexivity. }
      unfold generateTurnEvents. rewrite !held_app, Hlast, held_renderings.
      cbn [held]. rewrite IH. cbn [seq]. now rewrite <- app_assoc.
Qed.

(** X15. What each loop does to the scopes, on any script.  The loop of
    [src/unnamed/part_000] leaves the scopes held as they were: each scope it
    creates is cancelled in the same turn.  The loop of [src/main.go] holds
    one more scope for every user turn: none of them is cancelled in the
    loop, whether the call succeeds or fails. *)
Theorem X15_loops_and_their_scopes (f : Z -> Z) (w : World) :
  (forall x, In x (heldScopes w) -> x < scopes w) ->
  (forall (messages : list api.Message.t) (turns : list (Turn api.ChatResponse.t)),
     heldScopes (snd (ChatVariant.chatLoop f messages turns w)) = heldScopes w)
  /\ (forall (systemMsg : string) (turns : list (Turn api.GenerateResponse.t)),
        heldScopes (snd (GenerateVariant.chatLoop f systemMsg turns w))
        = (heldScopes w ++ seq (scopes w) (userTurns f turns))%list).
Proof.
  intros Hfresh. unfold heldScopes in *. split.
  - intros messages turns. rewrite chat_loop_run. cbn [snd trace].
    rewrite held_app. now apply held_chatLoopEvents.
  - intros systemMsg turns. rewrite generate_loop_run. cbn [snd trace].
    rewrite held_app. apply held_generateLoopEvents.
Qed.

Lemma X15_witness_two_user_turns :
  let w := mkWorld [WithTimeout 0 5] 1 [0] in
  let turns (R : Type) : list (Turn R) := [say "one"; say ""; say "two"] in
  heldScopes (snd (ChatVariant.chatLoop idRune [] (turns _) w)) = heldScopes w
  /\ heldScopes (snd (GenerateVariant.chatLoop idRune "" (turns _) w))
     = (heldScopes w ++ seq (scopes w) (userTurns idRune (turns api.GenerateResponse.t)))%list.
Proof.
  intros w turns.
  pose proof (X15_loops_and_their_scopes idRune w) as H.
  assert (Hfresh : forall x, In x (heldScopes w) -> x < scopes w).
  { intros x [<-|[]]. vm_compute. lia. }
  destruct (H Hfresh) as [H1 H2]. split; [apply H1 | apply H2].
Defined.

Lemma length_heldAtReads (t : list Event) :
  forall acc : list nat,
    List.length (heldAtReads t acc) = List.length (filter isRead t).
Proof.
  induction t as [|e t IH]; intros acc; [reflexivity|].
  destruct e; cbn [heldAtReads filter isRead List.length]; now rewrite IH.
Qed.

(** X16. The scopes still held when [main] ends, from the start of the
    program.  Both variants have released every scope when [main] returns,
    and [src/main.go] when it panics: the deferred calls cancel the scope of
    the start-up and, in [src/main.go], the scope of every user turn.  When
    the program exits at a failed start-up step only the scope of the
    start-up had been made, and it is not cancelled.  While it waits for a
    line, [src/unnamed/part_000] holds the scope of the start-up only, and
    [src/main.go] one more for every user turn so far. *)
Theorem X16_scopes_held_when_main_ends (f : Z -> Z) (env : Startup) :
  (forall turns : list (Turn api.GenerateResponse.t),
     let r := GenerateVariant.main f env turns World0 in
     heldScopes (snd r)
     = match fst r with
       | Ret _ | Panic _ => []
       | Exit _ => [0]
       | Await => 0 :: seq 1 (userTurns f turns)
       end)
  /\ (forall turns : list (Turn api.ChatResponse.t),
        let r := ChatVariant.main f env turns World0 in
        heldScopes (snd r)
        = match fst r with
          | Ret _ | Panic _ => []
          | Exit _ | Await => [0]
          end).
Proof.
  split; intros turns r; subst r; unfold heldScopes.
  - destruct (generate_main_run f env turns World0) as (evs & F & H). cbv zeta in H.
    cbn [World0 trace scopes deferred app] in H.
    pose proof (proj1 (held_startup evs F [0])) as Hevs.
    destruct (fst (GenerateVariant.startup env World0)) as [s|code|msg|].
    + destruct H as [_ ->]. destruct (hasExit f turns); cbn [fst snd trace].
      * cbn [app held]. rewrite !held_app, Hevs, held_generateLoopEvents.
        apply held_cancels. intros x Hx. apply in_or_app.
        destruct Hx as [<-|Hx]; [right; now left | left; now apply in_rev in Hx].
      * cbn [app held]. rewrite held_app, Hevs. apply held_generateLoopEvents.
    + destruct H as (_ & _ & _ & ->). cbn [fst snd trace held]. exact Hevs.
    + destruct H as [_ ->]. cbn [fst snd trace app held]. rewrite held_app, Hevs.
      reflexivity.
    + contradiction.
  - destruct (chat_main_run f env turns World0) as (evs & F & H). cbv zeta in H.
    cbn [World0 trace scopes deferred app] in H.
    pose proof (proj1 (held_startup evs F [0])) as Hevs.
    assert (Hloop : forall messages : list api.Message.t,
              held (chatLoopEvents f 1 messages turns) [0] = [0]).
    { intros messages. apply held_chatLoopEvents. intros x [<-|[]]. lia. }
    destruct (fst (ChatVariant.startup env World0)) as [s|code|msg|].
    + destruct H as [_ ->]. destruct (hasExit f turns); cbn [fst snd trace].
      * cbn [app held]. rewrite !held_app, Hevs, Hloop. reflexivity.
      * cbn [app held]. rewrite held_app, Hevs. apply Hloop.
    + destruct H as (_ & _ & ->). cbn [fst snd trace held]. exact Hevs.
    + contradiction.
    + contradiction.
Qed.

(** X17. In [src/unnamed/part_000], whenever a line is read from the
    standard input the only scope held is that of the start-up: no scope of
    a completion call outlives its turn, on any answers of the outside and
    any script of lines. *)
Theorem X17_chat_reads_hold_the_startup_scope_only (f : Z -> Z) (env : Startup)
    (turns : list (Turn api.ChatResponse.t)) :
  let t := trace (snd (ChatVariant.main f env turns World0)) in
  heldAtReads t [] = repeat [0] (List.length (filter isRead t)).
Proof.
  intros t.
  assert (H : exists k : nat, heldAtReads t [] = repeat [0] k).
  { subst t.
    destruct (chat_main_run f env turns World0) as (evs & F & H). cbv zeta in H.
    cbn [World0 trace scopes deferred app] in H.
    destruct (held_startup evs F [0]) as [Hevs Revs].
    assert (Hloop : forall messages : list api.Message.t,
              held (chatLoopEvents f 1 messages turns) [0] = [0]
              /\ heldAtReads (chatLoopEvents f 1 messages turns) [0]
                 = repeat [0] (linesRead f turns)).
    { intros messages. apply held_chatLoopEvents. intros x [<-|[]]. lia. }
    destruct (fst (ChatVariant.startup env World0)) as [s|code|msg|].
    - destruct H as [_ ->]. exists (linesRead f turns).
      destruct (Hloop (snd s)) as [L1 L2].
      destruct (hasExit f turns); cbn [fst snd trace app heldAtReads].
      + rewrite !heldAtReads_app, Revs, Hevs, L2, L1. cbn [map heldAtReads app].
        now rewrite app_nil_r.
      + rewrite heldAtReads_app, Revs, Hevs, L2. reflexivity.
    - destruct H as (_ & _ & ->). exists 0. cbn [fst snd trace heldAtReads]. exact Revs.
    - contradiction.
    - contradiction. }
  destruct H as [k Hk]. rewrite Hk. f_equal.
  rewrite <- (length_heldAtReads t []), Hk. now rewrite repeat_length.
Qed.

(** ** The system message in the requests *)

Lemma returnsOnly_bind {A B : Type} (m : M A) (k : A -> M B)
    (Q1 : A -> Prop) (Q2 : B -> Prop) :
  returnsOnly m Q1 -> (forall a, Q1 a -> returnsOnly (k a) Q2) ->
  returnsOnly (bind m k) Q2.
Proof.
  intros Hm Hk w b w'. unfold bind.
  destruct (m w) as [[a|c|msg|] w1] eqn:E; try discriminate.
  intros Hb. exact (Hk a (Hm w a w1 E) w1 b w' Hb).
Qed.

Lemma returnsOnly_any {A : Type} (m : M A) : returnsOnly m (fun _ => True).
Proof. intros w a w' _. exact I. Qed.

Lemma returnsOnly_yields {A : Type} (m : M A) (a : A) :
  yields m a -> returnsOnly m (eq a).
Proof.
  intros Hm w b w' E. destruct (Hm w) as (evs & E' & _).
  rewrite E' in E. now injection E as ->.
Qed.

(** What the start-up of [src/unnamed/part_000] returns, when it returns:
    its scope, and the history with the system message. *)
Lemma chat_startup_value (env : Startup) (w : World)
    (s : nat * list api.Message.t) :
  fst (ChatVariant.startup env w) = Ret s ->
  s = (scopes w, [message "system" (seededMessage env)]).
Proof.
  set (c := scopes w).
  assert (R : returnsOnly
    (NewOllamaClient env ;;
     systemMsg <- seedSystemMessage env ;;
     ChatVariant.connect env (Scope c) ;;
     versionAndModels env (Scope c) ;;
     showCapabilities env (Scope c) ;;
     Println [LF ++ Blue ++ "🗨️  Start chatting with your AI (type 'exit' to quit)"
              ++ Reset] ;;
     ret (c, [message "system" systemMsg]))
    (eq (c, [message "system" (seededMessage env)]))).
  { apply (returnsOnly_bind _ _ (fun _ => True)); [apply returnsOnly_any | intros _ _].
    apply (returnsOnly_bind _ _ (eq (seededMessage env)));
      [apply returnsOnly_yields, yields_seedSystemMessage | intros systemMsg <-].
    do 4 (apply (returnsOnly_bind _ _ (fun _ => True)); [apply returnsOnly_any | intros _ _]).
    apply returnsOnly_yields, yields_ret. }
  intros H.
  change (ChatVariant.startup env w)
    with ((NewOllamaClient env ;;
           systemMsg <- seedSystemMessage env ;;
           ChatVariant.connect env (Scope c) ;;
           versionAndModels env (Scope c) ;;
           showCapabilities env (Scope c) ;;
           Println [LF ++ Blue ++ "🗨️  Start chatting with your AI (type 'exit' to quit)"
                    ++ Reset] ;;
           ret (c, [message "system" systemMsg]))
            (mkWorld (trace w ++ [WithTimeout c 5])%list (S c) (c :: deferred w))) in H.
  match type of H with fst ?x = _ => destruct x as [o w1] eqn:E end.
  cbn [fst] in H. subst o. symmetry. exact (R _ _ _ E).
Qed.

(** X18. Every completion request of a session carries the system message
    the session was seeded with (the trimmed contents of [system.txt], or
    the fallback).  In [src/main.go] it is the system field of the request of
    every user turn, next to the trimmed line as the prompt.  In
    [src/unnamed/part_000] it is the first message of the history sent,
    before the turns of the conversation so far and the new user turn. *)
Theorem X18_session_requests_carry_the_system_message (f : Z -> Z) (env : Startup) :
  (reachesLoop env ->
   forall (pre post : list (Turn api.GenerateResponse.t))
          (t : Turn api.GenerateResponse.t) (text : string),
     hasExit f pre = false ->
     turnKind f t = UserTurn text ->
     In (Call (Scope (1 + userTurns f pre))
              (Generate (api.GenerateRequest.mk defaultModel text (seededMessage env) "low")))
        (trace (snd (GenerateVariant.main f env (pre ++ t :: post) World0))))
  /\ (chatReachesLoop env ->
      forall (pre post : list (Turn api.ChatResponse.t))
             (t : Turn api.ChatResponse.t) (text : string),
        hasExit f pre = false ->
        turnKind f t = UserTurn text ->
        In (Call (Scope (1 + userTurns f pre))
                 (Chat (api.ChatRequest.mk defaultModel
                          (message "system" (seededMessage env)
                           :: flat_map (exchange f) pre ++ [message "user" text])
                          "low")))
           (trace (snd (ChatVariant.main f env (pre ++ t :: post) World0)))).
Proof.
  split; intros Hup pre post t text Hpre Ht.
  - destruct (generate_main_run f env (pre ++ t :: post) World0) as (evs & _ & H).
    cbv zeta in H. cbn [World0 trace scopes deferred app] in H.
    destruct (startup_contexts env World0 Hup) as (all & E & _).
    rewrite E in H. cbn [fst snd] in H. destruct H as [_ ->].
    pose proof (generateLoopEvents_request f (seededMessage env) pre 1 t post text Hpre Ht)
      as Hin.
    destruct (hasExit f (pre ++ t :: post)); cbn [snd trace];
      right; apply in_or_app; right; [apply in_or_app; left|]; exact Hin.
  - destruct (chat_main_run f env (pre ++ t :: post) World0) as (evs & _ & H).
    cbv zeta in H. cbn [World0 trace scopes deferred app] in H.
    pose proof (chat_startup_value env World0) as Hval.
    destruct (chat_startup_block env World0) as (_ & _ & _ & O).
    destruct (fst (ChatVariant.startup env World0)) as [s|code|msg|];
      [| destruct O as [_ O]; contradiction | contradiction | contradiction].
    rewrite (Hval s eq_refl) in H. cbn [snd] in H. destruct H as [_ ->].
    pose proof (chatLoopEvents_request f pre 1 [message "system" (seededMessage env)]
                  t post text Hpre Ht) as Hin.
    destruct (hasExit f (pre ++ t :: post)); cbn [snd trace];
      right; apply in_or_app; right; [apply in_or_app; left|]; exact Hin.
Qed.

Lemma X18_witness_system_file :
  let env := withSystemFile serverUp ("  Answer in one line." ++ LF) in
  let first (R : Type) : Turn R := mkTurn (Ok ("hello" ++ LF)) [] (Some "unexpected EOF") in
  In (Call (Scope 2)
           (Generate (api.GenerateRequest.mk defaultModel "and now?"
                                             "Answer in one line." "low")))
     (trace (snd (GenerateVariant.main idRune env
                    ([first _] ++ say "and now?" :: [say "exit"]) World0)))
  /\ In (Call (Scope 2)
              (Chat (api.ChatRequest.mk defaultModel
                       [message "system" "Answer in one line."; message "user" "hello";
                        message "assistant" ""; message "user" "and now?"]
                       "low")))
        (trace (snd (ChatVariant.main idRune env
                       ([first _] ++ say "and now?" :: [say "exit"]) World0))).
Proof.
  intros env first.
  pose proof (X18_session_requests_carry_the_system_message idRune env) as [HG HC].
  split.
  - apply (HG reachesLoop_serverUp [first _] [say "exit"] (say "and now?") "and now?");
      vm_compute; reflexivity.
  - refine (HC _ [first _] [say "exit"] (say "and now?") "and now?" _ _);
      [|vm_compute; reflexivity|vm_compute; reflexivity].
    unfold chatReachesLoop, env. cbn. repeat split; eauto.
Defined.
